(** * ck-ai-assistant: chat reconciliation, model fallback, task and file
      housekeeping

    A shallow embedding of the parts of the application that carry its
    logic:

    - [services/geminiService.ts]: [generateResponseStream], [generateTitle];
    - [hooks/useChat.ts]: [updateConversation], [sendMessage];
    - [hooks/useProjects]: [addTask], [toggleTask], [deleteTask];
    - [hooks/useFiles]: [addFile];
    - [hooks/useAuth.ts]: the retry loop of [updateUser];
    - [database_schema.sql], [supabase_setup.sql]:
      [delete_old_completed_tasks], [update_completed_at],
      [cleanup_expired_files].

    Conventions.  A JavaScript string is the list of its UTF-16 code units.
    React state setters are applied in program order.  Everything the
    program awaits from the outside (model API, database, clock, random
    ids) is an explicit input.  Database timestamps are microseconds since
    the epoch, client timestamps milliseconds; the database session runs in
    UTC, as on the hosted backend. *)

From Stdlib Require Import String Ascii.
From Stdlib Require Import List ZArith NArith Bool Lia Arith DecimalZ.
From Equations Require Import Equations.
Import ListNotations.

(* ===================================================================== *)
(** ** JavaScript strings *)
(* ===================================================================== *)

(** UTF-16 code units. *)
Definition jsstring := list N.

Module Js.

(** A source literal (ASCII only in this code base). *)
Definition lit (s : string) : jsstring :=
  map N_of_ascii (list_ascii_of_string s).

(** [a === b] on strings. *)
Fixpoint eqb (a b : jsstring) : bool :=
  match a, b with
  | [], [] => true
  | x :: a', y :: b' => N.eqb x y && eqb a' b'
  | _, _ => false
  end.

(** Truthiness of a string: non-empty. *)
Definition truthy (s : jsstring) : bool :=
  match s with [] => false | _ :: _ => true end.

(** ECMAScript WhiteSpace and LineTerminator code points, the set that
    [String.prototype.trim] strips. *)
Definition isWhiteSpace (c : N) : bool :=
  ((c =? 9) || (c =? 10) || (c =? 11) || (c =? 12) || (c =? 13)
   || (c =? 32) || (c =? 160) || (c =? 5760)
   || ((8192 <=? c) && (c <=? 8202))
   || (c =? 8232) || (c =? 8233) || (c =? 8239) || (c =? 8287)
   || (c =? 12288) || (c =? 65279))%N.

Fixpoint trimStart (s : jsstring) : jsstring :=
  match s with
  | [] => []
  | c :: r => if isWhiteSpace c then trimStart r else s
  end.

Definition trimEnd (s : jsstring) : jsstring := rev (trimStart (rev s)).

Definition trim (s : jsstring) : jsstring := trimEnd (trimStart s).

(** Decimal digits of a template-literal integer. *)
Fixpoint uintUnits (d : Decimal.uint) : jsstring :=
  match d with
  | Decimal.Nil => []
  | Decimal.D0 r => 48%N :: uintUnits r
  | Decimal.D1 r => 49%N :: uintUnits r
  | Decimal.D2 r => 50%N :: uintUnits r
  | Decimal.D3 r => 51%N :: uintUnits r
  | Decimal.D4 r => 52%N :: uintUnits r
  | Decimal.D5 r => 53%N :: uintUnits r
  | Decimal.D6 r => 54%N :: uintUnits r
  | Decimal.D7 r => 55%N :: uintUnits r
  | Decimal.D8 r => 56%N :: uintUnits r
  | Decimal.D9 r => 57%N :: uintUnits r
  end.

(** [`${n}`] for an integral number such as [Date.now()]. *)
Definition numberToString (z : Z) : jsstring :=
  match Z.to_int z with
  | Decimal.Pos d => uintUnits d
  | Decimal.Neg d => 45%N :: uintUnits d
  end.

(** Concatenation of a list of strings, in order. *)
Definition concat (l : list jsstring) : jsstring := List.concat l.

End Js.

(** [User] of types.ts. *)
Record User := {
  user_id : jsstring;
  user_name : jsstring;
  user_surname : jsstring;
  user_email : jsstring
}.

(* ===================================================================== *)
(** ** services/geminiService.ts *)
(* ===================================================================== *)

Module Gemini.

Definition PRIMARY_MODEL : jsstring := Js.lit "gemini-2.5-flash".
Definition BACKUP_MODEL : jsstring := Js.lit "gemini-2.0-flash".

Definition APOLOGY : jsstring :=
  Js.lit "I'm sorry, I encountered an error while processing your request. Please try again.".

Definition DEFAULT_TITLE : jsstring := Js.lit "New Conversation".

Inductive Role := RoleUser | RoleModel.

Inductive Part :=
| TextPart (text : jsstring)
| InlineData (data mimeType : jsstring).

Record Content := { parts : list Part; role : Role }.

Record HistoryEntry := { h_role : Role; h_content : jsstring }.

Record Image := { base64 : jsstring; mimeType : jsstring }.

Record GenerateContentParams := {
  prompt : jsstring;
  image : option Image;
  user : option User;
  conversationHistory : list HistoryEntry
}.

(** What one [ai.models.generateContentStream] call does: the awaited call
    rejects, or it hands back a stream that yields [chunks] and then
    either ends ([completed = true]) or throws during iteration. *)
Inductive StreamOutcome :=
| CallRejected
| Streamed (chunks : list jsstring) (completed : bool).

(** What one [ai.models.generateContent] call does: it rejects ([None]) or
    resolves with a response whose [text] may be undefined. *)
Definition ContentOutcome := option (option jsstring).

(** The remote model API, as seen by this module. *)
Record Api := {
  generateContentStream : jsstring -> list Content -> StreamOutcome;
  generateContent : jsstring -> jsstring -> ContentOutcome
}.

Inductive Completion := Returned | Raised.

(** Everything a consumer of the async generator observes. *)
Record Generated := {
  yielded : list jsstring;
  completion : Completion;
  calls : list jsstring
}.

(** History entries followed by the current message (image part first). *)
Definition buildContents (p : GenerateContentParams) : list Content :=
  map (fun m => {| parts := [TextPart (h_content m)]; role := h_role m |})
      (conversationHistory p)
  ++ [ {| parts :=
            match image p with
            | Some i => [InlineData (base64 i) (mimeType i)]
            | None => []
            end ++ [TextPart (prompt p)];
          role := RoleUser |} ].

(** The [try] block of one loop iteration: chunks yielded, and whether the
    block ran to its [return]. *)
Definition tryModel (api : Api) (model : jsstring) (contents : list Content)
  : list jsstring * bool :=
  match generateContentStream api model contents with
  | CallRejected => ([], false)
  | Streamed chunks completed => (chunks, completed)
  end.

(** The [catch] block: the apology is yielded only for the backup model. *)
Definition catchModel (model : jsstring) : list jsstring :=
  if Js.eqb model BACKUP_MODEL then [APOLOGY] else [].

(** [for (const model of models) { try { ... return; } catch { ... } }] *)
Fixpoint streamModels (api : Api) (contents : list Content)
         (models : list jsstring) : Generated :=
  match models with
  | [] => {| yielded := []; completion := Returned; calls := [] |}
  | model :: rest =>
      match tryModel api model contents with
      | (chunks, true) =>
          {| yielded := chunks; completion := Returned; calls := [model] |}
      | (chunks, false) =>
          let r := streamModels api contents rest in
          {| yielded := chunks ++ catchModel model ++ yielded r;
             completion := completion r;
             calls := model :: calls r |}
      end
  end.

Definition generateResponseStream (api : Api) (p : GenerateContentParams)
  : Generated :=
  streamModels api (buildContents p) [PRIMARY_MODEL; BACKUP_MODEL].

(** [text.replace] with the global pattern for the double quote (34),
    the asterisk (42) and the hash (35), replaced by the empty string. *)
Definition stripMarkup (s : jsstring) : jsstring :=
  filter (fun c => negb ((c =? 34) || (c =? 42) || (c =? 35))%N) s.

Definition titlePrompt (conversationSnippet : jsstring) : jsstring :=
  Js.lit "Based on the following conversation, create a short, concise title (5 words maximum) for this chat. Do not include quotation marks or the word "
  ++ [34%N] ++ Js.lit "title" ++ [34%N]
  ++ Js.lit " in your response. Conversation: "
  ++ [34%N] ++ conversationSnippet ++ [34%N].

(** The loop of [generateTitle]; a response without text makes
    [response.text.replace] throw inside the [try]. *)
Fixpoint titleModels (api : Api) (contents : jsstring)
         (models : list jsstring) : jsstring :=
  match models with
  | [] => DEFAULT_TITLE
  | model :: rest =>
      match generateContent api model contents with
      | Some (Some text) => Js.trim (stripMarkup text)
      | _ =>
          if Js.eqb model BACKUP_MODEL then DEFAULT_TITLE
          else titleModels api contents rest
      end
  end.

Definition generateTitle (api : Api) (conversationSnippet : jsstring)
  : jsstring :=
  titleModels api (titlePrompt conversationSnippet)
              [PRIMARY_MODEL; BACKUP_MODEL].

End Gemini.

(* ===================================================================== *)
(** ** hooks/useChat.ts *)
(* ===================================================================== *)

Module Chat.
Import Gemini.

Inductive MessageSender := USER | AI.

Record Message := {
  msg_id : jsstring;
  msg_sender : MessageSender;
  msg_text : jsstring;
  msg_image : option jsstring;
  msg_timestamp : Z
}.

Record Conversation := {
  conv_id : jsstring;
  conv_title : jsstring;
  conv_messages : list Message;
  conv_createdAt : Z
}.

(** A row of [public.chats] as a select hands it to the client;
    [row_created_at] is already [new Date(created_at).getTime()]. *)
Record ChatRow := {
  row_id : jsstring;
  row_title : jsstring;
  row_messages : option (list Message);
  row_created_at : Z
}.

(** Requests the provider sends out, in order. *)
Inductive Effect :=
| Upsert (c : Conversation)
| SelectChat (id : jsstring)
| StreamRequest (models : list jsstring)
| TitleRequest (snippet : jsstring).

Record ChatState := {
  conversations : list Conversation;
  activeConversationId : option jsstring;
  isLoading : bool;
  effects : list Effect
}.

Definition setConversations (f : list Conversation -> list Conversation)
           (st : ChatState) : ChatState :=
  {| conversations := f (conversations st);
     activeConversationId := activeConversationId st;
     isLoading := isLoading st;
     effects := effects st |}.

Definition setActiveConversationId (id : option jsstring) (st : ChatState)
  : ChatState :=
  {| conversations := conversations st;
     activeConversationId := id;
     isLoading := isLoading st;
     effects := effects st |}.

Definition setIsLoading (b : bool) (st : ChatState) : ChatState :=
  {| conversations := conversations st;
     activeConversationId := activeConversationId st;
     isLoading := b;
     effects := effects st |}.

Definition emit (es : list Effect) (st : ChatState) : ChatState :=
  {| conversations := conversations st;
     activeConversationId := activeConversationId st;
     isLoading := isLoading st;
     effects := effects st ++ es |}.

(** [conversations.find(c => c.id === id)] *)
Definition findConversation (id : jsstring) (l : list Conversation)
  : option Conversation :=
  find (fun c => Js.eqb (conv_id c) id) l.

(** [activeConversation], line 83. *)
Definition activeConversation (st : ChatState) : option Conversation :=
  match activeConversationId st with
  | Some id => findConversation id (conversations st)
  | None => None
  end.

(** [saveConversationToDB]: without a user nothing is sent. *)
Definition saveConversationToDB (user : option User) (c : Conversation)
  : list Effect :=
  match user with
  | None => []
  | Some _ => [Upsert c]
  end.

(** [updateConversation]: the mapped list, and one save per updated
    conversation. *)
Definition updateConversation (user : option User) (id : jsstring)
           (updateFn : Conversation -> Conversation) (st : ChatState)
  : ChatState :=
  let step conv :=
    if Js.eqb (conv_id conv) id then updateFn conv else conv in
  emit (flat_map (fun conv =>
                    if Js.eqb (conv_id conv) id
                    then saveConversationToDB user (updateFn conv)
                    else [])
                 (conversations st))
       (setConversations (map step) st).

(** [refreshConversationFromDB]; [fetched] is what the single-row select
    returned, [None] on an error, an exception or no data. *)
Definition refreshConversationFromDB (user : option User)
           (fetched : option ChatRow) (conversationId : jsstring)
           (st : ChatState) : ChatState :=
  match user with
  | None => st
  | Some _ =>
      let st := emit [SelectChat conversationId] st in
      match fetched with
      | None => st
      | Some data =>
          setConversations
            (map (fun conv =>
                    if Js.eqb (conv_id conv) conversationId
                    then {| conv_id := row_id data;
                            conv_title := row_title data;
                            conv_messages :=
                              match row_messages data with
                              | Some ms => ms
                              | None => []
                              end;
                            conv_createdAt := row_created_at data |}
                    else conv))
            st
      end
  end.

(** The three conversation updaters used by [sendMessage]. *)
Definition appendMessage (m : Message) (conv : Conversation)
  : Conversation :=
  {| conv_id := conv_id conv;
     conv_title := conv_title conv;
     conv_messages := conv_messages conv ++ [m];
     conv_createdAt := conv_createdAt conv |}.

Definition withText (text : jsstring) (m : Message) : Message :=
  {| msg_id := msg_id m;
     msg_sender := msg_sender m;
     msg_text := text;
     msg_image := msg_image m;
     msg_timestamp := msg_timestamp m |}.

Definition setMessageText (id text : jsstring) (conv : Conversation)
  : Conversation :=
  {| conv_id := conv_id conv;
     conv_title := conv_title conv;
     conv_messages :=
       map (fun m => if Js.eqb (msg_id m) id then withText text m else m)
           (conv_messages conv);
     conv_createdAt := conv_createdAt conv |}.

Definition setTitle (newTitle : jsstring) (conv : Conversation)
  : Conversation :=
  {| conv_id := conv_id conv;
     conv_title := newTitle;
     conv_messages := conv_messages conv;
     conv_createdAt := conv_createdAt conv |}.

(** The file argument: its MIME type and what [fileToBase64] resolves to
    ([None] when the reader fails and the promise rejects). *)
Record File := { file_type : jsstring; file_base64 : option jsstring }.

(** Everything [sendMessage] reads from outside its arguments. *)
Record Env := {
  api : Api;
  now_msg : Z;           (* Date.now() in the user message id *)
  now_msg_ts : Z;        (* Date.now() in its timestamp *)
  uuid : jsstring;       (* crypto.randomUUID() *)
  now_conv : Z;          (* Date.now() in a new conversation *)
  now_ai : Z;            (* Date.now() in the placeholder id *)
  now_ai_ts : Z;         (* Date.now() in its timestamp *)
  now_fallback : Z;      (* Date.now() in the history fallback *)
  fetched : option ChatRow;
  closureConversations : list Conversation
}.

Definition userMessageOf (env : Env) (text : jsstring)
           (img : option jsstring) : Message :=
  {| msg_id := Js.lit "msg-" ++ Js.numberToString (now_msg env);
     msg_sender := USER;
     msg_text := text;
     msg_image := img;
     msg_timestamp := now_msg_ts env |}.

Definition aiMessageId (env : Env) : jsstring :=
  Js.lit "msg-" ++ Js.numberToString (now_ai env) ++ Js.lit "-ai".

Definition aiMessagePlaceholder (env : Env) : Message :=
  {| msg_id := aiMessageId env;
     msg_sender := AI;
     msg_text := [];
     msg_image := None;
     msg_timestamp := now_ai_ts env |}.

(** [file ? await fileToBase64(file) : undefined]; the outer [None] is a
    rejected read. *)
Definition readImage (file : option File) : option (option jsstring) :=
  match file with
  | None => Some None
  | Some f =>
      match file_base64 f with
      | Some b => Some (Some b)
      | None => None
      end
  end.

(** Lines 246-270: the conversation the message goes to.  A missing or
    empty active id is falsy and opens a new conversation. *)
Definition isActive (active : option jsstring) : option jsstring :=
  match active with
  | Some id => if Js.truthy id then Some id else None
  | None => None
  end.

Definition newConversationOf (env : Env) (userMessage : Message)
  : Conversation :=
  {| conv_id := uuid env;
     conv_title := Js.lit "New Conversation";
     conv_messages := [userMessage];
     conv_createdAt := now_conv env |}.

Definition placeUserMessage (env : Env) (u : User) (userMessage : Message)
           (st : ChatState) : ChatState * jsstring * bool :=
  match isActive (activeConversationId st) with
  | None =>
      let newConversation := newConversationOf env userMessage in
      let st := setConversations (cons newConversation) st in
      let st := setActiveConversationId (Some (uuid env)) st in
      (emit (saveConversationToDB (Some u) newConversation) st,
       uuid env, true)
  | Some conversationId =>
      (updateConversation (Some u) conversationId
                          (appendMessage userMessage) st,
       conversationId, false)
  end.

(** Lines 280-283. *)
Definition placePlaceholder (env : Env) (u : User)
           (conversationId : jsstring) (st : ChatState) : ChatState :=
  updateConversation (Some u) conversationId
                     (appendMessage (aiMessagePlaceholder env)) st.

Definition optionEqb (a : jsstring) (b : option jsstring) : bool :=
  match b with
  | Some b' => Js.eqb a b'
  | None => false
  end.

(** Lines 288-332: the history sent to the model, read from the
    conversations captured by the callback ([conversations] is not among
    its dependencies, [activeConversationId] is). *)
Definition buildHistory (env : Env) (active : option jsstring)
           (conversationId : jsstring) (userMessage : Message)
  : list HistoryEntry :=
  let currentConversation :=
    match findConversation conversationId (closureConversations env) with
    | Some c => Some c
    | None =>
        if optionEqb conversationId active
        then Some {| conv_id := conversationId;
                     conv_title := Js.lit "New Conversation";
                     conv_messages := [userMessage];
                     conv_createdAt := now_fallback env |}
        else None
    end in
  match currentConversation with
  | None => []
  | Some c =>
      map (fun msg =>
             {| h_role := match msg_sender msg with
                          | USER => RoleUser
                          | AI => RoleModel
                          end;
                h_content := msg_text msg |})
          (filter (fun msg =>
                     negb (Js.eqb (msg_id msg) (aiMessageId env))
                     && Js.truthy (msg_text msg)
                     && Js.truthy (Js.trim (msg_text msg)))
                  (conv_messages c))
  end.

(** Lines 354-361: the [for await] loop over the chunks. *)
Fixpoint consumeStream (u : User) (conversationId aiId : jsstring)
         (chunks : list jsstring) (fullResponse : jsstring)
         (st : ChatState) : jsstring * ChatState :=
  match chunks with
  | [] => (fullResponse, st)
  | chunk :: rest =>
      let fullResponse := fullResponse ++ chunk in
      consumeStream u conversationId aiId rest fullResponse
        (updateConversation (Some u) conversationId
                            (setMessageText aiId fullResponse) st)
  end.

Definition streamParams (env : Env) (u : User) (text : jsstring)
           (file : option File) (userMessage : Message)
           (active : option jsstring) (conversationId : jsstring)
  : GenerateContentParams :=
  {| prompt := text;
     conversationHistory :=
       buildHistory env active conversationId userMessage;
     image :=
       match file, msg_image userMessage with
       | Some f, Some b => Some {| base64 := b; mimeType := file_type f |}
       | _, _ => None
       end;
     user := Some u |}.

(** Lines 363-369: title of a new conversation, then the refresh. *)
Definition finishTry (env : Env) (u : User) (text : jsstring)
           (conversationId : jsstring) (needsTitle : bool)
           (fullResponse : jsstring) (st : ChatState) : ChatState :=
  let st :=
    if needsTitle && Js.truthy fullResponse then
      let snippet := text ++ [10%N; 10%N] ++ fullResponse in
      let newTitle := generateTitle (api env) snippet in
      updateConversation (Some u) conversationId (setTitle newTitle)
                         (emit [TitleRequest snippet] st)
    else st in
  refreshConversationFromDB (Some u) (fetched env) conversationId st.

(** Lines 371-379: the [catch] branch. *)
Definition catchBlock (env : Env) (u : User) (conversationId : jsstring)
           (st : ChatState) : ChatState :=
  updateConversation (Some u) conversationId
                     (setMessageText (aiMessageId env) APOLOGY) st.

(** The [try] statement, parametrised by what the stream does. *)
Definition tryBlock (env : Env) (u : User) (text : jsstring)
           (conversationId : jsstring) (needsTitle : bool)
           (stream : Generated) (st : ChatState) : ChatState * bool :=
  let st := emit [StreamRequest (calls stream)] st in
  let '(fullResponse, st) :=
    consumeStream u conversationId (aiMessageId env) (yielded stream) [] st in
  match completion stream with
  | Returned =>
      (finishTry env u text conversationId needsTitle fullResponse st,
       false)
  | Raised => (catchBlock env u conversationId st, true)
  end.

(** What one call leaves behind: the state, whether the [catch] branch
    ran, and how the promise settled. *)
Record Sent := {
  state : ChatState;
  caught : bool;
  settled : Completion
}.

Definition sendMessage (env : Env) (user : option User) (text : jsstring)
           (file : option File) (st : ChatState) : Sent :=
  match user with
  | None => {| state := st; caught := false; settled := Returned |}
  | Some u =>
      let active := activeConversationId st in
      let st := setIsLoading true st in
      match readImage file with
      | None => {| state := st; caught := false; settled := Raised |}
      | Some img =>
          let userMessage := userMessageOf env text img in
          let '(st, conversationId, needsTitle) :=
            placeUserMessage env u userMessage st in
          let st := placePlaceholder env u conversationId st in
          let stream :=
            generateResponseStream
              (api env)
              (streamParams env u text file userMessage active
                            conversationId) in
          let '(st, c) :=
            tryBlock env u text conversationId needsTitle stream st in
          {| state := setIsLoading false st;
             caught := c;
             settled := Returned |}
      end
  end.

End Chat.

(* ===================================================================== *)
(** ** database_schema.sql, supabase_setup.sql *)
(* ===================================================================== *)

Module Sql.

(** Three-valued logic; [None] is NULL. *)
Definition sqlbool := option bool.

Definition sql_and (a b : sqlbool) : sqlbool :=
  match a, b with
  | Some false, _ | _, Some false => Some false
  | Some true, Some true => Some true
  | _, _ => None
  end.

Definition sql_or (a b : sqlbool) : sqlbool :=
  match a, b with
  | Some true, _ | _, Some true => Some true
  | Some false, Some false => Some false
  | _, _ => None
  end.

Definition sql_eq_bool (a : sqlbool) (b : bool) : sqlbool :=
  match a with
  | Some x => Some (Bool.eqb x b)
  | None => None
  end.

Definition sql_lt (a b : option Z) : sqlbool :=
  match a, b with
  | Some x, Some y => Some (x <? y)%Z
  | _, _ => None
  end.

Definition is_null {A} (a : option A) : sqlbool :=
  match a with None => Some true | Some _ => Some false end.

Definition is_not_null {A} (a : option A) : sqlbool :=
  match a with None => Some false | Some _ => Some true end.

(** A WHERE or IF condition selects only when it is true. *)
Definition holds (c : sqlbool) : bool :=
  match c with Some true => true | _ => false end.

(** [DELETE FROM t WHERE cond]: the rows that remain. *)
Definition delete_where {A} (cond : A -> sqlbool) (rows : list A) : list A :=
  filter (fun r => negb (holds (cond r))) rows.

(** *** public.projects *)

Record ProjectRow := {
  p_id : jsstring;
  p_user_id : jsstring;
  p_text : jsstring;
  p_completed : sqlbool;
  p_created_at : Z;
  p_updated_at : Z;
  p_completed_at : option Z
}.

(** [INTERVAL '7 days'] in microseconds. *)
Definition INTERVAL_7_DAYS : Z := 7 * 24 * 60 * 60 * 1000000.

(** [delete_old_completed_tasks()], run at instant [now]. *)
Definition delete_old_completed_tasks (now : Z) (projects : list ProjectRow)
  : list ProjectRow :=
  delete_where
    (fun r =>
       sql_and (sql_and (sql_eq_bool (p_completed r) true)
                        (is_not_null (p_completed_at r)))
               (sql_lt (p_completed_at r) (Some (now - INTERVAL_7_DAYS)%Z)))
    projects.

(** The candidate row NEW of an UPDATE: any column can hold NULL until the
    constraints of the table are checked. *)
Record NewRow := {
  n_id : option jsstring;
  n_user_id : option jsstring;
  n_text : option jsstring;
  n_completed : sqlbool;
  n_created_at : option Z;
  n_updated_at : option Z;
  n_completed_at : option Z
}.

Definition with_stamps (completed_at : option Z) (updated_at : Z)
           (r : NewRow) : NewRow :=
  {| n_id := n_id r;
     n_user_id := n_user_id r;
     n_text := n_text r;
     n_completed := n_completed r;
     n_created_at := n_created_at r;
     n_updated_at := Some updated_at;
     n_completed_at := completed_at |}.

(** Trigger function [update_completed_at()]: the row that replaces NEW. *)
Definition update_completed_at (now : Z) (OLD : ProjectRow) (NEW : NewRow)
  : NewRow :=
  if holds (sql_and (sql_eq_bool (n_completed NEW) true)
                    (sql_or (sql_eq_bool (p_completed OLD) false)
                            (is_null (p_completed OLD))))
  then with_stamps (Some now) now NEW
  else if holds (sql_and (sql_eq_bool (n_completed NEW) false)
                         (sql_eq_bool (p_completed OLD) true))
  then with_stamps None now NEW
  else with_stamps (n_completed_at NEW) now NEW.

(** Trigger function [handle_projects_updated_at()]. *)
Definition handle_projects_updated_at (now : Z) (OLD : ProjectRow)
           (NEW : NewRow) : NewRow :=
  with_stamps (n_completed_at NEW) now NEW.

(** The SET list of an UPDATE on [public.projects], any column of the
    table: per column, [None] when the column is not assigned, and
    otherwise the value its expression takes on the row, which can be
    NULL. *)
Record ProjectUpdate := {
  set_id : option (option jsstring);
  set_user_id : option (option jsstring);
  set_text : option (option jsstring);
  set_completed : option sqlbool;
  set_created_at : option (option Z);
  set_updated_at : option (option Z);
  set_completed_at : option (option Z)
}.

Definition assigned {A} (a : option A) (old : A) : A :=
  match a with Some v => v | None => old end.

Definition apply_set (u : ProjectUpdate) (r : ProjectRow) : NewRow :=
  {| n_id := assigned (set_id u) (Some (p_id r));
     n_user_id := assigned (set_user_id u) (Some (p_user_id r));
     n_text := assigned (set_text u) (Some (p_text r));
     n_completed := assigned (set_completed u) (p_completed r);
     n_created_at := assigned (set_created_at u) (Some (p_created_at r));
     n_updated_at := assigned (set_updated_at u) (Some (p_updated_at r));
     n_completed_at := assigned (set_completed_at u) (p_completed_at r) |}.

(** The NOT NULL constraints of the table ([id] as primary key, [user_id],
    [text], [completed], [created_at], [updated_at]): the row stored, if
    NEW passes them. *)
Definition not_null (NEW : NewRow) : option ProjectRow :=
  match n_id NEW, n_user_id NEW, n_text NEW, n_completed NEW,
        n_created_at NEW, n_updated_at NEW with
  | Some id, Some user_id, Some text, Some completed,
    Some created_at, Some updated_at =>
      Some {| p_id := id;
              p_user_id := user_id;
              p_text := text;
              p_completed := Some completed;
              p_created_at := created_at;
              p_updated_at := updated_at;
              p_completed_at := n_completed_at NEW |}
  | _, _, _, _, _, _ => None
  end.

(** One row going through an UPDATE that applies to it: the SET list, the
    two BEFORE UPDATE row triggers in name order, then the NOT NULL
    constraints; a violation aborts the statement and the stored row
    stays.  The uniqueness of the key, a check over the whole table, is
    taken as passed. *)
Definition update_row (now : Z) (u : ProjectUpdate) (OLD : ProjectRow)
  : ProjectRow :=
  let NEW := apply_set u OLD in
  let NEW := handle_projects_updated_at now OLD NEW in
  let NEW := update_completed_at now OLD NEW in
  match not_null NEW with
  | Some r => r
  | None => OLD
  end.

(** Who runs a statement.  Row-level security is enabled on the tables;
    it does not bind the table owner or a role that bypasses it, and it
    binds the two roles of the API: [authenticated], for which
    [auth.uid()] is the id of the signed-in user, and [anon], for which
    it is NULL. *)
Inductive Invoker :=
| Privileged
| Authenticated (uid : jsstring)
| Anon.

(** The policies [USING (auth.uid() = user_id)] of [public.projects] and
    [public.files], on a row of the given owner. *)
Definition owns (who : Invoker) (user_id : jsstring) : bool :=
  match who with
  | Privileged => true
  | Authenticated uid => Js.eqb uid user_id
  | Anon => false
  end.

(** The same UPDATE under the policy for UPDATE, which has no WITH CHECK
    clause, so that its USING condition is required of the stored row and
    of the row that replaces it: a row that is not the invoker's is not
    touched, and a new row that is not the invoker's aborts the
    statement. *)
Definition update_row_as (who : Invoker) (now : Z) (u : ProjectUpdate)
           (OLD : ProjectRow) : ProjectRow :=
  if owns who (p_user_id OLD) then
    let NEW := update_row now u OLD in
    if owns who (p_user_id NEW) then NEW else OLD
  else OLD.

(** The INSERT issued by the client ([user_id], [text], [completed]);
    the other columns take their defaults. *)
Definition insert_row (id user_id text : jsstring) (completed : bool)
           (now : Z) : ProjectRow :=
  {| p_id := id;
     p_user_id := user_id;
     p_text := text;
     p_completed := Some completed;
     p_created_at := now;
     p_updated_at := now;
     p_completed_at := None |}.

(** The life of one row: its insert, then updates at given instants. *)
Definition row_after (r0 : ProjectRow) (ups : list (Z * ProjectUpdate))
  : ProjectRow :=
  fold_left (fun r nu => update_row (fst nu) (snd nu) r) ups r0.

(** *** public.files and storage.objects *)

Record FileRow := {
  f_id : jsstring;
  f_user_id : jsstring;
  f_name : jsstring;
  f_type : jsstring;
  f_size : Z;
  f_file_path : jsstring;
  f_expires_at : Z;
  f_created_at : Z
}.

Record StorageObject := { bucket_id : jsstring; name : jsstring }.

Record Database := {
  files : list FileRow;
  objects : list StorageObject
}.

Definition USER_FILES : jsstring := Js.lit "user-files".

Definition AVATARS : jsstring := Js.lit "avatars".

(** [string_to_array(name, '/')] *)
Fixpoint split_slash (acc s : jsstring) : list jsstring :=
  match s with
  | [] => [acc]
  | c :: r => if (c =? 47)%N then acc :: split_slash [] r
              else split_slash (acc ++ [c]) r
  end.

(** [storage.foldername(name)], the storage schema's helper: the segments
    of the name between slashes, without the last one. *)
Definition foldername (name : jsstring) : list jsstring :=
  removelast (split_slash [] name).

(** [auth.uid()::text = (storage.foldername(name))[1]]; the first element
    of an empty array is NULL. *)
Definition uid_is_first_folder (who : Invoker) (name : jsstring) : sqlbool :=
  match who, hd_error (foldername name) with
  | Authenticated uid, Some folder => Some (Js.eqb uid folder)
  | _, _ => None
  end.

(** [auth.role() = 'authenticated'] *)
Definition role_authenticated (who : Invoker) : bool :=
  match who with Authenticated _ => true | _ => false end.

(** The condition shared by the policies on [storage.objects] for the
    user-files bucket. *)
Definition user_files_policy (who : Invoker) (o : StorageObject) : sqlbool :=
  sql_and (sql_and (Some (Js.eqb (bucket_id o) USER_FILES))
                   (uid_is_first_folder who (name o)))
          (Some (role_authenticated who)).

(** The policies for SELECT and for DELETE on [storage.objects], a table
    of the hosted backend on which row-level security is in force; the
    policies of one command are alternatives. *)
Definition objects_select (who : Invoker) (o : StorageObject) : bool :=
  match who with
  | Privileged => true
  | _ => holds (sql_or (user_files_policy who o)
                       (Some (Js.eqb (bucket_id o) AVATARS)))
  end.

Definition objects_delete (who : Invoker) (o : StorageObject) : bool :=
  match who with
  | Privileged => true
  | _ => holds (sql_or (user_files_policy who o)
                       (sql_and (Some (Js.eqb (bucket_id o) AVATARS))
                                (Some (role_authenticated who))))
  end.

(** [DELETE FROM t WHERE cond] under row-level security: a row goes when
    the policies let the invoker see and delete it and the condition
    holds. *)
Definition delete_where_as {A} (policy : A -> bool) (cond : A -> sqlbool)
           (rows : list A) : list A :=
  filter (fun r => negb (policy r && holds (cond r))) rows.

(** Body of the loop of [cleanup_expired_files()] for one selected row. *)
Definition purge (who : Invoker) (db : Database)
           (expired_file : jsstring * jsstring) : Database :=
  {| objects :=
       delete_where_as
         (fun o => objects_select who o && objects_delete who o)
         (fun o => sql_and (Some (Js.eqb (bucket_id o) USER_FILES))
                           (Some (Js.eqb (name o) (snd expired_file))))
         (objects db);
     files :=
       delete_where_as
         (fun r => owns who (f_user_id r))
         (fun r => Some (Js.eqb (f_id r) (fst expired_file)))
         (files db) |}.

(** [cleanup_expired_files()], run by [who] at instant [now].  The
    function has the rights of its invoker, so its statements go through
    the policies: the SELECT, evaluated first, gives the expired rows the
    invoker can see, and the loop then runs over them.  The bound
    [timezone('utc', now())], cast back to a timestamptz in a UTC session,
    is [now] itself. *)
Definition cleanup_expired_files (who : Invoker) (now : Z) (db : Database)
  : Database :=
  let selected :=
    map (fun r => (f_id r, f_file_path r))
        (filter (fun r => owns who (f_user_id r)
                          && (f_expires_at r <? now)%Z)
                (files db)) in
  fold_left (purge who) selected db.

End Sql.

(* ===================================================================== *)
(** ** hooks/useProjects *)
(* ===================================================================== *)

Module Projects.

Record ProjectTask := {
  task_id : jsstring;
  task_text : jsstring;
  task_completed : bool;
  task_createdAt : Z
}.

(** The row [insert().select().single()] returns, [created_at] already
    converted with [new Date(..).getTime()]. *)
Record SavedTask := {
  saved_id : jsstring;
  saved_text : jsstring;
  saved_completed : bool;
  saved_created_at : Z
}.

(** Remote store operations on [projects]. *)
Inductive Remote :=
| Insert (text : jsstring) (completed : bool)
| Update (id : jsstring) (completed : bool)
| Delete (id : jsstring).

(** What happens during one call, in program order: state setters with
    the list they leave, a remote operation being issued, and the awaited
    operation having completed. *)
Inductive Event :=
| SetIsLoading (b : bool)
| SetTasks (tasks : list ProjectTask)
| Request (r : Remote)
| Response (r : Remote) (ok : bool).

Record Local := { tasks : list ProjectTask; events : list Event }.

Definition setIsLoading (b : bool) (s : Local) : Local :=
  {| tasks := tasks s; events := events s ++ [SetIsLoading b] |}.

Definition setTasks (f : list ProjectTask -> list ProjectTask) (s : Local)
  : Local :=
  {| tasks := f (tasks s); events := events s ++ [SetTasks (f (tasks s))] |}.

Definition await (r : Remote) (ok : bool) (s : Local) : Local :=
  {| tasks := tasks s; events := events s ++ [Request r; Response r ok] |}.

(** How an awaited store call ends. *)
Inductive Outcome := Ok | Error | Throws.

Definition succeeded (o : Outcome) : bool :=
  match o with Ok => true | _ => false end.

Definition withCompleted (b : bool) (t : ProjectTask) : ProjectTask :=
  {| task_id := task_id t;
     task_text := task_text t;
     task_completed := b;
     task_createdAt := task_createdAt t |}.

Definition ofSaved (s : SavedTask) : ProjectTask :=
  {| task_id := saved_id s;
     task_text := saved_text s;
     task_completed := saved_completed s;
     task_createdAt := saved_created_at s |}.

(** [addTask]; [saved] is what [insertTaskToDB] resolves to ([None] for
    null: it catches its own errors, so the [catch] of [addTask], never
    entered, is left out). *)
Definition addTask (user : option User) (nowId nowCreated : Z)
           (saved : option SavedTask) (text : jsstring) (s : Local)
  : Local :=
  match user with
  | None => s
  | Some _ =>
      if negb (Js.truthy (Js.trim text)) then s
      else
        let s := setIsLoading true s in
        let tempTask :=
          {| task_id := Js.lit "temp-" ++ Js.numberToString nowId;
             task_text := text;
             task_completed := false;
             task_createdAt := nowCreated |} in
        let s := setTasks (cons tempTask) s in
        let s :=
          await (Insert text false)
                (match saved with Some _ => true | None => false end) s in
        let s :=
          match saved with
          | Some savedTask =>
              setTasks
                (map (fun task =>
                        if Js.eqb (task_id task) (task_id tempTask)
                        then ofSaved savedTask else task)) s
          | None =>
              setTasks
                (filter (fun task =>
                           negb (Js.eqb (task_id task) (task_id tempTask))))
                s
          end in
        setIsLoading false s
  end.

(** [toggleTask] *)
Definition toggleTask (user : option User) (outcome : Outcome)
           (id : jsstring) (s : Local) : Local :=
  match user with
  | None => s
  | Some _ =>
      let s := setIsLoading true s in
      match find (fun t => Js.eqb (task_id t) id) (tasks s) with
      | None => setIsLoading false s
      | Some currentTask =>
          let newCompleted := negb (task_completed currentTask) in
          let s :=
            setTasks
              (map (fun task =>
                      if Js.eqb (task_id task) id
                      then withCompleted newCompleted task else task)) s in
          let s := await (Update id newCompleted) (succeeded outcome) s in
          let s :=
            match outcome with
            | Error =>
                setTasks
                  (map (fun task =>
                          if Js.eqb (task_id task) id
                          then withCompleted (task_completed currentTask)
                                             task
                          else task)) s
            | Ok | Throws => s
            end in
          setIsLoading false s
      end
  end.

(** [deleteTask] *)
Definition deleteTask (user : option User) (outcome : Outcome)
           (id : jsstring) (s : Local) : Local :=
  match user with
  | None => s
  | Some _ =>
      let s := setIsLoading true s in
      let s := await (Delete id) (succeeded outcome) s in
      let s :=
        match outcome with
        | Ok =>
            setTasks
              (filter (fun t => negb (Js.eqb (task_id t) id))) s
        | Error | Throws => s
        end in
      setIsLoading false s
  end.

(** The UPDATE statement behind [Update id completed], as [toggleTask]
    sends it with the client time [at_] in milliseconds: it assigns
    [completed] and [updated_at] and no other column. *)
Definition updateStatement (completed : bool) (at_ : Z) : Sql.ProjectUpdate :=
  {| Sql.set_id := None;
     Sql.set_user_id := None;
     Sql.set_text := None;
     Sql.set_completed := Some (Some completed);
     Sql.set_created_at := None;
     Sql.set_updated_at := Some (Some (at_ * 1000)%Z);
     Sql.set_completed_at := None |}.

(** A call on a given list, with a log of its own. *)
Definition fresh (tasks0 : list ProjectTask) : Local :=
  {| tasks := tasks0; events := [] |}.

(** The local list is written before the first awaited store operation
    has completed. *)
Fixpoint localBeforeResponse (evs : list Event) : bool :=
  match evs with
  | [] => false
  | SetTasks _ :: _ => true
  | Response _ _ :: _ => false
  | _ :: rest => localBeforeResponse rest
  end.

End Projects.

(* ===================================================================== *)
(** ** hooks/useFiles *)
(* ===================================================================== *)

Module Files.
Import Sql.

Definition FILE_EXPIRATION_TIME : Z := 24 * 60 * 60 * 1000.

Record StoredFile := {
  sf_id : jsstring;
  sf_name : jsstring;
  sf_type : jsstring;
  sf_size : Z;
  sf_base64 : jsstring;
  sf_expiresAt : Z
}.

(** The browser [File] handed to [addFile]. *)
Record Upload := { up_name : jsstring; up_type : jsstring; up_size : Z }.

(** A millisecond instant written with [toISOString] and stored in a
    timestamptz column; and such a column read back with
    [new Date(..).getTime()]. *)
Definition toTimestamptz (ms : Z) : Z := (ms * 1000)%Z.
Definition getTime (us : Z) : Z := (us / 1000)%Z.

(** [name.split('.').pop()] *)
Fixpoint lastSegment (acc s : jsstring) : jsstring :=
  match s with
  | [] => acc
  | c :: r => if (c =? 46)%N then lastSegment [] r
              else lastSegment (acc ++ [c]) r
  end.

Record Env := {
  nowName : Z;             (* Date.now() in the file name *)
  random : jsstring;       (* Math.random().toString(36).substring(2) *)
  nowExpiry : Z;           (* Date.now() in expires_at *)
  uploadOk : bool;         (* storage upload without error *)
  inserted : option (jsstring * Z)
                           (* id and created_at given by the insert,
                              None on a database error *)
}.

Record World := {
  localFiles : list StoredFile;
  isLoading : bool;
  db : Database
}.

Definition filePathOf (env : Env) (u : User) (file : Upload) : jsstring :=
  user_id u ++ [47%N]
  ++ Js.numberToString (nowName env) ++ [45%N] ++ random env
  ++ [46%N] ++ lastSegment [] (up_name file).

(** [addFile] *)
Definition addFile (env : Env) (user : option User) (file : Upload)
           (w : World) : World :=
  match user with
  | None => w
  | Some u =>
      let filePath := filePathOf env u file in
      if negb (uploadOk env) then
        {| localFiles := localFiles w; isLoading := false; db := db w |}
      else
        let stored :=
          {| bucket_id := USER_FILES; name := filePath |}
          :: objects (db w) in
        match inserted env with
        | None =>
            {| localFiles := localFiles w;
               isLoading := false;
               db := {| files := files (db w);
                        objects :=
                          filter (fun o =>
                                    negb (Js.eqb (bucket_id o) USER_FILES
                                          && Js.eqb (name o) filePath))
                                 stored |} |}
        | Some (id, created_at) =>
            let row :=
              {| f_id := id;
                 f_user_id := user_id u;
                 f_name := up_name file;
                 f_type := up_type file;
                 f_size := up_size file;
                 f_file_path := filePath;
                 f_expires_at :=
                   toTimestamptz (nowExpiry env + FILE_EXPIRATION_TIME);
                 f_created_at := created_at |} in
            let newFile :=
              {| sf_id := f_id row;
                 sf_name := up_name file;
                 sf_type := up_type file;
                 sf_size := up_size file;
                 sf_base64 := [];
                 sf_expiresAt := getTime (f_expires_at row) |} in
            {| localFiles := newFile :: localFiles w;
               isLoading := false;
               db := {| files := row :: files (db w);
                        objects := stored |} |}
        end
  end.

End Files.

(* ===================================================================== *)
(** ** hooks/useAuth.ts: the auth-update loop of updateUser *)
(* ===================================================================== *)

Module Auth.

Definition maxAttempts : nat := 3.

(** An error object; only its [message] is read. *)
Record AuthError := { message : jsstring }.

(** [await supabase.auth.updateUser(updates)]: an error in the response,
    data with or without a user, or a rejected promise. *)
Inductive UpdateOutcome :=
| UpdateError (e : AuthError)
| UpdateData (hasUser : bool)
| UpdateThrows (e : AuthError).

(** [await supabase.auth.getUser()]; the metadata is compared through
    [JSON.stringify]. *)
Inductive VerifyOutcome :=
| VerifyError
| VerifyNoUser
| VerifyUser (metadata : jsstring)
| VerifyThrows (e : AuthError).

(** [await supabase.auth.getSession()]: an error, no signed-in user, the
    user with its metadata (as [JSON.stringify] renders it), or a rejected
    promise. *)
Inductive SessionOutcome :=
| SessionError
| NoSessionUser
| Session (metadata : jsstring)
| SessionThrows (e : AuthError).

(** The identity provider: the session, what the [n]-th update call
    answers, and what the [k]-th verification after the [n]-th update
    answers.  The [updates] object handed to every update call is the same
    and is left to the provider. *)
Record Provider := {
  getSession : SessionOutcome;
  authUpdateUser : nat -> UpdateOutcome;
  getUser : nat -> nat -> VerifyOutcome
}.

Inductive Event :=
| UpdateCall (updateAttempts : nat)
| GetUserCall (verifyAttempt : nat)
| Sleep (ms : Z)
| SetUser (metadata : jsstring).

Record Result := { success : bool; error : option jsstring }.

(** Lines 278-313: [for (verifyAttempt = 1; verifyAttempt <= 3; ..)],
    over the remaining values of [verifyAttempt].  The second component
    is the error thrown out of the loop, if any. *)
Fixpoint verifyLoop (p : Provider) (attempt : nat) (current : jsstring)
         (verifyAttempts : list nat) : list Event * option AuthError :=
  match verifyAttempts with
  | [] => ([], None)
  | k :: rest =>
      match getUser p attempt k with
      | VerifyThrows e => ([GetUserCall k], Some e)
      | VerifyUser metadata =>
          if negb (Js.eqb metadata current)
          then ([GetUserCall k; SetUser metadata], None)
          else
            let '(evs, thrown) := verifyLoop p attempt current rest in
            (GetUserCall k :: evs, thrown)
      | VerifyError | VerifyNoUser =>
          let '(evs, thrown) := verifyLoop p attempt current rest in
          (GetUserCall k :: evs, thrown)
      end
  end.

(** Lines 339-342: after the loop. *)
Definition afterLoop (lastError : option AuthError) : Result :=
  {| success := false;
     error := Some (match lastError with
                    | Some e => message e
                    | None => Js.lit "All auth update attempts failed"
                    end) |}.

(** The pause before a retry, taken only while attempts remain. *)
Definition pause (updateAttempts : nat) : list Event :=
  if updateAttempts <? maxAttempts then [Sleep 1000] else [].

(** Lines 251-337: [while (updateAttempts < maxAttempts)], started from
    the current value of the counter. *)
Equations? retryLoop (p : Provider) (current : jsstring)
           (updateAttempts : nat) (lastError : option AuthError)
           (log : list Event)
  : Result * list Event
  by wf (maxAttempts - updateAttempts) lt :=
  retryLoop p current updateAttempts lastError log
    with lt_dec updateAttempts maxAttempts => {
    | right _ => (afterLoop lastError, log);
    | left _ with authUpdateUser p (S updateAttempts) => {
        | UpdateError e with lt_dec (S updateAttempts) maxAttempts => {
            | left _ =>
                retryLoop p current (S updateAttempts) (Some e)
                          (log ++ [UpdateCall (S updateAttempts);
                                   Sleep 1000]);
            | right _ =>
                (afterLoop (Some e),
                 log ++ [UpdateCall (S updateAttempts)]) };
        | UpdateThrows e =>
            retryLoop p current (S updateAttempts) (Some e)
                      (log ++ UpdateCall (S updateAttempts)
                           :: pause (S updateAttempts));
        | UpdateData false =>
            (afterLoop lastError, log ++ [UpdateCall (S updateAttempts)]);
        | UpdateData true
            with verifyLoop p (S updateAttempts) current [1; 2; 3] => {
            | (evs, None) =>
                ({| success := true; error := None |},
                 log ++ UpdateCall (S updateAttempts) :: evs);
            | (evs, Some e) =>
                retryLoop p current (S updateAttempts) (Some e)
                          (log ++ UpdateCall (S updateAttempts) :: evs
                               ++ pause (S updateAttempts)) } } }.
Proof.
  all: unfold maxAttempts in *;
    destruct updateAttempts as [|[|[|n]]]; cbn in *; lia.
Qed.

(** [updateUser]: the session checks, then the loop entered with
    [updateAttempts = 0] and [lastError = null]; the outer [catch] turns a
    rejected session call into a failure with its message. *)
Definition updateUser (p : Provider) : Result * list Event :=
  match getSession p with
  | SessionError =>
      ({| success := false;
          error := Some (Js.lit "Authentication session error") |}, [])
  | NoSessionUser =>
      ({| success := false;
          error := Some (Js.lit "No authenticated user") |}, [])
  | SessionThrows e => ({| success := false; error := Some (message e) |}, [])
  | Session current => retryLoop p current 0 None []
  end.

(** Number of calls to the remote auth update in a log. *)
Definition updateCalls (log : list Event) : list nat :=
  flat_map (fun e => match e with UpdateCall n => [n] | _ => [] end) log.

End Auth.

(* ===================================================================== *)
(** ** Reference notions the statements below are measured against *)
(* ===================================================================== *)

Module Spec.

(** [l'] is [l] with exactly the elements satisfying [P] taken out,
    everything else kept as it is and in order. *)
Inductive Purged {A} (P : A -> Prop) : list A -> list A -> Prop :=
| purged_nil : Purged P [] []
| purged_drop x l l' : P x -> Purged P l l' -> Purged P (x :: l) l'
| purged_keep x l l' :
    ~ P x -> Purged P l l' -> Purged P (x :: l) (x :: l').

(** [t] is [s] with every double quote (34), asterisk (42) and hash (35)
    removed. *)
Definition Stripped : jsstring -> jsstring -> Prop :=
  Purged (fun c => c = 34%N \/ c = 42%N \/ c = 35%N).

Definition blank (c : N) : Prop := Js.isWhiteSpace c = true.

(** [t] is [s] without the whitespace around it. *)
Definition Trimmed (s t : jsstring) : Prop :=
  (exists l r, s = l ++ t ++ r /\ Forall blank l /\ Forall blank r)
  /\ (forall c t', t = c :: t' -> ~ blank c)
  /\ (forall c t', t = t' ++ [c] -> ~ blank c).

(** The title made from a model text. *)
Definition TitleOf (text t : jsstring) : Prop :=
  exists s, Stripped text s /\ Trimmed s t.

(** A message id minted by [sendMessage]: that of a user message, or that
    of a placeholder made at a clock reading other than [now]. *)
Definition MintedApart (now : Z) (id : jsstring) : Prop :=
  exists t,
    id = Js.lit "msg-" ++ Js.numberToString t
    \/ (t <> now /\ id = Js.lit "msg-" ++ Js.numberToString t ++ Js.lit "-ai").

(** A title call that gives no usable text: rejected, or a response
    without text. *)
Definition NoTitle (o : Gemini.ContentOutcome) : Prop :=
  o = None \/ o = Some None.

(** A task completed more than seven days (in microseconds) before
    [now]. *)
Definition OldCompleted (now : Z) (r : Sql.ProjectRow) : Prop :=
  Sql.p_completed r = Some true /\
  exists t, Sql.p_completed_at r = Some t
            /\ (t < now - 7 * 24 * 3600 * 1000000)%Z.

(** The invariant of a task row: a completion time exactly when the task
    is completed. *)
Definition CompletedAtInv (r : Sql.ProjectRow) : Prop :=
  (exists b, Sql.p_completed r = Some b) /\
  (Sql.p_completed_at r <> None <-> Sql.p_completed r = Some true).

(** The error the [n]-th attempt of the auth update fails with, if it
    does: an error in the response, a rejected update call, or a rejected
    verification call after a successful update. *)
Definition attemptError (p : Auth.Provider) (current : jsstring) (n : nat)
  : option Auth.AuthError :=
  match Auth.authUpdateUser p n with
  | Auth.UpdateError e | Auth.UpdateThrows e => Some e
  | Auth.UpdateData true => snd (Auth.verifyLoop p n current [1; 2; 3])
  | Auth.UpdateData false => None
  end.

(** An UPDATE that assigns NULL to a column that cannot hold it.  (A NULL
    assigned to [updated_at] is replaced by the triggers.) *)
Definition AssignsNull (u : Sql.ProjectUpdate) : Prop :=
  Sql.set_id u = Some None \/ Sql.set_user_id u = Some None \/
  Sql.set_text u = Some None \/ Sql.set_completed u = Some None \/
  Sql.set_created_at u = Some None.

(** The value a column ends with: the one assigned, or the old one. *)
Definition chosen {A} (a : option (option A)) (old : A) : A :=
  match a with
  | Some (Some v) => v
  | _ => old
  end.

(** A file record past its expiry at [now]. *)
Definition Expired (now : Z) (r : Sql.FileRow) : Prop :=
  (Sql.f_expires_at r < now)%Z.

(** Rows of this owner are within reach of the invoker: of any owner for
    a privileged role, of the signed-in user for the API. *)
Definition Own (who : Sql.Invoker) (user_id : jsstring) : Prop :=
  who = Sql.Privileged \/ who = Sql.Authenticated user_id.

(** A name in the folder of the invoker: the id of the signed-in user, a
    slash, and the rest; any name for a privileged role. *)
Definition InOwnFolder (who : Sql.Invoker) (name : jsstring) : Prop :=
  who = Sql.Privileged \/
  exists uid rest,
    who = Sql.Authenticated uid /\ ~ In 47%N uid /\
    name = uid ++ 47%N :: rest.

(** A stored object the cleanup run by [who] takes away: one of the
    user-files bucket, in the folder of the invoker, named by an expired
    record within the invoker's reach. *)
Definition CleanedObject (who : Sql.Invoker) (now : Z)
           (rows : list Sql.FileRow) (o : Sql.StorageObject) : Prop :=
  Sql.bucket_id o = Sql.USER_FILES /\
  InOwnFolder who (Sql.name o) /\
  exists r, In r rows /\ Own who (Sql.f_user_id r) /\ Expired now r
            /\ Sql.f_file_path r = Sql.name o.

(** A stored object of the user-files bucket named by an expired
    record. *)
Definition ExpiredObject (now : Z) (rows : list Sql.FileRow)
           (o : Sql.StorageObject) : Prop :=
  Sql.bucket_id o = Sql.USER_FILES /\
  exists r, In r rows /\ Expired now r /\ Sql.f_file_path r = Sql.name o.

End Spec.

(* ===================================================================== *)
(** ** Concrete inputs used to exercise the statements below *)
(* ===================================================================== *)

Module Examples.
Import Gemini Chat.

Definition ada : User :=
  {| user_id := Js.lit "u1";
     user_name := Js.lit "Ada";
     user_surname := Js.lit "Lovelace";
     user_email := Js.lit "ada@example.org" |}.

(** The primary model streams two chunks; the backup is down; the title
    call answers with a quoted, padded title. *)
Definition helloApi : Api :=
  {| generateContentStream :=
       fun model _ =>
         if Js.eqb model PRIMARY_MODEL
         then Streamed [Js.lit "Hel"; Js.lit "lo"] true
         else CallRejected;
     generateContent :=
       fun _ _ => Some (Some ([32; 34] ++ Js.lit "# Greeting" ++ [34; 10])%N)
  |}.

(** The primary model is down for both kinds of call; the backup streams
    one chunk and answers title calls. *)
Definition backupApi : Api :=
  {| generateContentStream :=
       fun model _ =>
         if Js.eqb model BACKUP_MODEL
         then Streamed [Js.lit "Hi"] true
         else CallRejected;
     generateContent :=
       fun model _ =>
         if Js.eqb model BACKUP_MODEL
         then Some (Some (Js.lit "*Plan* "))
         else None |}.

(** Every model call is rejected. *)
Definition downApi : Api :=
  {| generateContentStream := fun _ _ => CallRejected;
     generateContent := fun _ _ => None |}.

Definition params0 : GenerateContentParams :=
  {| prompt := Js.lit "Hi";
     image := None;
     user := Some ada;
     conversationHistory := [] |}.

Definition oldMessage : Message :=
  {| msg_id := Js.lit "msg-1-ai";
     msg_sender := AI;
     msg_text := Js.lit "Welcome";
     msg_image := None;
     msg_timestamp := 1 |}.

Definition conv1 : Conversation :=
  {| conv_id := Js.lit "c1";
     conv_title := Js.lit "Greetings";
     conv_messages := [oldMessage];
     conv_createdAt := 1 |}.

Definition conv2 : Conversation :=
  {| conv_id := Js.lit "c2";
     conv_title := Js.lit "Other";
     conv_messages := [];
     conv_createdAt := 2 |}.

Definition st1 : ChatState :=
  {| conversations := [conv2; conv1];
     activeConversationId := Some (Js.lit "c1");
     isLoading := false;
     effects := [] |}.

Definition st0 : ChatState :=
  {| conversations := [conv1];
     activeConversationId := None;
     isLoading := false;
     effects := [] |}.

Definition envOf (a : Api) : Env :=
  {| api := a;
     now_msg := 1000;
     now_msg_ts := 1000;
     uuid := Js.lit "c9";
     now_conv := 1000;
     now_ai := 1001;
     now_ai_ts := 1001;
     now_fallback := 1001;
     fetched := None;
     closureConversations := [conv2; conv1] |}.

(** Task rows: one completed long ago, one completed yesterday, one
    open; the clock stands at day 9. *)
Definition day : Z := 24 * 3600 * 1000000.

Definition taskRow (id : string) (completed : bool)
           (completed_at : option Z) : Sql.ProjectRow :=
  {| Sql.p_id := Js.lit id;
     Sql.p_user_id := Js.lit "u1";
     Sql.p_text := Js.lit "call the clinic";
     Sql.p_completed := Some completed;
     Sql.p_created_at := 0;
     Sql.p_updated_at := 0;
     Sql.p_completed_at := completed_at |}.

Definition taskOld : Sql.ProjectRow := taskRow "t1" true (Some day).
Definition taskRecent : Sql.ProjectRow :=
  taskRow "t2" true (Some (8 * day)%Z).
Definition taskOpen : Sql.ProjectRow := taskRow "t3" false None.

Definition projects0 : list Sql.ProjectRow :=
  [taskOld; taskRecent; taskOpen].

(** Two file records, the first past its expiry at instant 100. *)
Definition fileRow (id path : string) (expires_at : Z) : Sql.FileRow :=
  {| Sql.f_id := Js.lit id;
     Sql.f_user_id := Js.lit "u1";
     Sql.f_name := Js.lit "scan.png";
     Sql.f_type := Js.lit "image/png";
     Sql.f_size := 10;
     Sql.f_file_path := Js.lit path;
     Sql.f_expires_at := expires_at;
     Sql.f_created_at := 0 |}.

Definition db0 : Sql.Database :=
  {| Sql.files := [fileRow "f1" "u1/a.png" 50; fileRow "f2" "u1/b.png" 150];
     Sql.objects :=
       [ {| Sql.bucket_id := Sql.USER_FILES; Sql.name := Js.lit "u1/a.png" |};
         {| Sql.bucket_id := Sql.USER_FILES; Sql.name := Js.lit "u1/b.png" |};
         {| Sql.bucket_id := Js.lit "avatars";
            Sql.name := Js.lit "u1/a.png" |} ] |}.

Definition upload0 : Files.Upload :=
  {| Files.up_name := Js.lit "scan.v2.png";
     Files.up_type := Js.lit "image/png";
     Files.up_size := 10 |}.

Definition filesEnv : Files.Env :=
  {| Files.nowName := 1000;
     Files.random := Js.lit "k3x";
     Files.nowExpiry := 1005;
     Files.uploadOk := true;
     Files.inserted := Some (Js.lit "f3", 1006000%Z) |}.

Definition world0 : Files.World :=
  {| Files.localFiles := []; Files.isLoading := false; Files.db := db0 |}.

(** A task list with one open task. *)
Definition task1 : Projects.ProjectTask :=
  {| Projects.task_id := Js.lit "t1";
     Projects.task_text := Js.lit "call the clinic";
     Projects.task_completed := false;
     Projects.task_createdAt := 5 |}.

Definition local0 : Projects.Local :=
  {| Projects.tasks := [task1]; Projects.events := [] |}.

(** An identity provider with a session that answers every update attempt
    with an error. *)
Definition failingProvider : Auth.Provider :=
  {| Auth.getSession := Auth.Session (Js.lit "{}");
     Auth.authUpdateUser :=
       fun n => Auth.UpdateError
                  {| Auth.message :=
                       Js.lit "rate limit " ++ Js.numberToString (Z.of_nat n) |};
     Auth.getUser := fun _ _ => Auth.VerifyError |}.

End Examples.

(* ===================================================================== *)
(** ** hooks/useChat.ts: the other operations of the provider *)
(* ===================================================================== *)

Module ChatOps.
Import Gemini Chat.

(** How an awaited store call ends: without error, with an error in the
    response, or with a rejected promise. *)
Inductive Outcome := Ok | Error | Throws.

(** [saveConversationToDB], lines 99-101: the name stored with a chat. *)
Definition fullName (u : User) : jsstring :=
  let name := Js.trim (user_name u) in
  let surname := Js.trim (user_surname u) in
  if Js.truthy name && Js.truthy surname then name ++ [32%N] ++ surname
  else if Js.truthy name then name
  else if Js.truthy surname then surname
  else Js.lit "User".

(** The conversation made of a fetched row; [chat.messages || []]. *)
Definition ofRow (chat : ChatRow) : Conversation :=
  {| conv_id := row_id chat;
     conv_title := row_title chat;
     conv_messages :=
       match row_messages chat with
       | Some ms => ms
       | None => []
       end;
     conv_createdAt := row_created_at chat |}.

(** [loadConversations]; [data] is what the select returned, [None] on an
    error or an exception. *)
Definition loadConversations (user : option User)
           (data : option (list ChatRow)) (st : ChatState) : ChatState :=
  match user with
  | None => setActiveConversationId None (setConversations (fun _ => []) st)
  | Some _ =>
      match data with
      | None => st
      | Some rows => setConversations (fun _ => map ofRow rows) st
      end
  end.

(** [startNewChat]: both branches clear the active id. *)
Definition startNewChat (st : ChatState) : ChatState :=
  setActiveConversationId None st.

(** [selectConversation] *)
Definition selectConversation (user : option User)
           (fetched : option ChatRow) (id : jsstring) (st : ChatState)
  : ChatState :=
  refreshConversationFromDB user fetched id
                            (setActiveConversationId (Some id) st).

(** [deleteConversation]: the list and the active id are touched only after
    the store has deleted the chat without error. *)
Definition deleteConversation (user : option User) (outcome : Outcome)
           (id : jsstring) (st : ChatState) : ChatState :=
  match user with
  | None => st
  | Some _ =>
      match outcome with
      | Error | Throws => st
      | Ok =>
          let st' :=
            setConversations
              (filter (fun c => negb (Js.eqb (conv_id c) id))) st in
          if optionEqb id (activeConversationId st)
          then setActiveConversationId None st'
          else st'
      end
  end.

(** [renameConversation] *)
Definition renameConversation (user : option User) (id newTitle : jsstring)
           (st : ChatState) : ChatState :=
  updateConversation user id (setTitle newTitle) st.

(** [handleSave] of a sidebar history item: [title] is the text of the
    input, [conversation] the item being edited. *)
Definition handleSave (user : option User) (conversation : Conversation)
           (title : jsstring) (st : ChatState) : ChatState :=
  if Js.truthy (Js.trim title)
     && negb (Js.eqb (Js.trim title) (conv_title conversation))
  then renameConversation user (conv_id conversation) (Js.trim title) st
  else st.

(** *** The chats table behind the save requests

    [upsert(chatData, { onConflict: 'id' })] replaces the title and the
    messages of the row with that id and leaves its [created_at]; without
    such a row it inserts one, stamped with the server time. *)
Fixpoint upsertChat (serverNow : Z) (c : Conversation) (rows : list ChatRow)
  : list ChatRow :=
  match rows with
  | [] => [ {| row_id := conv_id c;
               row_title := conv_title c;
               row_messages := Some (conv_messages c);
               row_created_at := serverNow |} ]
  | r :: rest =>
      if Js.eqb (row_id r) (conv_id c)
      then {| row_id := row_id r;
              row_title := conv_title c;
              row_messages := Some (conv_messages c);
              row_created_at := row_created_at r |} :: rest
      else r :: upsertChat serverNow c rest
  end.

(** The table after the save requests of a log have been served in
    order. *)
Definition replay (serverNow : Z) (es : list Effect) (rows : list ChatRow)
  : list ChatRow :=
  fold_left (fun rows e =>
               match e with
               | Upsert c => upsertChat serverNow c rows
               | _ => rows
               end)
            es rows.

(** [select('*').eq('id', id).single()]: the row, when exactly one has the
    id. *)
Definition selectChat (id : jsstring) (rows : list ChatRow)
  : option ChatRow :=
  match filter (fun r => Js.eqb (row_id r) id) rows with
  | [r] => Some r
  | _ => None
  end.

(** The row of conversation [cid], whatever the table held before the log
    of [st] was served, carries the title and the messages of [c]. *)
Definition Saved (now : Z) (cid : jsstring) (st : ChatState)
           (c : Conversation) : Prop :=
  forall rows0,
    NoDup (map row_id rows0) ->
    exists row,
      selectChat cid (replay now (effects st) rows0) = Some row /\
      row_id row = cid /\
      row_title row = conv_title c /\
      row_messages row = Some (conv_messages c).

End ChatOps.

From Stdlib Require Import Permutation Sorted.

(* ===================================================================== *)
(** ** components/projects/ProjectsView.tsx: the two task sections *)
(* ===================================================================== *)

Module ProjectsView.
Import Projects.

(** [sort((a, b) => b.createdAt - a.createdAt)].  The sort is stable, so
    its result does not depend on the method; it is written here as an
    insertion from the right: [a] goes in front of the first [b] for which
    the comparator is not positive. *)
Fixpoint insertTask (a : ProjectTask) (l : list ProjectTask)
  : list ProjectTask :=
  match l with
  | [] => [a]
  | b :: r =>
      if (task_createdAt b - task_createdAt a <=? 0)%Z
      then a :: b :: r
      else b :: insertTask a r
  end.

Definition sortTasks (l : list ProjectTask) : list ProjectTask :=
  fold_right insertTask [] l.

Definition pendingTasks (tasks : list ProjectTask) : list ProjectTask :=
  sortTasks (filter (fun t => negb (task_completed t)) tasks).

Definition completedTasks (tasks : list ProjectTask) : list ProjectTask :=
  sortTasks (filter (fun t => task_completed t) tasks).

End ProjectsView.

(* ===================================================================== *)
(** ** hooks/useFiles: loading and deleting *)
(* ===================================================================== *)

Module FilesOps.
Import Sql Files.

(** [order('created_at', { ascending: false })]; the order among rows
    created at the same instant is not fixed by the database, and nothing
    below depends on it. *)
Fixpoint insertRow (a : FileRow) (l : list FileRow) : list FileRow :=
  match l with
  | [] => [a]
  | b :: r =>
      if (f_created_at b <=? f_created_at a)%Z
      then a :: b :: r
      else b :: insertRow a r
  end.

Definition orderRows (l : list FileRow) : list FileRow :=
  fold_right insertRow [] l.

(** What [loadFiles] meets outside: the database clock when the cleanup
    runs (microseconds), the browser clock (milliseconds), which the
    filter reads anew for every row, [clientNow k] being the reading for
    the row at position [k], and whether the two requests went
    through. *)
Record LoadEnv := {
  serverNow : Z;
  clientNow : nat -> Z;
  rpcOk : bool;
  selectOk : bool
}.

Definition format (file : FileRow) : StoredFile :=
  {| sf_id := f_id file;
     sf_name := f_name file;
     sf_type := f_type file;
     sf_size := f_size file;
     sf_base64 := [];
     sf_expiresAt := getTime (f_expires_at file) |}.

(** [data.filter(f => new Date(f.expires_at) > new Date())], the rows
    counted from [k]. *)
Fixpoint stillValid (clock : nat -> Z) (k : nat) (data : list FileRow)
  : list FileRow :=
  match data with
  | [] => []
  | f :: rest =>
      if (clock k <? getTime (f_expires_at f))%Z
      then f :: stillValid clock (S k) rest
      else stillValid clock (S k) rest
  end.

(** [loadFiles]: the cleanup call, made as the signed-in user and whose
    result is not looked at, then the select, which row-level security
    restricts to the rows of the user. *)
Definition loadFiles (env : LoadEnv) (user : option User) (w : World)
  : World :=
  match user with
  | None =>
      {| localFiles := []; isLoading := isLoading w; db := db w |}
  | Some u =>
      let d :=
        if rpcOk env
        then cleanup_expired_files (Authenticated (user_id u))
                                   (serverNow env) (db w)
        else db w in
      if negb (selectOk env) then
        {| localFiles := localFiles w; isLoading := false; db := d |}
      else
        let data :=
          orderRows (filter (fun r => owns (Authenticated (user_id u))
                                           (f_user_id r))
                            (files d)) in
        let stillValidFiles := stillValid (clientNow env) 0 data in
        {| localFiles := map format stillValidFiles;
           isLoading := false;
           db := d |}
  end.

(** How the three requests of [deleteFile] end. *)
Record DeleteEnv := {
  fetchOk : bool;
  storageOk : bool;
  dbOk : bool
}.

(** [select('file_path').eq('id', id).single()] *)
Definition selectPath (id : jsstring) (rows : list FileRow)
  : option jsstring :=
  match filter (fun r => Js.eqb (f_id r) id) rows with
  | [r] => Some (f_file_path r)
  | _ => None
  end.

(** [deleteFile] of the provider. *)
Definition deleteFile (env : DeleteEnv) (user : option User)
           (id : jsstring) (w : World) : World :=
  match user with
  | None => w
  | Some _ =>
      match find (fun f => Js.eqb (sf_id f) id) (localFiles w) with
      | None =>
          {| localFiles := localFiles w; isLoading := false; db := db w |}
      | Some _ =>
          match (if fetchOk env then selectPath id (files (db w))
                 else None) with
          | None =>
              {| localFiles := localFiles w; isLoading := false;
                 db := db w |}
          | Some file_path =>
              let objects' :=
                if storageOk env then
                  filter (fun o => negb (Js.eqb (bucket_id o) USER_FILES
                                         && Js.eqb (name o) file_path))
                         (objects (db w))
                else objects (db w) in
              if dbOk env then
                {| localFiles :=
                     filter (fun f => negb (Js.eqb (sf_id f) id))
                            (localFiles w);
                   isLoading := false;
                   db := {| files :=
                              filter (fun r => negb (Js.eqb (f_id r) id))
                                     (files (db w));
                            objects := objects' |} |}
              else
                {| localFiles := localFiles w;
                   isLoading := false;
                   db := {| files := files (db w); objects := objects' |} |}
          end
      end
  end.

Definition withBase64 (base64 : jsstring) (f : StoredFile) : StoredFile :=
  {| sf_id := sf_id f;
     sf_name := sf_name f;
     sf_type := sf_type f;
     sf_size := sf_size f;
     sf_base64 := base64;
     sf_expiresAt := sf_expiresAt f |}.

(** [getFileBase64], with [loadFileBase64] inlined: [download path] is the
    base64 part of the data URL read from the downloaded object, [None]
    when the download fails, which [loadFileBase64] turns into the empty
    string.  The result is the string returned. *)
Definition getFileBase64 (fetchOk : bool)
           (download : jsstring -> option jsstring) (fileId : jsstring)
           (w : World) : jsstring * World :=
  match find (fun f => Js.eqb (sf_id f) fileId) (localFiles w) with
  | None => ([], w)
  | Some file =>
      if Js.truthy (sf_base64 file) then (sf_base64 file, w)
      else
        match (if fetchOk then selectPath fileId (files (db w))
               else None) with
        | None => ([], w)
        | Some file_path =>
            let base64 :=
              match download file_path with
              | Some b => b
              | None => []
              end in
            (base64,
             {| localFiles :=
                  map (fun f => if Js.eqb (sf_id f) fileId
                                then withBase64 base64 f else f)
                      (localFiles w);
                isLoading := isLoading w;
                db := db w |})
        end
  end.

End FilesOps.

(* ===================================================================== *)
(** ** hooks/useProjects: loading *)
(* ===================================================================== *)

Module ProjectsOps.
Import Sql Projects.

(** [order('created_at', { ascending: false })] *)
Fixpoint insertProject (a : ProjectRow) (l : list ProjectRow)
  : list ProjectRow :=
  match l with
  | [] => [a]
  | b :: r =>
      if (p_created_at b <=? p_created_at a)%Z
      then a :: b :: r
      else b :: insertProject a r
  end.

Definition orderProjects (l : list ProjectRow) : list ProjectRow :=
  fold_right insertProject [] l.

(** The column [completed] is NOT NULL, so the [None] case is never
    met. *)
Definition formatTask (task : ProjectRow) : ProjectTask :=
  {| task_id := p_id task;
     task_text := p_text task;
     task_completed :=
       match p_completed task with Some b => b | None => false end;
     task_createdAt := Files.getTime (p_created_at task) |}.

(** [loadTasks]: the task list it leaves, given the table and whether the
    select went through. *)
Definition loadTasks (user : option User) (selectOk : bool)
           (table : list ProjectRow) (tasks0 : list ProjectTask)
  : list ProjectTask :=
  match user with
  | None => []
  | Some u =>
      if negb selectOk then tasks0
      else map formatTask
               (orderProjects
                  (filter (fun r => Js.eqb (p_user_id r) (user_id u))
                          table))
  end.

End ProjectsOps.

(* ===================================================================== *)
(** ** hooks/useAuth.ts: login, signup, logout *)
(* ===================================================================== *)

Module AuthOps.
Import Auth.

(** The user object of the identity provider, as far as it is read. *)
Record SupabaseUser := {
  su_id : jsstring;
  su_email : option jsstring;
  su_name : option jsstring;
  su_surname : option jsstring;
  su_confirmed : bool
}.

(** [x || ''] *)
Definition orEmpty (x : option jsstring) : jsstring :=
  match x with Some s => s | None => [] end.

(** [formatUserFromSupabase] *)
Definition formatUserFromSupabase (s : SupabaseUser) : User :=
  {| user_id := su_id s;
     user_name := orEmpty (su_name s);
     user_surname := orEmpty (su_surname s);
     user_email := orEmpty (su_email s) |}.

Record AuthState := {
  user : option User;
  loading : bool;
  authError : option jsstring
}.

(** An awaited auth call: an error in the response, data with or without
    a user, or a rejected promise, whose reason is an [Error] with a
    message or something else. *)
Inductive CallOutcome :=
| CallError (e : AuthError)
| CallData (u : option SupabaseUser)
| CallThrows (reason : option AuthError).

Definition thrownMessage (fallback : string) (reason : option AuthError)
  : jsstring :=
  match reason with
  | Some e => message e
  | None => Js.lit fallback
  end.

Definition failed (msg : jsstring) (keep : option User)
  : AuthState * Result :=
  ({| user := keep; loading := false; authError := Some msg |},
   {| success := false; error := Some msg |}).

(** [login] *)
Definition login (outcome : CallOutcome) (st : AuthState)
  : AuthState * Result :=
  match outcome with
  | CallError e => failed (message e) (user st)
  | CallData u =>
      ({| user := match u with
                  | Some s => Some (formatUserFromSupabase s)
                  | None => user st
                  end;
          loading := false;
          authError := None |},
       {| success := true; error := None |})
  | CallThrows reason =>
      failed (thrownMessage "An unexpected error occurred" reason) (user st)
  end.

Definition CONFIRM_EMAIL : jsstring :=
  Js.lit "Please check your email and confirm your account before signing in.".

(** [signup] *)
Definition signup (outcome : CallOutcome) (st : AuthState)
  : AuthState * Result :=
  match outcome with
  | CallError e => failed (message e) (user st)
  | CallData u =>
      match u with
      | Some s =>
          if negb (su_confirmed s) then failed CONFIRM_EMAIL (user st)
          else ({| user := user st; loading := false; authError := None |},
                {| success := true; error := None |})
      | None =>
          ({| user := user st; loading := false; authError := None |},
           {| success := true; error := None |})
      end
  | CallThrows reason =>
      failed (thrownMessage "An unexpected error occurred" reason) (user st)
  end.

(** [logout]; the sign-out call gives no data. *)
Definition logout (outcome : CallOutcome) (st : AuthState)
  : AuthState * Result :=
  match outcome with
  | CallError e => failed (message e) (user st)
  | CallData _ =>
      ({| user := None; loading := false; authError := None |},
       {| success := true; error := None |})
  | CallThrows reason =>
      failed (thrownMessage "An unexpected error occurred during logout"
                            reason)
             (user st)
  end.

(** Counting in the log of [updateUser]. *)
Definition sleeps (log : list Event) : nat :=
  length (filter (fun e => match e with Sleep _ => true | _ => false end)
                 log).

Definition userSets (log : list Event) : nat :=
  length (filter (fun e => match e with SetUser _ => true | _ => false end)
                 log).

Definition verifications (log : list Event) : nat :=
  length (filter (fun e => match e with
                           | GetUserCall _ => true
                           | _ => false
                           end)
                 log).

End AuthOps.

(* ===================================================================== *)
(** ** components/chat/ChatInput.tsx: what may be attached *)
(* ===================================================================== *)

Module ChatInput.

Definition MAX_FILE_SIZE : Z := 10 * 1024 * 1024.
Definition MAX_IMAGE_SIZE : Z := 5 * 1024 * 1024.

(** [s.startsWith(p)] *)
Fixpoint startsWith (p s : jsstring) : bool :=
  match p, s with
  | [], _ => true
  | x :: p', y :: s' => N.eqb x y && startsWith p' s'
  | _ :: _, [] => false
  end.

Definition supportedMimes : list jsstring :=
  [ Js.lit "image/jpeg"; Js.lit "image/png"; Js.lit "image/gif";
    Js.lit "image/webp"; Js.lit "image/svg+xml";
    Js.lit "application/pdf";
    Js.lit "application/msword";
    Js.lit "application/vnd.openxmlformats-officedocument.wordprocessingml.document";
    Js.lit "application/vnd.ms-excel";
    Js.lit "application/vnd.openxmlformats-officedocument.spreadsheetml.sheet";
    Js.lit "application/vnd.ms-powerpoint";
    Js.lit "application/vnd.openxmlformats-officedocument.presentationml.presentation";
    Js.lit "text/plain"; Js.lit "text/csv"; Js.lit "application/json";
    Js.lit "application/zip"; Js.lit "application/x-rar-compressed" ].

(** [supportedMimes.includes(file.type)] *)
Definition isFileSupported (type : jsstring) : bool :=
  existsb (Js.eqb type) supportedMimes.

(** [validateFile]: the error shown, [None] for a valid file. *)
Definition validateFile (type : jsstring) (size : Z) : option jsstring :=
  let image := startsWith (Js.lit "image/") type in
  let maxSize := if image then MAX_IMAGE_SIZE else MAX_FILE_SIZE in
  if (maxSize <? size)%Z then
    Some (Js.lit "File size must be less than "
          ++ Js.numberToString (maxSize / (1024 * 1024))
          ++ Js.lit "MB for "
          ++ (if image then Js.lit "images" else Js.lit "files")
          ++ Js.lit ".")
  else if negb (isFileSupported type) then
    Some (Js.lit "File type not supported. Supported types: images, PDFs, documents, text files, and archives.")
  else None.

End ChatInput.


(* ===================================================================== *)
(** ** Further sample data *)
(* ===================================================================== *)

Module MoreExamples.
Import Examples.

(** The title call answers with markup and blanks only. *)
Definition markupApi : Gemini.Api :=
  {| Gemini.generateContentStream := fun _ _ => Gemini.CallRejected;
     Gemini.generateContent :=
       fun _ _ => Some (Some ([32; 34; 42; 35; 34; 10])%N) |}.

(** What the insert of a task answers. *)
Definition saved1 : Projects.SavedTask :=
  {| Projects.saved_id := Js.lit "t9";
     Projects.saved_text := Js.lit "book the flight";
     Projects.saved_completed := false;
     Projects.saved_created_at := 7 |}.

(** A second task, completed and newer than [task1]. *)
Definition task2 : Projects.ProjectTask :=
  {| Projects.task_id := Js.lit "t2";
     Projects.task_text := Js.lit "send the report";
     Projects.task_completed := true;
     Projects.task_createdAt := 9 |}.

(** Both clocks stand after the expiry of the first record of [db0] and
    before the expiry of an upload made under [filesEnv]. *)
Definition loadEnv : FilesOps.LoadEnv :=
  {| FilesOps.serverNow := 100;
     FilesOps.clientNow := fun _ => 2000%Z;
     FilesOps.rpcOk := true;
     FilesOps.selectOk := true |}.

Definition deleteEnv : FilesOps.DeleteEnv :=
  {| FilesOps.fetchOk := true;
     FilesOps.storageOk := true;
     FilesOps.dbOk := true |}.

(** The second record of [db0] is listed locally. *)
Definition world1 : Files.World :=
  {| Files.localFiles := [FilesOps.format (fileRow "f2" "u1/b.png" 150)];
     Files.isLoading := false;
     Files.db := db0 |}.

(** A record of another user, past its expiry at instant 100, and the
    database of [db0] holding it too, with the object it names. *)
Definition otherRow : Sql.FileRow :=
  {| Sql.f_id := Js.lit "f9";
     Sql.f_user_id := Js.lit "u2";
     Sql.f_name := Js.lit "notes.txt";
     Sql.f_type := Js.lit "text/plain";
     Sql.f_size := 3;
     Sql.f_file_path := Js.lit "u2/n.txt";
     Sql.f_expires_at := 40;
     Sql.f_created_at := 0 |}.

Definition dbShared : Sql.Database :=
  {| Sql.files := otherRow :: Sql.files db0;
     Sql.objects :=
       {| Sql.bucket_id := Sql.USER_FILES; Sql.name := Js.lit "u2/n.txt" |}
       :: Sql.objects db0 |}.

(** The second record of [db0] is listed locally, the database holding
    the record of the other user too. *)
Definition worldShared : Files.World :=
  {| Files.localFiles := [FilesOps.format (fileRow "f2" "u1/b.png" 150)];
     Files.isLoading := false;
     Files.db := dbShared |}.

(** An update answered with data but no user. *)
Definition noUserProvider : Auth.Provider :=
  {| Auth.getSession := Auth.Session (Js.lit "{}");
     Auth.authUpdateUser := fun _ => Auth.UpdateData false;
     Auth.getUser := fun _ _ => Auth.VerifyNoUser |}.

(** An update answered with a user, after which the metadata read back
    never differ from those of the session. *)
Definition unchangedProvider : Auth.Provider :=
  {| Auth.getSession := Auth.Session (Js.lit "{}");
     Auth.authUpdateUser := fun _ => Auth.UpdateData true;
     Auth.getUser := fun _ k => if Nat.eqb k 2 then Auth.VerifyError
                                else Auth.VerifyUser (Js.lit "{}") |}.

(** A new account whose address is not confirmed yet. *)
Definition newAccount : AuthOps.SupabaseUser :=
  {| AuthOps.su_id := Js.lit "u2";
     AuthOps.su_email := Some (Js.lit "grace@example.org");
     AuthOps.su_name := Some (Js.lit "Grace");
     AuthOps.su_surname := None;
     AuthOps.su_confirmed := false |}.

Definition signedIn : AuthOps.AuthState :=
  {| AuthOps.user := Some ada;
     AuthOps.loading := false;
     AuthOps.authError := None |}.

End MoreExamples.
(* ===================================================================== *)
(** * Properties *)
(* ===================================================================== *)

(** ** Strings *)

Lemma js_eqb_eq (a b : jsstring) : Js.eqb a b = true <-> a = b.
Proof.
  revert b; induction a as [|x a IH]; intros [|y b]; simpl;
    try (split; [discriminate | discriminate]); try tauto.
  rewrite andb_true_iff, N.eqb_eq, IH.
  split; [intros [-> ->]; reflexivity | intros H; inversion H; auto].
Qed.

Lemma js_eqb_refl (a : jsstring) : Js.eqb a a = true.
Proof. apply js_eqb_eq; reflexivity. Qed.

Lemma js_eqb_neq (a b : jsstring) : Js.eqb a b = false <-> a <> b.
Proof.
  rewrite <- js_eqb_eq. destruct (Js.eqb a b); split; congruence.
Qed.

Lemma last_Forall {A} (P : A -> Prop) (l : list A) (d : A) :
  Forall P l -> P d -> P (last l d).
Proof.
  induction 1 as [|x l Hx Hl IH]; intros Hd; simpl; auto.
  destruct l; auto.
Qed.

Lemma uintUnits_digits (d : Decimal.uint) :
  Forall (fun c => c <> 105%N) (Js.uintUnits d).
Proof.
  induction d; simpl; constructor; auto; discriminate.
Qed.

Lemma numberToString_last (z : Z) : last (Js.numberToString z) 0%N <> 105%N.
Proof.
  unfold Js.numberToString.
  destruct (Z.to_int z) as [d|d];
    apply (last_Forall (fun c => c <> 105%N));
    try constructor; try apply uintUnits_digits; discriminate.
Qed.

(** ** Lists *)

(** A filter removes exactly the elements its test rejects. *)
Lemma filter_Purged {A} (P : A -> Prop) (f : A -> bool) (l : list A) :
  (forall x, In x l -> (f x = false <-> P x)) ->
  Spec.Purged P l (filter f l).
Proof.
  induction l as [|x l IH]; intros H; simpl; [constructor|].
  assert (Hl : forall y, In y l -> (f y = false <-> P y))
    by (intros y Hy; apply H; right; exact Hy).
  destruct (f x) eqn:E.
  - apply Spec.purged_keep; [|auto].
    intros Hp. apply (H x (or_introl eq_refl)) in Hp. congruence.
  - apply Spec.purged_drop; [|auto]. apply (H x (or_introl eq_refl)), E.
Qed.

Lemma Purged_In {A} {P : A -> Prop} {l l' : list A} :
  Spec.Purged P l l' -> forall x, In x l' <-> In x l /\ ~ P x.
Proof.
  induction 1 as [|x l l' Hp _ IH|x l l' Hp _ IH]; intros y; simpl.
  - tauto.
  - rewrite IH. split; [tauto|]. intros [[->|Hy] Hn]; tauto.
  - rewrite IH. split; [intros [->|[? ?]]; tauto | tauto].
Qed.

Lemma Purged_unique {A} {P : A -> Prop} {l a b : list A} :
  Spec.Purged P l a -> Spec.Purged P l b -> a = b.
Proof.
  intros Ha. revert b.
  induction Ha as [|x l a Hp _ IH|x l a Hp _ IH]; intros b Hb;
    inversion Hb; subst; try tauto; auto.
  f_equal; auto.
Qed.

Lemma Purged_iff {A} (P Q : A -> Prop) (l l' : list A) :
  (forall x, P x <-> Q x) -> Spec.Purged P l l' -> Spec.Purged Q l l'.
Proof.
  intros H. induction 1 as [|x l l' Hp _ IH|x l l' Hp _ IH].
  - constructor.
  - apply Spec.purged_drop; [apply H; exact Hp | exact IH].
  - apply Spec.purged_keep; [rewrite <- H; exact Hp | exact IH].
Qed.

Lemma uintUnits_range (d : Decimal.uint) :
  Forall (fun c => (48 <= c <= 57)%N) (Js.uintUnits d).
Proof. induction d; simpl; constructor; auto; lia. Qed.

Lemma uintUnits_inj (a b : Decimal.uint) :
  Js.uintUnits a = Js.uintUnits b -> a = b.
Proof.
  revert b; induction a; intros b; destruct b; simpl; intros H;
    try discriminate; try reflexivity;
    injection H as H; f_equal; auto.
Qed.

(** Distinct integers print differently. *)
Lemma numberToString_inj (a b : Z) :
  Js.numberToString a = Js.numberToString b -> a = b.
Proof.
  unfold Js.numberToString. intros H.
  rewrite <- (DecimalZ.of_to a), <- (DecimalZ.of_to b).
  destruct (Z.to_int a) as [x|x], (Z.to_int b) as [y|y].
  - apply uintUnits_inj in H. congruence.
  - exfalso. pose proof (uintUnits_range x) as R. rewrite H in R.
    inversion R; subst. lia.
  - exfalso. pose proof (uintUnits_range y) as R. rewrite <- H in R.
    inversion R; subst. lia.
  - injection H as H. apply uintUnits_inj in H. congruence.
Qed.

(** ** hooks/useChat.ts *)

Section ChatFacts.
Import Gemini Chat.

(** A user message id never collides with the placeholder id built in
    the same call: only the latter ends in the letter i. *)
Lemma userMessage_id_fresh (env : Env) (text : jsstring)
      (img : option jsstring) :
  msg_id (userMessageOf env text img) <> aiMessageId env.
Proof.
  unfold userMessageOf, aiMessageId. cbn [msg_id]. intros H.
  apply app_inv_head in H.
  apply (numberToString_last (now_msg env)).
  rewrite H.
  change (Js.lit "-ai") with ([45; 97] ++ [105])%N.
  rewrite app_assoc. apply last_last.
Qed.

(** Ids minted by [sendMessage] at other clock readings never collide with
    the placeholder id of this call. *)
Lemma minted_apart_fresh (env : Env) (ms : list Message) :
  Forall (fun m => Spec.MintedApart (now_ai env) (msg_id m)) ms ->
  Forall (fun m => msg_id m <> aiMessageId env) ms.
Proof.
  apply Forall_impl. intros m (t & [E | [Ht E]]) H; rewrite E in H;
    unfold aiMessageId in H; apply app_inv_head in H.
  - apply (numberToString_last t). rewrite H.
    change (Js.lit "-ai") with ([45; 97] ++ [105])%N.
    rewrite app_assoc. apply last_last.
  - apply app_inv_tail in H. apply numberToString_inj in H. contradiction.
Qed.

Lemma updateConversation_conversations u id f st :
  conversations (updateConversation u id f st)
  = map (fun conv => if Js.eqb (conv_id conv) id then f conv else conv)
        (conversations st).
Proof. reflexivity. Qed.

Lemma updateConversation_active u id f st :
  activeConversationId (updateConversation u id f st)
  = activeConversationId st.
Proof. reflexivity. Qed.

Lemma findConversation_map id f l conv :
  (forall c, conv_id (f c) = conv_id c) ->
  findConversation id l = Some conv ->
  findConversation id
    (map (fun c => if Js.eqb (conv_id c) id then f c else c) l)
  = Some (f conv).
Proof.
  intros Hid. unfold findConversation.
  induction l as [|c l IH]; simpl; [discriminate|].
  destruct (Js.eqb (conv_id c) id) eqn:E.
  - intros [= ->]. rewrite Hid, E. reflexivity.
  - rewrite E. exact IH.
Qed.

Lemma activeConversation_update u id f st conv :
  (forall c, conv_id (f c) = conv_id c) ->
  activeConversationId st = Some id ->
  findConversation id (conversations st) = Some conv ->
  activeConversation (updateConversation u id f st) = Some (f conv).
Proof.
  intros Hid Ha Hf. unfold activeConversation.
  rewrite updateConversation_active, Ha, updateConversation_conversations.
  apply findConversation_map; assumption.
Qed.

Lemma setMessageText_fresh aiId full (ms : list Message) :
  Forall (fun m => msg_id m <> aiId) ms ->
  map (fun m => if Js.eqb (msg_id m) aiId then withText full m else m) ms
  = ms.
Proof.
  induction 1 as [|m ms Hm _ IH]; simpl; [reflexivity|].
  apply js_eqb_neq in Hm. rewrite Hm, IH. reflexivity.
Qed.

(** The chunk update on a list that ends in the placeholder. *)
Lemma setMessageText_placeholder aiId full prev ph :
  Forall (fun m => msg_id m <> aiId) prev ->
  msg_id ph = aiId ->
  map (fun m => if Js.eqb (msg_id m) aiId then withText full m else m)
      (prev ++ [ph])
  = prev ++ [withText full ph].
Proof.
  intros Hprev Hph. rewrite map_app, setMessageText_fresh by assumption.
  simpl. rewrite Hph, js_eqb_refl. reflexivity.
Qed.

Lemma consumeStream_spec u cid aiId chunks : forall acc st conv prev ph,
  activeConversationId st = Some cid ->
  findConversation cid (conversations st) = Some conv ->
  conv_messages conv = prev ++ [ph] ->
  Forall (fun m => msg_id m <> aiId) prev ->
  msg_id ph = aiId ->
  let r := consumeStream u cid aiId chunks acc st in
  fst r = acc ++ Js.concat chunks /\
  activeConversationId (snd r) = Some cid /\
  exists conv',
    findConversation cid (conversations (snd r)) = Some conv' /\
    conv_id conv' = conv_id conv /\
    conv_title conv' = conv_title conv /\
    conv_createdAt conv' = conv_createdAt conv /\
    conv_messages conv'
    = prev ++ [match chunks with
               | [] => ph
               | _ :: _ => withText (acc ++ Js.concat chunks) ph
               end].
Proof.
  induction chunks as [|chunk rest IH]; intros acc st conv prev ph
    Ha Hf Hm Hprev Hph; simpl.
  - rewrite app_nil_r. repeat split; auto. exists conv. auto.
  - set (full := acc ++ chunk).
    set (st1 := updateConversation (Some u) cid
                                    (setMessageText aiId full) st).
    assert (Hf1 : findConversation cid (conversations st1)
                  = Some (setMessageText aiId full conv)).
    { unfold st1. rewrite updateConversation_conversations.
      apply findConversation_map; auto. }
    assert (Hm1 : conv_messages (setMessageText aiId full conv)
                  = prev ++ [withText full ph]).
    { simpl. rewrite Hm. apply setMessageText_placeholder; auto. }
    destruct (IH full st1 _ prev (withText full ph) Ha Hf1 Hm1 Hprev Hph)
      as (E1 & E2 & conv' & F1 & F2 & F3 & F4 & F5).
    unfold Js.concat in *. simpl List.concat.
    repeat split.
    + rewrite E1. unfold full. rewrite app_assoc. reflexivity.
    + exact E2.
    + exists conv'. repeat split; auto.
      rewrite F5. unfold full. rewrite <- app_assoc.
      destruct rest; simpl; rewrite ?app_nil_r; reflexivity.
Qed.

(** C4. A chunk update of [sendMessage] rewrites only messages whose id is
    the placeholder id, and of those only the text: every other message
    stays in place as it was, and the id, title and creation time of each
    conversation (and every other conversation as a whole) are unchanged. *)
Theorem chunk_update_frame (user : option User)
        (conversationId aiId fullResponse : jsstring) (st : ChatState)
        (i : nat) (conv : Conversation) :
  nth_error (conversations st) i = Some conv ->
  let st' := updateConversation user conversationId
                                (setMessageText aiId fullResponse) st in
  activeConversationId st' = activeConversationId st /\
  length (conversations st') = length (conversations st) /\
  exists conv',
    nth_error (conversations st') i = Some conv' /\
    conv_id conv' = conv_id conv /\
    conv_title conv' = conv_title conv /\
    conv_createdAt conv' = conv_createdAt conv /\
    length (conv_messages conv') = length (conv_messages conv) /\
    (conv_id conv <> conversationId -> conv' = conv) /\
    forall j m,
      nth_error (conv_messages conv) j = Some m ->
      exists m',
        nth_error (conv_messages conv') j = Some m' /\
        msg_id m' = msg_id m /\
        msg_sender m' = msg_sender m /\
        msg_image m' = msg_image m /\
        msg_timestamp m' = msg_timestamp m /\
        (msg_id m <> aiId -> m' = m) /\
        (msg_id m = aiId -> conv_id conv = conversationId ->
         msg_text m' = fullResponse).
Proof.
  intros Hi st'. subst st'.
  rewrite updateConversation_active, updateConversation_conversations.
  rewrite length_map, nth_error_map, Hi. cbn [option_map].
  split; [reflexivity|]. split; [reflexivity|].
  destruct (Js.eqb (conv_id conv) conversationId) eqn:E.
  - eexists; split; [reflexivity|]. cbn.
    rewrite length_map. repeat split; auto.
    + apply js_eqb_eq in E. congruence.
    + intros j m Hj. rewrite nth_error_map, Hj. cbn [option_map].
      destruct (Js.eqb (msg_id m) aiId) eqn:Em.
      * eexists; split; [reflexivity|]. cbn. repeat split; auto.
        apply js_eqb_eq in Em. congruence.
      * exists m. repeat split; auto.
        apply js_eqb_neq in Em. congruence.
  - exists conv. repeat split; auto.
    intros j m Hj. exists m. repeat split; auto.
    apply js_eqb_neq in E. congruence.
Qed.

Lemma generateResponseStream_returns api p :
  completion (generateResponseStream api p) = Returned.
Proof.
  unfold generateResponseStream. generalize (buildContents p) as contents.
  intros contents.
  induction [PRIMARY_MODEL; BACKUP_MODEL] as [|model rest IH]; simpl.
  - reflexivity.
  - destruct (tryModel api model contents) as [chunks [|]]; auto.
Qed.

Lemma tryBlock_eq env u text cid needsTitle stream st :
  tryBlock env u text cid needsTitle stream st
  = let r := consumeStream u cid (aiMessageId env) (yielded stream) []
                           (emit [StreamRequest (calls stream)] st) in
    match completion stream with
    | Returned =>
        (finishTry env u text cid needsTitle (fst r) (snd r), false)
    | Raised => (catchBlock env u cid (snd r), true)
    end.
Proof.
  unfold tryBlock.
  destruct (consumeStream u cid (aiMessageId env) (yielded stream) []
                          (emit [StreamRequest (calls stream)] st));
    reflexivity.
Qed.

(** C1. On an existing active conversation, with a signed-in user and a
    readable attachment, [sendMessage] first appends the user message,
    which carries the prompt as its text and the attachment as its image,
    then the placeholder, an assistant message with empty text; when the
    stream has been consumed the conversation holds the previous
    messages, the user message, and one assistant message, the
    placeholder by its id, whose text is the concatenation of the
    streamed chunks in order; and this is what the conversation holds
    when [sendMessage] is over, if the closing select gives no row.  The
    placeholder id is assumed not to occur among the previous
    messages. *)
Theorem sendMessage_existing_conversation
        (env : Env) (u : User) (text : jsstring) (file : option File)
        (img : option jsstring) (st : ChatState) (cid : jsstring)
        (conv : Conversation) :
  readImage file = Some img ->
  activeConversationId st = Some cid ->
  Js.truthy cid = true ->
  findConversation cid (conversations st) = Some conv ->
  Forall (fun m => msg_id m <> aiMessageId env) (conv_messages conv) ->
  let userMessage := userMessageOf env text img in
  let stream :=
    generateResponseStream
      (api env)
      (streamParams env u text file userMessage (Some cid) cid) in
  let s1 := updateConversation (Some u) cid (appendMessage userMessage)
                               (setIsLoading true st) in
  let s2 := placePlaceholder env u cid s1 in
  let s3 := snd (consumeStream u cid (aiMessageId env) (yielded stream) []
                               (emit [StreamRequest (calls stream)] s2)) in
  msg_sender userMessage = USER /\
  msg_text userMessage = text /\
  msg_image userMessage = img /\
  option_map conv_messages (activeConversation s1)
  = Some (conv_messages conv ++ [userMessage]) /\
  option_map conv_messages (activeConversation s2)
  = Some (conv_messages conv ++ [userMessage; aiMessagePlaceholder env]) /\
  msg_sender (aiMessagePlaceholder env) = AI /\
  msg_text (aiMessagePlaceholder env) = [] /\
  (exists aiMessage,
      option_map conv_messages (activeConversation s3)
      = Some (conv_messages conv ++ [userMessage; aiMessage]) /\
      msg_id aiMessage = msg_id (aiMessagePlaceholder env) /\
      msg_sender aiMessage = AI /\
      msg_text aiMessage = List.concat (yielded stream) /\
      (fetched env = None ->
       option_map conv_messages
         (activeConversation
            (state (sendMessage env (Some u) text file st)))
       = Some (conv_messages conv ++ [userMessage; aiMessage]))) /\
  option_map conv_messages (activeConversation s3)
  = Some (conv_messages conv
          ++ [userMessage;
              withText (Js.concat (yielded stream))
                       (aiMessagePlaceholder env)]) /\
  sendMessage env (Some u) text file st
  = {| state :=
         setIsLoading false
           (refreshConversationFromDB (Some u) (fetched env) cid s3);
       caught := false;
       settled := Returned |}.
Proof.
  intros Himg Ha Ht Hf Hfresh userMessage stream s1 s2 s3.
  assert (H1 : activeConversation s1
               = Some (appendMessage userMessage conv)).
  { apply activeConversation_update; auto. }
  assert (Ha1 : activeConversationId s1 = Some cid) by exact Ha.
  assert (Hf1 : findConversation cid (conversations s1)
                = Some (appendMessage userMessage conv)).
  { unfold activeConversation in H1. rewrite Ha1 in H1. exact H1. }
  assert (H2 : activeConversation s2
               = Some (appendMessage (aiMessagePlaceholder env)
                                     (appendMessage userMessage conv))).
  { apply activeConversation_update; auto. }
  assert (Ha2 : activeConversationId s2 = Some cid) by exact Ha.
  assert (Hf2 : findConversation cid (conversations s2)
                = Some (appendMessage (aiMessagePlaceholder env)
                                      (appendMessage userMessage conv))).
  { unfold activeConversation in H2. rewrite Ha2 in H2. exact H2. }
  assert (Hprev : Forall (fun m => msg_id m <> aiMessageId env)
                         (conv_messages conv ++ [userMessage])).
  { apply Forall_app; split; [assumption|].
    constructor; [apply userMessage_id_fresh | constructor]. }
  pose proof (consumeStream_spec u cid (aiMessageId env) (yielded stream)
                [] (emit [StreamRequest (calls stream)] s2) _
                (conv_messages conv ++ [userMessage])
                (aiMessagePlaceholder env) Ha2 Hf2 eq_refl Hprev eq_refl)
    as (E1 & E2 & conv' & F1 & _ & _ & _ & F5).
  fold s3 in E2, F1.
  assert (H3 : option_map conv_messages (activeConversation s3)
               = Some (conv_messages conv
                       ++ [userMessage;
                           withText (Js.concat (yielded stream))
                                    (aiMessagePlaceholder env)])).
  { unfold activeConversation. rewrite E2, F1. cbn [option_map].
    rewrite F5, <- app_assoc. cbn [app].
    destruct (yielded stream); reflexivity. }
  assert (Hsend : sendMessage env (Some u) text file st
                  = {| state :=
                         setIsLoading false
                           (refreshConversationFromDB (Some u) (fetched env)
                                                      cid s3);
                       caught := false;
                       settled := Returned |}).
  { unfold sendMessage. rewrite Himg.
    unfold placeUserMessage. cbn [activeConversationId setIsLoading].
    unfold isActive. rewrite Ha, Ht.
    fold userMessage. fold s1. fold s2. fold stream.
    rewrite tryBlock_eq. cbv zeta. fold s3.
    unfold stream at 1. rewrite generateResponseStream_returns.
    unfold finishTry. cbn [andb]. reflexivity. }
  split; [reflexivity|]. split; [reflexivity|]. split; [reflexivity|].
  split; [rewrite H1; cbn; reflexivity|].
  split; [rewrite H2; cbn; rewrite <- app_assoc; reflexivity|].
  split; [reflexivity|]. split; [reflexivity|].
  split; [|split; [exact H3 | exact Hsend]].
  exists (withText (Js.concat (yielded stream)) (aiMessagePlaceholder env)).
  split; [exact H3|]. split; [reflexivity|]. split; [reflexivity|].
  split; [reflexivity|].
  intros Hfetched. rewrite Hsend, Hfetched. exact H3.
Qed.

End ChatFacts.

Section ChatWitnesses.
Import Gemini Chat Examples.

Lemma chunk_update_frame_witness :
  nth_error (conversations st1) 1 = Some conv1 /\
  exists conv',
    nth_error
      (conversations
         (updateConversation (Some ada) (Js.lit "c1")
            (setMessageText (Js.lit "msg-1-ai") (Js.lit "Hi")) st1)) 1
    = Some conv' /\
    conv_title conv' = conv_title conv1.
Proof.
  split; [reflexivity|].
  destruct (chunk_update_frame (Some ada) (Js.lit "c1") (Js.lit "msg-1-ai")
              (Js.lit "Hi") st1 1 conv1 eq_refl)
    as (_ & _ & conv' & H1 & _ & H2 & _).
  exists conv'. split; assumption.
Defined.

Lemma sendMessage_existing_conversation_witness :
  readImage None = Some None /\
  activeConversationId st1 = Some (Js.lit "c1") /\
  Js.truthy (Js.lit "c1") = true /\
  findConversation (Js.lit "c1") (conversations st1) = Some conv1 /\
  Forall (fun m => msg_id m <> aiMessageId (envOf helloApi))
         (conv_messages conv1) /\
  exists final,
    option_map conv_messages
      (activeConversation
         (state (sendMessage (envOf helloApi) (Some ada) (Js.lit "Hi") None
                             st1)))
    = Some final /\
    map msg_sender final = [AI; USER; AI] /\
    map msg_text final = [Js.lit "Welcome"; Js.lit "Hi"; Js.lit "Hello"] /\
    map msg_id final
    = [Js.lit "msg-1-ai"; Js.lit "msg-1000"; Js.lit "msg-1001-ai"].
Proof.
  assert (Hfresh : Forall (fun m => msg_id m <> aiMessageId (envOf helloApi))
                          (conv_messages conv1)).
  { repeat constructor. apply js_eqb_neq. reflexivity. }
  repeat (split; [first [reflexivity | exact Hfresh]|]).
  destruct (sendMessage_existing_conversation
              (envOf helloApi) ada (Js.lit "Hi") None None st1
              (Js.lit "c1") conv1 eq_refl eq_refl eq_refl eq_refl Hfresh)
    as (U1 & U2 & _ & _ & _ & _ & _ & (ai & _ & A1 & A2 & A3 & A4) & _).
  exists (conv_messages conv1
          ++ [userMessageOf (envOf helloApi) (Js.lit "Hi") None; ai]).
  split; [exact (A4 eq_refl)|].
  rewrite !map_app. cbn [map app conv_messages conv1].
  rewrite U1, U2, A1, A2, A3. repeat split; reflexivity.
Defined.

End ChatWitnesses.

(** ** services/geminiService.ts *)

Section GeminiFacts.
Import Gemini Spec.

Lemma primary_is_not_backup : Js.eqb PRIMARY_MODEL BACKUP_MODEL = false.
Proof. reflexivity. Qed.

(** What the generator yields in general: the chunks each model got out
    before failing, the apology after a failed backup, and nothing after
    a model that ran to its end. *)
Lemma generateResponseStream_yielded api p :
  let contents := buildContents p in
  yielded (generateResponseStream api p)
  = match tryModel api PRIMARY_MODEL contents with
    | (chunks, true) => chunks
    | (chunks, false) =>
        chunks ++
        match tryModel api BACKUP_MODEL contents with
        | (chunks', true) => chunks'
        | (chunks', false) => chunks' ++ [APOLOGY]
        end
    end.
Proof.
  intros contents. unfold generateResponseStream. fold contents.
  cbn [streamModels].
  destruct (tryModel api PRIMARY_MODEL contents) as [c1 [|]];
    [reflexivity|].
  cbn [yielded]. unfold catchModel at 1. rewrite primary_is_not_backup.
  destruct (tryModel api BACKUP_MODEL contents) as [c2 [|]];
    cbn [yielded app]; [reflexivity|].
  unfold catchModel. rewrite js_eqb_refl, app_nil_r. reflexivity.
Qed.

(** C2. When the call to the primary model fails the backup model is
    called next; the generator then yields what the backup streams, and
    when the call to the backup fails as well it yields the apology
    string alone and completes. *)
Theorem generateResponseStream_fallback (api : Api)
        (p : GenerateContentParams) :
  generateContentStream api PRIMARY_MODEL (buildContents p) = CallRejected ->
  calls (generateResponseStream api p) = [PRIMARY_MODEL; BACKUP_MODEL] /\
  completion (generateResponseStream api p) = Returned /\
  (forall chunks,
      generateContentStream api BACKUP_MODEL (buildContents p)
      = Streamed chunks true ->
      yielded (generateResponseStream api p) = chunks) /\
  (generateContentStream api BACKUP_MODEL (buildContents p) = CallRejected ->
   yielded (generateResponseStream api p)
   = [Js.lit "I'm sorry, I encountered an error while processing your request. Please try again."]).
Proof.
  intros H1.
  pose proof (generateResponseStream_yielded api p) as Hy. cbv zeta in Hy.
  unfold generateResponseStream in *. cbn [streamModels] in *.
  unfold tryModel in *. rewrite H1 in *.
  repeat split.
  - destruct (generateContentStream api BACKUP_MODEL (buildContents p))
      as [|c [|]]; reflexivity.
  - destruct (generateContentStream api BACKUP_MODEL (buildContents p))
      as [|c [|]]; reflexivity.
  - intros chunks H2. rewrite Hy, H2. reflexivity.
  - intros H2. rewrite Hy, H2. reflexivity.
Qed.

(** *** generateTitle *)

Lemma stripMarkup_Stripped text : Stripped text (stripMarkup text).
Proof.
  apply filter_Purged. intros c _.
  rewrite negb_false_iff, !orb_true_iff, !N.eqb_eq. tauto.
Qed.

Lemma trimStart_split s :
  exists l, s = l ++ Js.trimStart s /\ Forall blank l.
Proof.
  induction s as [|c s (l & E & F)]; simpl.
  - exists []. split; [reflexivity | constructor].
  - destruct (Js.isWhiteSpace c) eqn:W.
    + exists (c :: l). split; [simpl; congruence | constructor; auto].
    + exists []. split; [reflexivity | constructor].
Qed.

Lemma trimStart_head s c t :
  Js.trimStart s = c :: t -> ~ blank c.
Proof.
  unfold blank. induction s as [|x s IH]; simpl; [discriminate|].
  destruct (Js.isWhiteSpace x) eqn:W; auto.
  intros [= <- <-]. congruence.
Qed.

Lemma trim_Trimmed s : Trimmed s (Js.trim s).
Proof.
  unfold Js.trim, Js.trimEnd.
  destruct (trimStart_split s) as (l & El & Fl).
  destruct (trimStart_split (rev (Js.trimStart s))) as (r & Er & Fr).
  set (t := rev (Js.trimStart (rev (Js.trimStart s)))) in *.
  assert (Es : Js.trimStart s = t ++ rev r).
  { rewrite <- (rev_involutive (Js.trimStart s)), Er, rev_app_distr.
    reflexivity. }
  split; [|split].
  - exists l, (rev r). split; [congruence|]. split; [assumption|].
    apply Forall_rev. assumption.
  - intros c t' Et. rewrite Et in Es.
    apply (trimStart_head s c (t' ++ rev r)). exact Es.
  - intros c t' Et. unfold t in Et.
    apply (f_equal (@rev N)) in Et.
    rewrite rev_involutive, rev_app_distr in Et. simpl in Et.
    exact (trimStart_head _ _ _ Et).
Qed.

Lemma trimStart_blank l x :
  Forall blank l -> Js.trimStart (l ++ x) = Js.trimStart x.
Proof.
  induction 1 as [|c l Hc _ IH]; simpl; [reflexivity|].
  unfold blank in Hc. rewrite Hc. exact IH.
Qed.

Lemma trimStart_all_blank r : Forall blank r -> Js.trimStart r = [].
Proof.
  intros H. rewrite <- (app_nil_r r). rewrite trimStart_blank by exact H.
  reflexivity.
Qed.

Lemma trimStart_id x :
  (forall c t', x = c :: t' -> ~ blank c) -> Js.trimStart x = x.
Proof.
  destruct x as [|c t']; simpl; [reflexivity|]. intros H.
  destruct (Js.isWhiteSpace c) eqn:W; [|reflexivity].
  exfalso. apply (H c t' eq_refl). exact W.
Qed.

(** The trimmed string is determined: it is what [trim] computes. *)
Lemma Trimmed_trim s t : Trimmed s t -> t = Js.trim s.
Proof.
  intros ((l & r & -> & Fl & Fr) & Hhead & Hlast).
  unfold Js.trim, Js.trimEnd. rewrite trimStart_blank by exact Fl.
  destruct t as [|c t'].
  - cbn [app]. rewrite (trimStart_all_blank r Fr). reflexivity.
  - rewrite (trimStart_id ((c :: t') ++ r)).
    2:{ intros c0 t0 [= <- _]. exact (Hhead c t' eq_refl). }
    rewrite rev_app_distr, trimStart_blank by (apply Forall_rev; exact Fr).
    rewrite trimStart_id; [symmetry; apply rev_involutive|].
    intros c0 t0 E. apply (Hlast c0 (rev t0)).
    rewrite <- (rev_involutive (c :: t')), E. reflexivity.
Qed.

(** C10. [generateTitle] answers the fixed title when neither model gives
    a text; when a model does (the primary, or the backup after the
    primary failed) it answers that text with every double quote,
    asterisk and hash removed and the surrounding whitespace trimmed. *)
Theorem generateTitle_result (api : Api) (conversationSnippet : jsstring) :
  let q := titlePrompt conversationSnippet in
  (NoTitle (generateContent api PRIMARY_MODEL q) ->
   NoTitle (generateContent api BACKUP_MODEL q) ->
   generateTitle api conversationSnippet = Js.lit "New Conversation") /\
  (forall text,
      generateContent api PRIMARY_MODEL q = Some (Some text) ->
      TitleOf text (generateTitle api conversationSnippet)) /\
  (forall text,
      NoTitle (generateContent api PRIMARY_MODEL q) ->
      generateContent api BACKUP_MODEL q = Some (Some text) ->
      TitleOf text (generateTitle api conversationSnippet)).
Proof.
  intros q. unfold generateTitle. fold q. cbn [titleModels].
  rewrite primary_is_not_backup, js_eqb_refl.
  split; [|split].
  - intros [-> | ->] [-> | ->]; reflexivity.
  - intros text ->. exists (stripMarkup text).
    split; [apply stripMarkup_Stripped | apply trim_Trimmed].
  - intros text [-> | ->] ->; exists (stripMarkup text);
      (split; [apply stripMarkup_Stripped | apply trim_Trimmed]).
Qed.

End GeminiFacts.

Section GeminiWitnesses.
Import Gemini Spec Examples.

Lemma generateResponseStream_fallback_witness :
  generateContentStream downApi PRIMARY_MODEL (buildContents params0)
  = CallRejected /\
  generateContentStream downApi BACKUP_MODEL (buildContents params0)
  = CallRejected /\
  yielded (generateResponseStream downApi params0) = [APOLOGY] /\
  yielded (generateResponseStream backupApi params0) = [Js.lit "Hi"].
Proof.
  split; [reflexivity|]. split; [reflexivity|]. split.
  - destruct (generateResponseStream_fallback downApi params0 eq_refl)
      as (_ & _ & _ & H).
    apply H. reflexivity.
  - destruct (generateResponseStream_fallback backupApi params0 eq_refl)
      as (_ & _ & H & _).
    apply H. reflexivity.
Defined.

Lemma generateTitle_result_witness :
  generateTitle downApi (Js.lit "Hi") = Js.lit "New Conversation" /\
  TitleOf ([32; 34] ++ Js.lit "# Greeting" ++ [34; 10])%N
          (generateTitle helloApi (Js.lit "Hi")) /\
  TitleOf (Js.lit "*Plan* ") (generateTitle backupApi (Js.lit "Hi")).
Proof.
  split; [|split].
  - destruct (generateTitle_result downApi (Js.lit "Hi")) as (H & _ & _).
    apply H; left; reflexivity.
  - destruct (generateTitle_result helloApi (Js.lit "Hi")) as (_ & H & _).
    apply H. reflexivity.
  - destruct (generateTitle_result backupApi (Js.lit "Hi")) as (_ & _ & H).
    apply H; [left; reflexivity | reflexivity].
Defined.

End GeminiWitnesses.

(** ** sendMessage when both models are down *)

Section FallbackFacts.
Import Gemini Chat.

Lemma updateConversation_upsert u id f st c :
  findConversation id (conversations st) = Some c ->
  In (Upsert (f c)) (effects (updateConversation (Some u) id f st)).
Proof.
  unfold updateConversation, findConversation. cbn [effects emit].
  intros H. apply in_or_app. right.
  cbn [conversations setConversations].
  induction (conversations st) as [|x l IH]; simpl in *; [discriminate|].
  destruct (Js.eqb (conv_id x) id).
  - injection H as ->. left. reflexivity.
  - auto.
Qed.

Lemma updateConversation_effects_incl u id f st e :
  In e (effects st) -> In e (effects (updateConversation u id f st)).
Proof.
  intros H. unfold updateConversation. cbn [effects emit].
  apply in_or_app. left. exact H.
Qed.

Lemma refresh_effects_incl u row id st e :
  In e (effects st) ->
  In e (effects (refreshConversationFromDB u row id st)).
Proof.
  intros H. unfold refreshConversationFromDB.
  destruct u; [|exact H]. destruct row; cbn; apply in_or_app; auto.
Qed.

(** The [catch] branch does run for a stream that raises. *)
Lemma tryBlock_raised env u text cid needsTitle ys cs st :
  snd (tryBlock env u text cid needsTitle
                {| yielded := ys; completion := Raised; calls := cs |} st)
  = true.
Proof. rewrite tryBlock_eq. reflexivity. Qed.

Lemma sendMessage_never_caught env user text file st :
  caught (sendMessage env user text file st) = false /\
  (settled (sendMessage env user text file st) = Raised ->
   readImage file = None).
Proof.
  unfold sendMessage. destruct user as [u|]; [|split; [reflexivity|]].
  2:{ discriminate. }
  destruct (readImage file) as [img|]; [|split; reflexivity].
  destruct (placeUserMessage env u (userMessageOf env text img)
                             (setIsLoading true st))
    as [[st1 cid] needsTitle].
  rewrite tryBlock_eq. cbv zeta.
  rewrite generateResponseStream_returns. split; [reflexivity|].
  discriminate.
Qed.

(** C3. [generateResponseStream] never raises: with both model calls
    failing it yields the apology and completes.  Hence no model failure
    takes [sendMessage] into its [catch] branch; and for a new
    conversation the apology, being a non-empty response, goes into the
    title request, whose answer is saved as the conversation title. *)
Theorem both_models_fail_still_titles :
  (forall api p, completion (generateResponseStream api p) = Returned) /\
  (forall env user text file st,
      caught (sendMessage env user text file st) = false) /\
  (forall env u text file img st,
      let userMessage := userMessageOf env text img in
      let p := streamParams env u text file userMessage
                            (activeConversationId st) (uuid env) in
      let snippet := text ++ [10%N; 10%N] ++ APOLOGY in
      readImage file = Some img ->
      isActive (activeConversationId st) = None ->
      generateContentStream (api env) PRIMARY_MODEL (buildContents p)
      = CallRejected ->
      generateContentStream (api env) BACKUP_MODEL (buildContents p)
      = CallRejected ->
      let r := sendMessage env (Some u) text file st in
      yielded (generateResponseStream (api env) p) = [APOLOGY] /\
      caught r = false /\
      settled r = Returned /\
      In (TitleRequest snippet) (effects (state r)) /\
      In (Upsert {| conv_id := uuid env;
                    conv_title := generateTitle (api env) snippet;
                    conv_messages :=
                      [userMessage;
                       withText APOLOGY (aiMessagePlaceholder env)];
                    conv_createdAt := now_conv env |})
         (effects (state r))).
Proof.
  split; [exact generateResponseStream_returns|].
  split; [intros; apply sendMessage_never_caught|].
  intros env u text file img st userMessage p snippet Himg Hnew H1 H2 r.
  assert (Hy : yielded (generateResponseStream (api env) p) = [APOLOGY]).
  { rewrite generateResponseStream_yielded. cbv zeta.
    unfold tryModel. rewrite H1, H2. reflexivity. }
  split; [exact Hy|].
  split; [apply sendMessage_never_caught|].
  unfold r, sendMessage. rewrite Himg.
  unfold placeUserMessage. cbn [activeConversationId setIsLoading].
  rewrite Hnew. fold userMessage. fold p.
  set (sA := emit (saveConversationToDB (Some u)
                                        (newConversationOf env userMessage))
                  _).
  set (s2 := placePlaceholder env u (uuid env) sA).
  rewrite tryBlock_eq. cbv zeta.
  rewrite generateResponseStream_returns. cbn [state settled].
  split; [reflexivity|].
  set (s2' := emit [StreamRequest (calls (generateResponseStream (api env) p))]
                   s2).
  assert (HfA : findConversation (uuid env) (conversations sA)
                = Some (newConversationOf env userMessage)).
  { unfold findConversation. cbn. rewrite js_eqb_refl. reflexivity. }
  assert (Hf2 : findConversation (uuid env) (conversations s2')
                = Some (appendMessage (aiMessagePlaceholder env)
                                      (newConversationOf env userMessage))).
  { unfold s2', s2, placePlaceholder.
    cbn [conversations emit]. rewrite updateConversation_conversations.
    apply findConversation_map; auto. }
  assert (Hprev : Forall (fun m => msg_id m <> aiMessageId env)
                         [userMessage]).
  { constructor; [apply userMessage_id_fresh | constructor]. }
  destruct (consumeStream_spec u (uuid env) (aiMessageId env)
              (yielded (generateResponseStream (api env) p)) [] s2' _
              [userMessage] (aiMessagePlaceholder env)
              eq_refl Hf2 eq_refl Hprev eq_refl)
    as (E1 & _ & conv' & F1 & F2 & F3 & F4 & F5).
  rewrite Hy in E1, F1, F5. unfold Js.concat in E1, F5.
  cbn [List.concat app] in E1, F5. rewrite app_nil_r in E1, F5.
  rewrite Hy.
  set (cs := consumeStream u (uuid env) (aiMessageId env) [APOLOGY] [] s2')
    in *.
  unfold finishTry. rewrite E1.
  change (Js.truthy APOLOGY) with true. cbn [andb]. fold snippet.
  split.
  - apply refresh_effects_incl. apply updateConversation_effects_incl.
    cbn [effects emit]. apply in_or_app. right. left. reflexivity.
  - apply refresh_effects_incl.
    replace {| conv_id := uuid env;
               conv_title := generateTitle (api env) snippet;
               conv_messages :=
                 [userMessage; withText APOLOGY (aiMessagePlaceholder env)];
               conv_createdAt := now_conv env |}
      with (setTitle (generateTitle (api env) snippet) conv').
    + apply updateConversation_upsert. exact F1.
    + destruct conv'. cbn in *. subst. reflexivity.
Qed.

End FallbackFacts.

Section FallbackWitnesses.
Import Gemini Chat Examples.

Lemma both_models_fail_still_titles_witness :
  readImage None = Some None /\
  isActive (activeConversationId st0) = None /\
  generateContentStream downApi PRIMARY_MODEL
    (buildContents
       (streamParams (envOf downApi) ada (Js.lit "Hi") None
          (userMessageOf (envOf downApi) (Js.lit "Hi") None)
          None (Js.lit "c9")))
  = CallRejected /\
  In (TitleRequest (Js.lit "Hi" ++ [10%N; 10%N] ++ APOLOGY))
     (effects (state (sendMessage (envOf downApi) (Some ada) (Js.lit "Hi")
                                  None st0))) /\
  caught (sendMessage (envOf downApi) (Some ada) (Js.lit "Hi") None st0)
  = false.
Proof.
  split; [reflexivity|]. split; [reflexivity|]. split; [reflexivity|].
  destruct both_models_fail_still_titles as (_ & _ & H).
  destruct (H (envOf downApi) ada (Js.lit "Hi") None None st0
              eq_refl eq_refl eq_refl eq_refl)
    as (_ & Hc & _ & Ht & _).
  split; assumption.
Defined.

End FallbackWitnesses.

(** ** database_schema.sql, supabase_setup.sql *)

Section SqlFacts.
Import Sql Spec.

Lemma old_completed_where now r :
  holds (sql_and (sql_and (sql_eq_bool (p_completed r) true)
                          (is_not_null (p_completed_at r)))
                 (sql_lt (p_completed_at r) (Some (now - INTERVAL_7_DAYS)%Z)))
  = true
  <-> OldCompleted now r.
Proof.
  unfold OldCompleted, INTERVAL_7_DAYS.
  change (7 * 24 * 60 * 60 * 1000000)%Z with 604800000000%Z.
  change (7 * 24 * 3600 * 1000000)%Z with 604800000000%Z.
  destruct (p_completed r) as [[|]|], (p_completed_at r) as [t|]; cbn;
    try destruct (t <? now - 604800000000)%Z eqn:E; cbn;
    (split;
     [ first [ discriminate
             | intros _; split; [reflexivity|];
               exists t; split; [reflexivity | apply Z.ltb_lt; exact E] ]
     | intros [H1 (t' & H2 & H3)];
       first [ congruence
             | reflexivity
             | injection H2 as <-; apply Z.ltb_ge in E; lia ] ]).
Qed.

(** C6. [delete_old_completed_tasks] removes exactly the rows that are
    completed and carry a completion time more than seven days before
    the current time; incomplete tasks and tasks completed within the
    last seven days all stay, as they were. *)
Theorem delete_old_completed_tasks_exact (now : Z)
        (projects : list ProjectRow) :
  let kept := delete_old_completed_tasks now projects in
  Purged (OldCompleted now) projects kept /\
  (forall r, In r kept <-> In r projects /\ ~ OldCompleted now r) /\
  (forall r, In r projects -> p_completed r = Some false -> In r kept) /\
  (forall r t, In r projects -> p_completed_at r = Some t ->
               (now - 7 * 24 * 3600 * 1000000 <= t)%Z -> In r kept).
Proof.
  intros kept.
  assert (HP : Purged (OldCompleted now) projects kept).
  { apply filter_Purged. intros r _.
    rewrite negb_false_iff. apply old_completed_where. }
  split; [exact HP|]. split; [apply Purged_In; exact HP|].
  split.
  - intros r Hr Hc. apply (Purged_In HP). split; [exact Hr|].
    intros [Ht _]. congruence.
  - intros r t Hr Ht Hle. apply (Purged_In HP). split; [exact Hr|].
    intros [_ (t' & Ht' & Hlt)]. rewrite Ht in Ht'.
    injection Ht' as <-. lia.
Qed.

(** *** The completion-time trigger *)

(** An UPDATE that assigns NULL where the table forbids it changes
    nothing. *)
Lemma update_row_null now u OLD :
  AssignsNull u -> update_row now u OLD = OLD.
Proof.
  unfold AssignsNull, update_row, update_completed_at,
    handle_projects_updated_at, apply_set, not_null.
  intros H.
  destruct (set_id u) as [[?|]|], (set_user_id u) as [[?|]|],
           (set_text u) as [[?|]|], (set_completed u) as [[[|]|]|],
           (set_created_at u) as [[?|]|];
    try (exfalso; clear - H; intuition discriminate);
    cbn;
    repeat match goal with
           | |- context [if ?c then _ else _] => destruct c; cbn
           end;
    try reflexivity;
    destruct (p_completed OLD) as [[|]|]; cbn; reflexivity.
Qed.

(** Any other UPDATE stores the values it assigns, except for the two
    columns the triggers keep: [updated_at] is the time of the database,
    and [completed_at] is stamped or cleared when [completed] changes. *)
Lemma update_row_accepted now u OLD b :
  ~ AssignsNull u ->
  p_completed OLD = Some b ->
  update_row now u OLD
  = {| p_id := chosen (set_id u) (p_id OLD);
       p_user_id := chosen (set_user_id u) (p_user_id OLD);
       p_text := chosen (set_text u) (p_text OLD);
       p_completed := Some (chosen (set_completed u) b);
       p_created_at := chosen (set_created_at u) (p_created_at OLD);
       p_updated_at := now;
       p_completed_at :=
         match b, chosen (set_completed u) b with
         | false, true => Some now
         | true, false => None
         | _, _ => assigned (set_completed_at u) (p_completed_at OLD)
         end |}.
Proof.
  unfold AssignsNull, update_row, update_completed_at,
    handle_projects_updated_at, apply_set, not_null, chosen.
  intros H Hb. rewrite Hb.
  destruct (set_id u) as [[?|]|], (set_user_id u) as [[?|]|],
           (set_text u) as [[?|]|], (set_completed u) as [[[|]|]|],
           (set_created_at u) as [[?|]|];
    try (exfalso; apply H; clear; intuition congruence);
    destruct b; cbn; reflexivity.
Qed.

Lemma update_row_inv now u OLD :
  set_completed_at u = None ->
  CompletedAtInv OLD -> CompletedAtInv (update_row now u OLD).
Proof.
  intros Hu [[b Hb] Hinv].
  assert (Hn : AssignsNull u \/ ~ AssignsNull u).
  { unfold AssignsNull.
    destruct (set_id u) as [[?|]|], (set_user_id u) as [[?|]|],
             (set_text u) as [[?|]|], (set_completed u) as [[?|]|],
             (set_created_at u) as [[?|]|];
      first [ left; clear; intuition congruence
            | right; clear; intuition discriminate ]. }
  destruct Hn as [Hn|Hn].
  - rewrite (update_row_null now u OLD Hn). split; [eauto | exact Hinv].
  - rewrite (update_row_accepted now u OLD b Hn Hb), Hu.
    rewrite Hb in Hinv. unfold CompletedAtInv. cbn.
    split; [eauto|].
    destruct b, (chosen (set_completed u) _); cbn;
      first [ exact Hinv
            | split; [reflexivity | discriminate]
            | split; [intros H; contradiction H; reflexivity | discriminate]
            ].
Qed.

Lemma row_after_inv r0 ups :
  Forall (fun nu => set_completed_at (snd nu) = None) ups ->
  CompletedAtInv r0 -> CompletedAtInv (row_after r0 ups).
Proof.
  unfold row_after. intros H. revert r0.
  induction H as [|[now u] ups Hu _ IH]; intros r0 H0; simpl; auto.
  apply IH. apply update_row_inv; assumption.
Qed.

(** C8. A row inserted with [completed = false] has a completion time
    exactly when it is completed, after any sequence of updates that
    leave the [completed_at] column to the trigger, and so after any
    sequence of the updates [toggleTask] sends.  Whatever an accepted
    UPDATE assigns, it stores the new value of [completed], with the time
    of the database as completion time when [completed] goes from false
    to true and without completion time when it goes from true to false;
    when [completed] does not change, the completion time is the one
    assigned, or else the old one.  The trigger function itself stamps and
    clears the column on these two changes. *)
Theorem update_completed_at_invariant :
  (forall id user_id text t0 ups,
      Forall (fun nu => set_completed_at (snd nu) = None) ups ->
      CompletedAtInv (row_after (insert_row id user_id text false t0) ups)) /\
  (forall id user_id text t0 (toggles : list (Z * (bool * Z))),
      CompletedAtInv
        (row_after (insert_row id user_id text false t0)
                   (map (fun t => (fst t,
                                   Projects.updateStatement (fst (snd t))
                                                            (snd (snd t))))
                        toggles))) /\
  (forall now u OLD b,
      p_completed OLD = Some b ->
      ~ AssignsNull u ->
      let NEW := update_row now u OLD in
      let b' := chosen (set_completed u) b in
      p_completed NEW = Some b' /\
      (b = false -> b' = true -> p_completed_at NEW = Some now) /\
      (b = true -> b' = false -> p_completed_at NEW = None) /\
      (b = b' ->
       p_completed_at NEW
       = assigned (set_completed_at u) (p_completed_at OLD))) /\
  (forall now OLD NEW,
      p_completed OLD = Some false -> n_completed NEW = Some true ->
      n_completed_at (update_completed_at now OLD NEW) = Some now) /\
  (forall now OLD NEW,
      p_completed OLD = Some true -> n_completed NEW = Some false ->
      n_completed_at (update_completed_at now OLD NEW) = None).
Proof.
  assert (H0 : forall id user_id text t0,
             CompletedAtInv (insert_row id user_id text false t0)).
  { intros. split; [eexists; reflexivity|].
    cbn. split; [tauto | discriminate]. }
  split; [|split; [|split; [|split]]].
  - intros id user_id text t0 ups H. apply row_after_inv; [exact H | apply H0].
  - intros id user_id text t0 toggles. apply row_after_inv; [|apply H0].
    apply Forall_map, Forall_forall. reflexivity.
  - intros now u OLD b Hb Hn. cbv zeta.
    rewrite (update_row_accepted now u OLD b Hn Hb).
    cbn [p_completed p_completed_at].
    destruct b, (chosen (set_completed u) _);
      repeat split; intros; congruence.
  - intros now OLD NEW Ho Hn. unfold update_completed_at.
    rewrite Ho, Hn. reflexivity.
  - intros now OLD NEW Ho Hn. unfold update_completed_at.
    rewrite Ho, Hn. reflexivity.
Qed.

(** *** Expired files *)

Lemma filter_all {A} (l : list A) : filter (fun _ => true) l = l.
Proof. induction l; simpl; congruence. Qed.

Lemma filter_twice {A} (f g : A -> bool) (l : list A) :
  filter f (filter g l) = filter (fun x => g x && f x) l.
Proof.
  induction l as [|x l IH]; simpl; [reflexivity|].
  destruct (g x); simpl; [destruct (f x)|]; congruence.
Qed.

Lemma NoDup_map_eq {A B} (f : A -> B) (l : list A) (x y : A) :
  NoDup (map f l) -> In x l -> In y l -> f x = f y -> x = y.
Proof.
  induction l as [|a l IH]; simpl; [tauto|].
  intros Hnd Hx Hy E. inversion Hnd as [|? ? Hna Hnd']; subst.
  destruct Hx as [->|Hx], Hy as [->|Hy]; auto.
  - exfalso. apply Hna. rewrite E. apply in_map. exact Hy.
  - exfalso. apply Hna. rewrite <- E. apply in_map. exact Hx.
Qed.

(** The policies, read as relations. *)
Lemma owns_Own who user_id : owns who user_id = true <-> Own who user_id.
Proof.
  unfold Own. destruct who as [|uid|]; simpl.
  - split; auto.
  - rewrite js_eqb_eq. split.
    + intros ->. right. reflexivity.
    + intros [H|H]; [discriminate | congruence].
  - split; [discriminate | intros [H|H]; discriminate].
Qed.

Lemma split_slash_nonempty s : forall acc, split_slash acc s <> [].
Proof.
  induction s as [|c s IH]; intros acc; simpl; [discriminate|].
  destruct (c =? 47)%N; [discriminate | apply IH].
Qed.

(** The first folder of a name is what stands before its first slash. *)
Lemma first_folder s : forall acc f,
  hd_error (removelast (split_slash acc s)) = Some f
  <-> exists pre rest,
      s = pre ++ 47%N :: rest /\ ~ In 47%N pre /\ f = acc ++ pre.
Proof.
  induction s as [|c s IH]; intros acc f.
  - simpl. split; [discriminate|].
    intros (pre & rest & E & _). destruct pre; discriminate.
  - cbn [split_slash]. destruct (N.eqb_spec c 47) as [->|Hc].
    + pose proof (split_slash_nonempty s []) as Hne.
      cbn [removelast].
      destruct (split_slash [] s) as [|x l] eqn:E; [contradiction|].
      cbn [hd_error]. split.
      * intros [= <-]. exists [], s. rewrite app_nil_r. auto.
      * intros ([|c' pre] & rest & E' & Hn & ->).
        -- rewrite app_nil_r. reflexivity.
        -- exfalso. apply Hn. left. injection E' as <- _. reflexivity.
    + rewrite IH. split.
      * intros (pre & rest & -> & Hn & ->). exists (c :: pre), rest.
        split; [reflexivity|]. split.
        -- intros [H|H]; [congruence | contradiction].
        -- rewrite <- app_assoc. reflexivity.
      * intros ([|c' pre] & rest & E' & Hn & ->).
        -- injection E' as -> _. contradiction.
        -- injection E' as <- ->. exists pre, rest.
           split; [reflexivity|]. split.
           ++ intros H. apply Hn. right. exact H.
           ++ rewrite <- app_assoc. reflexivity.
Qed.

Lemma user_files_is_not_avatars : Js.eqb USER_FILES AVATARS = false.
Proof. reflexivity. Qed.

(** In the user-files bucket the policies let the invoker see and delete
    exactly the objects of the invoker's folder. *)
Lemma objects_policies who o :
  bucket_id o = USER_FILES ->
  objects_select who o && objects_delete who o = true
  <-> InOwnFolder who (name o).
Proof.
  intros Hb. unfold InOwnFolder, objects_select, objects_delete,
    user_files_policy, uid_is_first_folder, foldername, role_authenticated.
  rewrite Hb, user_files_is_not_avatars, js_eqb_refl.
  destruct who as [|uid|].
  - split; auto.
  - destruct (hd_error (removelast (split_slash [] (name o))))
      as [folder|] eqn:E; cbn.
    + apply first_folder in E. destruct E as (pre & rest & En & Hn & ->).
      cbn [app]. destruct (Js.eqb uid pre) eqn:Eq; cbn.
      * apply js_eqb_eq in Eq. subst pre. split; [|reflexivity].
        intros _. right. exists uid, rest. auto.
      * split; [discriminate|].
        intros [H|(uid' & rest' & [= <-] & Hn' & En')]; [discriminate|].
        apply js_eqb_neq in Eq. exfalso. apply Eq.
        assert (F : hd_error (removelast (split_slash [] (name o)))
                    = Some uid).
        { apply first_folder. exists uid, rest'. auto. }
        assert (G : hd_error (removelast (split_slash [] (name o)))
                    = Some pre).
        { apply first_folder. exists pre, rest. auto. }
        congruence.
    + split; [discriminate|].
      intros [H|(uid' & rest' & [= <-] & Hn' & En')]; [discriminate|].
      assert (F : hd_error (removelast (split_slash [] (name o)))
                  = Some uid).
      { apply first_folder. exists uid, rest'. auto. }
      congruence.
  - cbn. destruct (hd_error (removelast (split_slash [] (name o))));
      cbn; (split; [discriminate|]);
      intros [H|(uid' & rest' & H & _)]; discriminate.
Qed.

(** The loop of the cleanup, in closed form. *)
Lemma purge_fold who sel : forall d,
  files (fold_left (purge who) sel d)
  = filter (fun r => negb (owns who (f_user_id r)
                           && existsb (fun e => Js.eqb (f_id r) (fst e))
                                      sel))
           (files d) /\
  objects (fold_left (purge who) sel d)
  = filter (fun o => negb (objects_select who o && objects_delete who o
                           && (Js.eqb (bucket_id o) USER_FILES
                               && existsb (fun e => Js.eqb (name o) (snd e))
                                          sel)))
           (objects d).
Proof.
  induction sel as [|e sel IH]; intros d; simpl.
  - split.
    + rewrite <- (filter_all (files d)) at 1.
      apply filter_ext. intros r. rewrite andb_false_r. reflexivity.
    + rewrite <- (filter_all (objects d)) at 1.
      apply filter_ext. intros o. rewrite !andb_false_r. reflexivity.
  - destruct (IH (purge who d e)) as [-> ->].
    unfold purge, delete_where_as.
    cbn [files objects]. rewrite !filter_twice. split.
    + apply filter_ext. intros r. cbn [holds].
      destruct (owns who (f_user_id r)), (Js.eqb (f_id r) (fst e));
        reflexivity.
    + apply filter_ext. intros o.
      destruct (objects_select who o && objects_delete who o),
               (Js.eqb (bucket_id o) USER_FILES),
               (Js.eqb (name o) (snd e)); reflexivity.
Qed.

Lemma selected_id who now rows (r : FileRow) :
  existsb (fun e => Js.eqb (f_id r) (fst e))
          (map (fun r => (f_id r, f_file_path r))
               (filter (fun r => owns who (f_user_id r)
                                 && (f_expires_at r <? now)%Z) rows)) = true
  <-> exists r', In r' rows /\ Own who (f_user_id r') /\ Expired now r'
                 /\ f_id r' = f_id r.
Proof.
  rewrite existsb_exists. unfold Expired. split.
  - intros (e & He & E). apply in_map_iff in He as (r' & <- & Hr').
    apply filter_In in Hr' as [Hin Hlt].
    apply andb_true_iff in Hlt as [Ho Hlt].
    apply Z.ltb_lt in Hlt. apply owns_Own in Ho.
    apply js_eqb_eq in E. exists r'. auto.
  - intros (r' & Hin & Ho & Hlt & E).
    exists (f_id r', f_file_path r'). split.
    + apply in_map_iff. exists r'. split; [reflexivity|].
      apply filter_In. split; [exact Hin|].
      apply andb_true_iff. split; [apply owns_Own; exact Ho|].
      apply Z.ltb_lt; exact Hlt.
    + apply js_eqb_eq. auto.
Qed.

Lemma selected_path who now rows (o : StorageObject) :
  existsb (fun e => Js.eqb (name o) (snd e))
          (map (fun r => (f_id r, f_file_path r))
               (filter (fun r => owns who (f_user_id r)
                                 && (f_expires_at r <? now)%Z) rows)) = true
  <-> exists r, In r rows /\ Own who (f_user_id r) /\ Expired now r
                /\ f_file_path r = name o.
Proof.
  rewrite existsb_exists. unfold Expired. split.
  - intros (e & He & E). apply in_map_iff in He as (r' & <- & Hr').
    apply filter_In in Hr' as [Hin Hlt].
    apply andb_true_iff in Hlt as [Ho Hlt].
    apply Z.ltb_lt in Hlt. apply owns_Own in Ho.
    apply js_eqb_eq in E. exists r'. auto.
  - intros (r' & Hin & Ho & Hlt & E).
    exists (f_id r', f_file_path r'). split.
    + apply in_map_iff. exists r'. split; [reflexivity|].
      apply filter_In. split; [exact Hin|].
      apply andb_true_iff. split; [apply owns_Own; exact Ho|].
      apply Z.ltb_lt; exact Hlt.
    + apply js_eqb_eq. auto.
Qed.

Lemma cleanup_files who now d :
  NoDup (map f_id (files d)) ->
  Purged (fun r => Own who (f_user_id r) /\ Expired now r)
         (files d) (files (cleanup_expired_files who now d)).
Proof.
  intros Hnd. unfold cleanup_expired_files.
  destruct (purge_fold who
              (map (fun r => (f_id r, f_file_path r))
                   (filter (fun r => owns who (f_user_id r)
                                     && (f_expires_at r <? now)%Z)
                           (files d)))
              d) as [-> _].
  apply filter_Purged. intros r Hr.
  rewrite negb_false_iff, andb_true_iff, selected_id, owns_Own. split.
  - intros (Ho & r' & Hin & _ & Hexp & E).
    rewrite <- (NoDup_map_eq f_id (files d) r' r Hnd Hin Hr E).
    split; [|exact Hexp].
    rewrite (NoDup_map_eq f_id (files d) r' r Hnd Hin Hr E). exact Ho.
  - intros (Ho & Hexp). split; [exact Ho|]. exists r. auto.
Qed.

Lemma cleanup_objects who now d :
  Purged (CleanedObject who now (files d)) (objects d)
         (objects (cleanup_expired_files who now d)).
Proof.
  unfold cleanup_expired_files.
  destruct (purge_fold who
              (map (fun r => (f_id r, f_file_path r))
                   (filter (fun r => owns who (f_user_id r)
                                     && (f_expires_at r <? now)%Z)
                           (files d)))
              d) as [_ ->].
  apply filter_Purged. intros o _.
  rewrite negb_false_iff. unfold CleanedObject.
  rewrite <- selected_path. split.
  - intros H. apply andb_true_iff in H as [Hp H].
    apply andb_true_iff in H as [Hb H]. apply js_eqb_eq in Hb.
    split; [exact Hb|]. split; [|exact H].
    apply objects_policies; assumption.
  - intros (Hb & Hf & H).
    apply andb_true_iff. split; [apply objects_policies; assumption|].
    apply andb_true_iff. split; [apply js_eqb_eq; exact Hb | exact H].
Qed.

(** C7. A file added with [addFile] is stored with an expiry of the
    clock reading at upload plus exactly 24 hours.  The cleanup removes
    exactly the expired records within reach of the role it runs as, and
    the objects of the user-files bucket they name in the folder of that
    role, and leaves every other record as it was: run by a privileged
    role, these are all the expired records and the objects they name;
    run for a signed-in user, as [loadFiles] calls it, they are that
    user's own, and the records of other users stay, expired or not.
    Record ids are unique, as the primary key makes them. *)
Theorem file_expiry_and_cleanup :
  (forall env u file w id created_at,
      Files.uploadOk env = true ->
      Files.inserted env = Some (id, created_at) ->
      let w' := Files.addFile env (Some u) file w in
      exists row sf,
        files (Files.db w') = row :: files (Files.db w) /\
        f_id row = id /\
        f_user_id row = user_id u /\
        (exists rest, f_file_path row = user_id u ++ 47%N :: rest) /\
        f_expires_at row
        = ((Files.nowExpiry env + 24 * 60 * 60 * 1000) * 1000)%Z /\
        Files.localFiles w' = sf :: Files.localFiles w /\
        Files.sf_id sf = id /\
        Files.sf_expiresAt sf
        = (Files.nowExpiry env + 24 * 60 * 60 * 1000)%Z) /\
  (forall who now d,
      NoDup (map f_id (files d)) ->
      Purged (fun r => Own who (f_user_id r) /\ Expired now r) (files d)
             (files (cleanup_expired_files who now d)) /\
      Purged (CleanedObject who now (files d)) (objects d)
             (objects (cleanup_expired_files who now d)) /\
      (forall r, In r (files d) -> (now <= f_expires_at r)%Z ->
                 In r (files (cleanup_expired_files who now d))) /\
      (forall r, In r (files d) -> ~ Own who (f_user_id r) ->
                 In r (files (cleanup_expired_files who now d)))) /\
  (forall now d,
      NoDup (map f_id (files d)) ->
      Purged (Expired now) (files d)
             (files (cleanup_expired_files Privileged now d)) /\
      Purged (ExpiredObject now (files d)) (objects d)
             (objects (cleanup_expired_files Privileged now d))).
Proof.
  split; [|split].
  - intros env u file w id created_at Hup Hins w'.
    unfold w', Files.addFile. rewrite Hup, Hins. cbn.
    eexists. eexists.
    split; [reflexivity|]. split; [reflexivity|]. split; [reflexivity|].
    split; [eexists; unfold Files.filePathOf; cbn; reflexivity|].
    repeat split.
    unfold Files.getTime, Files.toTimestamptz, Files.FILE_EXPIRATION_TIME.
    rewrite Z.div_mul by discriminate. reflexivity.
  - intros who now d Hnd.
    pose proof (cleanup_files who now d Hnd) as HF.
    split; [exact HF|]. split; [apply cleanup_objects|]. split.
    + intros r Hr Hle. apply (Purged_In HF). split; [exact Hr|].
      unfold Expired. intros [_ H]. lia.
    + intros r Hr Hn. apply (Purged_In HF). split; [exact Hr|]. tauto.
  - intros now d Hnd. split.
    + apply (Purged_iff (fun r => Own Privileged (f_user_id r)
                                  /\ Expired now r)).
      * intros r. unfold Own. intuition auto.
      * apply cleanup_files. exact Hnd.
    + apply (Purged_iff (CleanedObject Privileged now (files d))).
      * intros o. unfold CleanedObject, ExpiredObject, InOwnFolder, Own.
        split.
        -- intros (Hb & _ & r & Hr & _ & He & Hp). eauto.
        -- intros (Hb & r & Hr & He & Hp). eauto 10.
      * apply cleanup_objects.
Qed.

End SqlFacts.

Section SqlWitnesses.
Import Sql Spec Examples MoreExamples.

Lemma delete_old_completed_tasks_exact_witness :
  In taskOpen projects0 /\
  p_completed taskOpen = Some false /\
  In taskOpen (delete_old_completed_tasks (9 * day) projects0) /\
  In taskRecent (delete_old_completed_tasks (9 * day) projects0) /\
  delete_old_completed_tasks (9 * day) projects0 = [taskRecent; taskOpen].
Proof.
  assert (H3 : In taskOpen projects0) by (right; right; left; reflexivity).
  assert (H2 : In taskRecent projects0) by (right; left; reflexivity).
  destruct (delete_old_completed_tasks_exact (9 * day) projects0)
    as (_ & _ & Hopen & Hrecent).
  split; [exact H3|]. split; [reflexivity|].
  split; [apply (Hopen taskOpen H3 eq_refl)|].
  split; [|reflexivity].
  apply (Hrecent taskRecent (8 * day)%Z H2 eq_refl).
  vm_compute. discriminate.
Defined.

Lemma update_completed_at_invariant_witness :
  Forall (fun nu => set_completed_at (snd nu) = None)
         [(10%Z, Projects.updateStatement true 10);
          (20%Z, Projects.updateStatement false 20)] /\
  CompletedAtInv
    (row_after (insert_row (Js.lit "t9") (Js.lit "u1") (Js.lit "x") false 0)
               [(10%Z, Projects.updateStatement true 10);
                (20%Z, Projects.updateStatement false 20)]) /\
  p_completed taskOpen = Some false /\
  ~ AssignsNull (Projects.updateStatement true 10) /\
  p_completed (update_row 7000 (Projects.updateStatement true 10) taskOpen)
  = Some true /\
  p_completed_at
    (update_row 7000 (Projects.updateStatement true 10) taskOpen)
  = Some 7000%Z /\
  p_completed_at
    (update_row 7000 (Projects.updateStatement false 10) taskRecent)
  = None /\
  n_completed_at
    (update_completed_at 10 taskOpen
                         (apply_set (Projects.updateStatement true 10)
                                    taskOpen))
  = Some 10%Z.
Proof.
  assert (H : Forall (fun nu => set_completed_at (snd nu) = None)
                     [(10%Z, Projects.updateStatement true 10);
                      (20%Z, Projects.updateStatement false 20)])
    by (repeat constructor).
  assert (Hn : forall c, ~ AssignsNull (Projects.updateStatement c 10)).
  { intros c. unfold AssignsNull. cbn. intuition discriminate. }
  destruct update_completed_at_invariant
    as (Hinv & _ & Hrow & Hset & _).
  destruct (Hrow 7000%Z (Projects.updateStatement true 10) taskOpen false
                 eq_refl (Hn true)) as (C1 & C2 & _ & _).
  destruct (Hrow 7000%Z (Projects.updateStatement false 10) taskRecent true
                 eq_refl (Hn false)) as (_ & _ & C3 & _).
  split; [exact H|].
  split; [apply Hinv; exact H|].
  split; [reflexivity|]. split; [exact (Hn true)|].
  split; [exact C1|]. split; [exact (C2 eq_refl eq_refl)|].
  split; [exact (C3 eq_refl eq_refl)|].
  apply Hset; reflexivity.
Defined.

(** C8 as stated fails for an UPDATE that assigns the completion time
    itself: on an open task whose [completed] does not change, the
    trigger keeps the assigned value, and the row is left open with a
    completion time. *)
Lemma assigned_completed_at_breaks_invariant :
  CompletedAtInv
    (insert_row (Js.lit "t9") (Js.lit "u1") (Js.lit "x") false 0) /\
  update_row 7
    {| set_id := None; set_user_id := None; set_text := None;
       set_completed := None; set_created_at := None;
       set_updated_at := None; set_completed_at := Some (Some 5%Z) |}
    (insert_row (Js.lit "t9") (Js.lit "u1") (Js.lit "x") false 0)
  = {| p_id := Js.lit "t9"; p_user_id := Js.lit "u1"; p_text := Js.lit "x";
       p_completed := Some false; p_created_at := 0; p_updated_at := 7;
       p_completed_at := Some 5%Z |} /\
  ~ CompletedAtInv
      (update_row 7
         {| set_id := None; set_user_id := None; set_text := None;
            set_completed := None; set_created_at := None;
            set_updated_at := None; set_completed_at := Some (Some 5%Z) |}
         (insert_row (Js.lit "t9") (Js.lit "u1") (Js.lit "x") false 0)).
Proof.
  split; [|split].
  - split; [eexists; reflexivity|]. cbn. split; [tauto | discriminate].
  - reflexivity.
  - intros [_ [H _]]. cbn in H.
    assert (E : Some false = Some true) by (apply H; discriminate).
    discriminate E.
Qed.

Lemma file_expiry_and_cleanup_witness :
  Files.uploadOk filesEnv = true /\
  Files.inserted filesEnv = Some (Js.lit "f3", 1006000%Z) /\
  NoDup (map f_id (files dbShared)) /\
  (exists row sf,
      files (Files.db (Files.addFile filesEnv (Some ada) upload0 world0))
      = row :: files db0 /\
      f_user_id row = Js.lit "u1" /\
      f_expires_at row = 86401005000%Z /\
      Files.sf_expiresAt sf = 86401005%Z) /\
  In (fileRow "f2" "u1/b.png" 150)
     (files (cleanup_expired_files (Authenticated (Js.lit "u1")) 100
                                   dbShared)) /\
  ~ Own (Authenticated (Js.lit "u1")) (f_user_id otherRow) /\
  In otherRow
     (files (cleanup_expired_files (Authenticated (Js.lit "u1")) 100
                                   dbShared)) /\
  Purged (Expired 100) (files dbShared)
         (files (cleanup_expired_files Privileged 100 dbShared)).
Proof.
  assert (Hnd : NoDup (map f_id (files dbShared))).
  { repeat constructor; simpl; intros H;
      repeat (destruct H as [H|H]; [discriminate H|]); exact H. }
  assert (Ho : ~ Own (Authenticated (Js.lit "u1")) (f_user_id otherRow)).
  { intros [H|H]; discriminate H. }
  destruct file_expiry_and_cleanup as (Hadd & Hclean & Hall).
  split; [reflexivity|]. split; [reflexivity|]. split; [exact Hnd|].
  split.
  - destruct (Hadd filesEnv ada upload0 world0 (Js.lit "f3") 1006000%Z
                   eq_refl eq_refl)
      as (row & sf & H1 & _ & H2 & _ & H3 & _ & _ & H6).
    exists row, sf. repeat split; assumption.
  - destruct (Hclean (Authenticated (Js.lit "u1")) 100%Z dbShared Hnd)
      as (_ & _ & Hkeep & Hother).
    split; [apply Hkeep;
            [right; right; left; reflexivity | vm_compute; discriminate]|].
    split; [exact Ho|].
    split; [apply Hother; [left; reflexivity | exact Ho]|].
    exact (proj1 (Hall 100%Z dbShared Hnd)).
Defined.

(** C7 as stated fails when the cleanup runs for a signed-in user, the
    way the application calls it: the expired record of another user is
    out of reach of the policies and stays, with the object it names. *)
Lemma cleanup_leaves_other_users_expired_files :
  In otherRow (files dbShared) /\
  Expired 100 otherRow /\
  In otherRow
     (files (cleanup_expired_files (Authenticated (Js.lit "u1")) 100
                                   dbShared)) /\
  In {| bucket_id := USER_FILES; name := Js.lit "u2/n.txt" |}
     (objects (cleanup_expired_files (Authenticated (Js.lit "u1")) 100
                                     dbShared)) /\
  ~ Purged (Expired 100) (files dbShared)
           (files (cleanup_expired_files (Authenticated (Js.lit "u1")) 100
                                         dbShared)).
Proof.
  assert (Hexp : Expired 100 otherRow) by reflexivity.
  assert (Hin : In otherRow
                   (files (cleanup_expired_files
                             (Authenticated (Js.lit "u1")) 100 dbShared)))
    by (left; reflexivity).
  split; [left; reflexivity|]. split; [exact Hexp|]. split; [exact Hin|].
  split; [left; reflexivity|].
  intros HP. apply (Purged_In HP) in Hin. tauto.
Qed.

End SqlWitnesses.

(** ** hooks/useProjects *)

Section ProjectsFacts.
Import Projects Spec Examples.

Lemma toggled_Forall2 id b (l : list ProjectTask) :
  Forall2 (fun t t' =>
             (task_id t = id -> t' = withCompleted b t)
             /\ (task_id t <> id -> t' = t))
          l
          (map (fun task =>
                  if Js.eqb (task_id task) id
                  then withCompleted b task else task) l).
Proof.
  induction l as [|t l IH]; simpl; constructor; auto.
  destruct (Js.eqb (task_id t) id) eqn:E.
  - apply js_eqb_eq in E. split; [reflexivity | congruence].
  - apply js_eqb_neq in E. split; [congruence | reflexivity].
Qed.

(** C5, as the code has it.  [addTask] (signed in, non-blank text) and
    [toggleTask] (signed in, task in the list) write the local list
    before their store operation is even issued; [deleteTask] issues the
    delete first and writes the local list only once it has completed
    without error, and not at all otherwise. *)
Theorem task_mutations_ordering :
  (forall u nowId nowCreated saved text tasks0,
      Js.truthy (Js.trim text) = true ->
      exists tempTask rest,
        events (addTask (Some u) nowId nowCreated saved text (fresh tasks0))
        = SetIsLoading true :: SetTasks (tempTask :: tasks0)
            :: Request (Insert text false) :: rest /\
        task_text tempTask = text /\
        task_completed tempTask = false) /\
  (forall u outcome id tasks0 current,
      find (fun t => Js.eqb (task_id t) id) tasks0 = Some current ->
      exists toggled rest,
        events (toggleTask (Some u) outcome id (fresh tasks0))
        = SetIsLoading true :: SetTasks toggled
            :: Request (Update id (negb (task_completed current)))
            :: rest /\
        Forall2 (fun t t' =>
                   (task_id t = id ->
                    t' = withCompleted (negb (task_completed current)) t)
                   /\ (task_id t <> id -> t' = t))
                tasks0 toggled) /\
  (forall u outcome id tasks0,
      let r := deleteTask (Some u) outcome id (fresh tasks0) in
      events r
      = [SetIsLoading true; Request (Delete id);
         Response (Delete id) (succeeded outcome)]
          ++ (if succeeded outcome then [SetTasks (tasks r)] else [])
          ++ [SetIsLoading false] /\
      localBeforeResponse (events r) = false /\
      (succeeded outcome = true ->
       Purged (fun t => task_id t = id) tasks0 (tasks r)) /\
      (succeeded outcome = false -> tasks r = tasks0)).
Proof.
  split; [|split].
  - intros u nowId nowCreated saved text tasks0 Ht.
    unfold addTask. rewrite Ht. cbn [negb].
    destruct saved; cbn; eexists; eexists;
      (split; [reflexivity | split; reflexivity]).
  - intros u outcome id tasks0 current Hf.
    unfold toggleTask. cbn [tasks setIsLoading fresh]. rewrite Hf.
    destruct outcome; cbn; eexists; eexists;
      (split; [reflexivity | apply toggled_Forall2]).
  - intros u outcome id tasks0 r. unfold r, deleteTask.
    destruct outcome; cbn; repeat split; try discriminate; try reflexivity.
    intros _. apply filter_Purged. intros t _.
    rewrite negb_false_iff. apply js_eqb_eq.
Qed.

Lemma task_mutations_ordering_witness :
  Js.truthy (Js.trim (Js.lit " buy tea ")) = true /\
  find (fun t => Js.eqb (task_id t) (Js.lit "t1")) [task1] = Some task1 /\
  localBeforeResponse
    (events (addTask (Some ada) 7 8 None (Js.lit " buy tea ")
                     (fresh [task1]))) = true /\
  localBeforeResponse
    (events (toggleTask (Some ada) Error (Js.lit "t1") (fresh [task1])))
  = true /\
  tasks (deleteTask (Some ada) Error (Js.lit "t1") (fresh [task1]))
  = [task1].
Proof.
  destruct task_mutations_ordering as (Hadd & Htoggle & Hdelete).
  split; [reflexivity|]. split; [reflexivity|]. split; [|split].
  - destruct (Hadd ada 7%Z 8%Z None (Js.lit " buy tea ") [task1] eq_refl)
      as (t & rest & -> & _). reflexivity.
  - destruct (Htoggle ada Error (Js.lit "t1") [task1] task1 eq_refl)
      as (l & rest & -> & _). reflexivity.
  - destruct (Hdelete ada Error (Js.lit "t1") [task1]) as (_ & _ & _ & H).
    apply H. reflexivity.
Defined.

(** C5 as stated fails for [deleteTask]: on a successful delete the only
    write to the local list comes after the response of the store. *)
Lemma deleteTask_waits_for_store :
  events (deleteTask (Some ada) Ok (Js.lit "t1") local0)
  = [SetIsLoading true; Request (Delete (Js.lit "t1"));
     Response (Delete (Js.lit "t1")) true; SetTasks [];
     SetIsLoading false] /\
  localBeforeResponse
    (events (deleteTask (Some ada) Ok (Js.lit "t1") local0)) <> true.
Proof. split; [reflexivity | discriminate]. Qed.

End ProjectsFacts.

(** ** hooks/useAuth.ts *)

Section AuthFacts.
Import Auth Spec Examples.

Lemma updateCalls_app a b : updateCalls (a ++ b) = updateCalls a ++ updateCalls b.
Proof. unfold updateCalls. apply flat_map_app. Qed.

Lemma verifyLoop_no_update p attempt current ks :
  updateCalls (fst (verifyLoop p attempt current ks)) = [].
Proof.
  induction ks as [|k ks IH]; simpl; [reflexivity|].
  destruct (getUser p attempt k) as [| |metadata|e]; simpl;
    try (destruct (verifyLoop p attempt current ks); simpl in *; exact IH);
    try reflexivity.
  destruct (negb (Js.eqb metadata current)); simpl; [reflexivity|].
  destruct (verifyLoop p attempt current ks); simpl in *; exact IH.
Qed.

Lemma pause_no_update n : updateCalls (pause n) = [].
Proof. unfold pause. destruct (n <? maxAttempts); reflexivity. Qed.

Lemma updateCalls_cons n l :
  updateCalls (UpdateCall n :: l) = n :: updateCalls l.
Proof. reflexivity. Qed.

Lemma retryLoop_calls p current n lastError log :
  exists k,
    n + k <= Nat.max n maxAttempts /\
    updateCalls (snd (retryLoop p current n lastError log))
    = updateCalls log ++ seq (S n) k.
Proof.
  funelim (retryLoop p current n lastError log); cbn [snd];
    try match goal with
        | H : verifyLoop ?p ?a ?c ?ks = (?evs, _) |- _ =>
            let E := fresh "E" in
            pose proof (verifyLoop_no_update p a c ks) as E;
            rewrite H in E; cbn [fst] in E
        end.
  - exists 0. rewrite app_nil_r. split; [lia | reflexivity].
  - exists 1. rewrite updateCalls_app. split; [unfold maxAttempts in *; lia|].
    reflexivity.
  - destruct H as (k & Hk & ->). exists (S k).
    split; [unfold maxAttempts in *; lia|].
    rewrite updateCalls_app, updateCalls_cons, pause_no_update, <- app_assoc.
    reflexivity.
  - destruct H as (k & Hk & ->). exists (S k).
    split; [unfold maxAttempts in *; lia|].
    rewrite updateCalls_app, <- app_assoc. reflexivity.
  - exists 1. rewrite updateCalls_app. split; [unfold maxAttempts in *; lia|].
    reflexivity.
  - destruct H as (k & Hk & ->). exists (S k).
    split; [unfold maxAttempts in *; lia|].
    rewrite updateCalls_app, updateCalls_cons, updateCalls_app, E,
      pause_no_update, <- app_assoc.
    reflexivity.
  - exists 1. split; [unfold maxAttempts in *; lia|].
    rewrite updateCalls_app, updateCalls_cons, E. reflexivity.
Qed.

Lemma retryLoop_done p current n lastError log :
  ~ n < maxAttempts ->
  retryLoop p current n lastError log = (afterLoop lastError, log).
Proof.
  intros Hn. funelim (retryLoop p current n lastError log);
    first [reflexivity | contradiction].
Qed.

(** One failed attempt: the call is logged, the error is kept, and the
    loop goes on only while attempts remain. *)
Lemma retryLoop_failed p current n lastError log e :
  n < maxAttempts ->
  attemptError p current (S n) = Some e ->
  exists evs,
    updateCalls evs = [S n] /\
    retryLoop p current n lastError log
    = if S n <? maxAttempts
      then retryLoop p current (S n) (Some e) (log ++ evs)
      else (afterLoop (Some e), log ++ evs).
Proof.
  intros Hn He. unfold attemptError in He.
  funelim (retryLoop p current n lastError log); try contradiction;
    try match goal with
        | H : verifyLoop ?p ?a ?c ?ks = (?evs, _) |- _ =>
            let E := fresh "E" in
            pose proof (verifyLoop_no_update p a c ks) as E;
            rewrite H in E; cbn [fst] in E; rewrite H in He
        end;
    repeat match goal with
           | H : authUpdateUser _ _ = _ |- _ => rewrite H in He; clear H
           end;
    cbn [snd] in He; try discriminate; injection He as ->.
  - eexists. split; [|destruct (S updateAttempts <? maxAttempts) eqn:E;
                       [reflexivity|]].
    + rewrite updateCalls_cons, pause_no_update. reflexivity.
    + apply retryLoop_done. apply Nat.ltb_ge in E. lia.
  - exists [UpdateCall (S updateAttempts); Sleep 1000].
    split; [reflexivity|].
    destruct (Nat.ltb_spec (S updateAttempts) maxAttempts); [reflexivity|lia].
  - exists [UpdateCall (S updateAttempts)]. split; [reflexivity|].
    destruct (Nat.ltb_spec (S updateAttempts) maxAttempts); [lia|reflexivity].
  - eexists. split; [|destruct (S updateAttempts <? maxAttempts) eqn:E';
                       [reflexivity|]].
    + rewrite updateCalls_cons, updateCalls_app, E, pause_no_update.
      reflexivity.
    + apply retryLoop_done. apply Nat.ltb_ge in E'. lia.
Qed.

(** C9. The auth-update loop of [updateUser], defined by recursion on the
    attempts that remain and so always returning, calls the remote update
    at most three times, with the counter going 1, 2, 3; after a third
    failed attempt it stops and returns the message of the last error. *)
Theorem updateUser_retry_bounded (p : Provider) :
  let r := updateUser p in
  (exists k, k <= 3 /\ updateCalls (snd r) = seq 1 k) /\
  (forall current e1 e2 e3,
      getSession p = Session current ->
      attemptError p current 1 = Some e1 ->
      attemptError p current 2 = Some e2 ->
      attemptError p current 3 = Some e3 ->
      fst r = {| success := false; error := Some (message e3) |} /\
      updateCalls (snd r) = [1; 2; 3]).
Proof.
  intros r. unfold r, updateUser. split.
  - destruct (getSession p) as [| |current|e];
      try (exists 0; split; [lia | reflexivity]).
    destruct (retryLoop_calls p current 0 None []) as (k & Hk & E).
    exists k. split; [exact Hk | exact E].
  - intros current e1 e2 e3 Hs H1 H2 H3. rewrite Hs.
    destruct (retryLoop_failed p current 0 None [] e1) as (v1 & C1 & ->);
      [unfold maxAttempts; lia | exact H1 |].
    cbn [Nat.ltb Nat.leb maxAttempts].
    destruct (retryLoop_failed p current 1 (Some e1) ([] ++ v1) e2)
      as (v2 & C2 & ->); [unfold maxAttempts; lia | exact H2 |].
    cbn [Nat.ltb Nat.leb maxAttempts].
    destruct (retryLoop_failed p current 2 (Some e2) (([] ++ v1) ++ v2) e3)
      as (v3 & C3 & ->); [unfold maxAttempts; lia | exact H3 |].
    cbn [Nat.ltb Nat.leb maxAttempts fst snd afterLoop].
    split; [reflexivity|].
    rewrite !updateCalls_app, C1, C2, C3. reflexivity.
Qed.

Lemma updateUser_retry_bounded_witness :
  getSession failingProvider = Session (Js.lit "{}") /\
  attemptError failingProvider (Js.lit "{}") 1
  = Some {| message := Js.lit "rate limit 1" |} /\
  attemptError failingProvider (Js.lit "{}") 2
  = Some {| message := Js.lit "rate limit 2" |} /\
  attemptError failingProvider (Js.lit "{}") 3
  = Some {| message := Js.lit "rate limit 3" |} /\
  fst (updateUser failingProvider)
  = {| success := false; error := Some (Js.lit "rate limit 3") |} /\
  updateCalls (snd (updateUser failingProvider)) = [1; 2; 3].
Proof.
  split; [reflexivity|].
  split; [reflexivity|]. split; [reflexivity|]. split; [reflexivity|].
  destruct (updateUser_retry_bounded failingProvider) as (_ & H).
  apply (H _ _ _ _ eq_refl eq_refl eq_refl eq_refl).
Defined.

End AuthFacts.

(* ===================================================================== *)
(** * Further properties of the code around the claims *)
(* ===================================================================== *)

(** ** Trimming *)

Lemma trim_idempotent (s : jsstring) : Js.trim (Js.trim s) = Js.trim s.
Proof.
  symmetry. apply Trimmed_trim.
  destruct (trim_Trimmed s) as (_ & Hhead & Hlast).
  split; [|split; assumption].
  exists [], []. rewrite app_nil_r. repeat split; constructor.
Qed.

Lemma trim_head (s : jsstring) c t :
  Js.trim s = c :: t -> Js.isWhiteSpace c = false.
Proof.
  intros E. destruct (trim_Trimmed s) as (_ & Hhead & _).
  specialize (Hhead c t E). unfold Spec.blank in Hhead.
  destruct (Js.isWhiteSpace c); congruence.
Qed.

Lemma trim_last (s : jsstring) c t :
  Js.trim s = t ++ [c] -> Js.isWhiteSpace c = false.
Proof.
  intros E. destruct (trim_Trimmed s) as (_ & _ & Hlast).
  specialize (Hlast c t E). unfold Spec.blank in Hlast.
  destruct (Js.isWhiteSpace c); congruence.
Qed.

(** ** hooks/useChat.ts: rename, delete, new chat *)

Section ChatOpsFacts.
Import Gemini Chat ChatOps.

Lemma flat_map_filter {A B} (p : A -> bool) (g : A -> B) (l : list A) :
  flat_map (fun x => if p x then [g x] else []) l = map g (filter p l).
Proof.
  induction l as [|x l IH]; simpl; [reflexivity|].
  destruct (p x); simpl; rewrite IH; reflexivity.
Qed.

Lemma updateConversation_effects u id f st :
  effects (updateConversation (Some u) id f st)
  = effects st
    ++ map (fun c => Upsert (f c))
           (filter (fun c => Js.eqb (conv_id c) id) (conversations st)).
Proof.
  unfold updateConversation. cbn [effects emit setConversations]. f_equal.
  unfold saveConversationToDB. apply flat_map_filter.
Qed.

Lemma updateConversation_In u id f st c' :
  In c' (conversations (updateConversation u id f st)) ->
  exists c, In c (conversations st)
            /\ c' = if Js.eqb (conv_id c) id then f c else c.
Proof.
  rewrite updateConversation_conversations, in_map_iff.
  intros (c & <- & Hc). exists c. auto.
Qed.

(** X1. Renaming changes titles only: every conversation keeps its place, id,
    messages and creation time; those with the given id get the new title
    and are saved with it, the others are untouched. *)
Theorem renameConversation_frame (u : User) (id newTitle : jsstring)
        (st : ChatState) :
  let st' := renameConversation (Some u) id newTitle st in
  activeConversationId st' = activeConversationId st /\
  Forall2 (fun c c' =>
             conv_id c' = conv_id c /\
             conv_messages c' = conv_messages c /\
             conv_createdAt c' = conv_createdAt c /\
             (conv_id c = id -> conv_title c' = newTitle) /\
             (conv_id c <> id -> c' = c))
          (conversations st) (conversations st') /\
  effects st'
  = effects st
    ++ map Upsert (filter (fun c => Js.eqb (conv_id c) id)
                          (conversations st')).
Proof.
  intros st'. subst st'. unfold renameConversation.
  split; [reflexivity|]. split.
  - rewrite updateConversation_conversations.
    induction (conversations st) as [|c l IH]; simpl; constructor; auto.
    destruct (Js.eqb (conv_id c) id) eqn:E.
    + apply js_eqb_eq in E. cbn. repeat split; auto. congruence.
    + apply js_eqb_neq in E. repeat split; auto. congruence.
  - rewrite updateConversation_effects, updateConversation_conversations.
    f_equal.
    induction (conversations st) as [|c l IH]; simpl; [reflexivity|].
    destruct (Js.eqb (conv_id c) id) eqn:E; cbn [conv_id setTitle];
      rewrite E; simpl; rewrite IH; reflexivity.
Qed.

(** X2. Saving a title from the sidebar: a blank or unchanged title changes
    nothing and saves nothing; otherwise the conversations with the id of
    the edited item get the trimmed title, which is not empty and has no
    whitespace left around it. *)
Theorem handleSave_trimmed (u : User) (conversation : Conversation)
        (title : jsstring) (st : ChatState) :
  let st' := handleSave (Some u) conversation title st in
  (Js.trim title = [] \/ Js.trim title = conv_title conversation ->
   st' = st) /\
  (Js.trim title <> [] -> Js.trim title <> conv_title conversation ->
   st' = renameConversation (Some u) (conv_id conversation) (Js.trim title) st
   /\ Js.trim (Js.trim title) = Js.trim title
   /\ forall c, In c (conversations st') ->
                conv_id c = conv_id conversation ->
                conv_title c = Js.trim title /\ conv_title c <> []).
Proof.
  intros st'. subst st'. unfold handleSave. split.
  - intros [E | E].
    + rewrite E. reflexivity.
    + rewrite E, js_eqb_refl, andb_false_r. reflexivity.
  - intros Hne Hdiff.
    assert (Ht : Js.truthy (Js.trim title) = true)
      by (destruct (Js.trim title); [congruence | reflexivity]).
    apply js_eqb_neq in Hdiff. rewrite Ht, Hdiff. cbn [andb negb].
    split; [reflexivity|]. split; [apply trim_idempotent|].
    intros c' Hc Hid. unfold renameConversation in Hc.
    apply updateConversation_In in Hc as (c & _ & ->).
    destruct (Js.eqb (conv_id c) (conv_id conversation)) eqn:E.
    + split; [reflexivity | exact Hne].
    + apply js_eqb_neq in E. contradiction.
Qed.

Lemma find_filter_other id a (l : list Conversation) :
  a <> id ->
  findConversation a (filter (fun c => negb (Js.eqb (conv_id c) id)) l)
  = findConversation a l.
Proof.
  intros Hne. unfold findConversation.
  induction l as [|c l IH]; simpl; [reflexivity|].
  destruct (Js.eqb (conv_id c) id) eqn:E; simpl.
  - apply js_eqb_eq in E.
    assert (Js.eqb (conv_id c) a = false) as ->
        by (apply js_eqb_neq; congruence).
    exact IH.
  - destruct (Js.eqb (conv_id c) a); [reflexivity | exact IH].
Qed.

Lemma find_filter_self id (l : list Conversation) :
  findConversation id (filter (fun c => negb (Js.eqb (conv_id c) id)) l)
  = None.
Proof.
  unfold findConversation.
  induction l as [|c l IH]; simpl; [reflexivity|].
  destruct (Js.eqb (conv_id c) id) eqn:E; simpl; [exact IH|].
  rewrite E. exact IH.
Qed.

Lemma optionEqb_true a b : optionEqb a b = true <-> b = Some a.
Proof.
  destruct b as [b|]; simpl; [|split; discriminate].
  rewrite js_eqb_eq. split; congruence.
Qed.

(** X3. Deleting a conversation: unless the store deleted it without error,
    nothing changes; when it did, exactly the conversations with that id
    leave the list, and the active conversation is cleared if it was the
    deleted one and kept otherwise, so what is active is never a deleted
    chat. *)
Theorem deleteConversation_removes (u : User) (outcome : Outcome)
        (id : jsstring) (st : ChatState) :
  let st' := deleteConversation (Some u) outcome id st in
  (outcome <> Ok -> st' = st) /\
  (outcome = Ok ->
   Spec.Purged (fun c => conv_id c = id)
               (conversations st) (conversations st') /\
   findConversation id (conversations st') = None /\
   (activeConversationId st = Some id -> activeConversationId st' = None) /\
   (activeConversationId st <> Some id ->
    activeConversationId st' = activeConversationId st
    /\ activeConversation st' = activeConversation st) /\
   effects st' = effects st).
Proof.
  intros st'. subst st'. unfold deleteConversation. split.
  - destruct outcome; [congruence | reflexivity | reflexivity].
  - intros ->.
    assert (Hc : forall b : bool,
               conversations
                 (if b
                  then setActiveConversationId None
                         (setConversations
                            (filter (fun c => negb (Js.eqb (conv_id c) id)))
                            st)
                  else setConversations
                         (filter (fun c => negb (Js.eqb (conv_id c) id))) st)
               = filter (fun c => negb (Js.eqb (conv_id c) id))
                        (conversations st))
      by (intros [|]; reflexivity).
    rewrite Hc. split; [|split; [|split; [|split]]].
    + apply filter_Purged. intros c _. rewrite negb_false_iff.
      apply js_eqb_eq.
    + apply find_filter_self.
    + intros Ha. rewrite (proj2 (optionEqb_true id _) Ha). reflexivity.
    + intros Ha.
      destruct (optionEqb id (activeConversationId st)) eqn:E;
        [apply optionEqb_true in E; contradiction|].
      split; [reflexivity|]. unfold activeConversation.
      cbn [activeConversationId conversations setConversations].
      destruct (activeConversationId st) as [a|]; [|reflexivity].
      apply find_filter_other. congruence.
    + destruct (optionEqb id (activeConversationId st)); reflexivity.
Qed.

(** *** A new chat *)

Lemma setMessageText_twice aiId t1 t2 (ms : list Message) :
  map (fun m => if Js.eqb (msg_id m) aiId then withText t2 m else m)
      (map (fun m => if Js.eqb (msg_id m) aiId then withText t1 m else m) ms)
  = map (fun m => if Js.eqb (msg_id m) aiId then withText t2 m else m) ms.
Proof.
  rewrite map_map. apply map_ext. intros m.
  destruct (Js.eqb (msg_id m) aiId) eqn:E; cbn [msg_id withText];
    rewrite E; reflexivity.
Qed.

(** The whole list after the chunks: as after one update with the full
    text. *)
Lemma consumeStream_conversations u cid aiId chunks : forall acc st,
  fst (consumeStream u cid aiId chunks acc st) = acc ++ Js.concat chunks /\
  activeConversationId (snd (consumeStream u cid aiId chunks acc st))
  = activeConversationId st /\
  isLoading (snd (consumeStream u cid aiId chunks acc st)) = isLoading st /\
  conversations (snd (consumeStream u cid aiId chunks acc st))
  = match chunks with
    | [] => conversations st
    | _ :: _ =>
        map (fun c => if Js.eqb (conv_id c) cid
                      then setMessageText aiId (acc ++ Js.concat chunks) c
                      else c)
            (conversations st)
    end.
Proof.
  induction chunks as [|chunk rest IH]; intros acc st.
  - cbn. rewrite app_nil_r. auto.
  - cbn [consumeStream].
    destruct (IH (acc ++ chunk)
                 (updateConversation (Some u) cid
                    (setMessageText aiId (acc ++ chunk)) st))
      as (E1 & E2 & E3 & E4).
    unfold Js.concat in *. cbn [List.concat].
    rewrite E1, E2, E3, E4, app_assoc. repeat split.
    destruct rest as [|c2 rest'].
    + cbn [List.concat]. rewrite !app_nil_r. reflexivity.
    + rewrite updateConversation_conversations, map_map.
      apply map_ext. intros c.
      destruct (Js.eqb (conv_id c) cid) eqn:E; cbn [conv_id setMessageText];
        rewrite ?E; [|reflexivity].
      unfold setMessageText. cbn [conv_id conv_title conv_messages
                                   conv_createdAt].
      rewrite setMessageText_twice. reflexivity.
Qed.

Lemma map_untouched {A} (p : A -> bool) (f : A -> A) (l : list A) :
  Forall (fun x => p x = false) l ->
  map (fun x => if p x then f x else x) l = l.
Proof.
  induction 1 as [|x l Hx _ IH]; simpl; [reflexivity|].
  rewrite Hx, IH. reflexivity.
Qed.

(** *** What is saved is what is shown *)

Lemma replay_app now a b rows :
  replay now (a ++ b) rows = replay now b (replay now a rows).
Proof. unfold replay. apply fold_left_app. Qed.

Lemma upsertChat_ids now c rows :
  NoDup (map row_id rows) -> NoDup (map row_id (upsertChat now c rows)).
Proof.
  induction rows as [|r rows IH]; intros H; simpl.
  - constructor; [intros [] | constructor].
  - destruct (Js.eqb (row_id r) (conv_id c)) eqn:E; [exact H|].
    inversion H as [|? ? Hn Hd]; subst. simpl. constructor; [|auto].
    intros Hin. apply Hn. clear - Hin E.
    induction rows as [|x rows IH]; simpl in *.
    + destruct Hin as [Hin|[]]. apply js_eqb_neq in E. congruence.
    + destruct (Js.eqb (row_id x) (conv_id c)); simpl in *; tauto.
Qed.

Lemma replay_ids now es : forall rows,
  NoDup (map row_id rows) -> NoDup (map row_id (replay now es rows)).
Proof.
  unfold replay. induction es as [|e es IH]; intros rows H; simpl; auto.
  apply IH. destruct e; auto. apply upsertChat_ids. exact H.
Qed.

Lemma filter_absent id (rows : list ChatRow) :
  ~ In id (map row_id rows) ->
  filter (fun r => Js.eqb (row_id r) id) rows = [].
Proof.
  induction rows as [|r rows IH]; simpl; [reflexivity|]. intros H.
  assert (Js.eqb (row_id r) id = false) as ->
      by (apply js_eqb_neq; tauto).
  apply IH. tauto.
Qed.

(** A saved conversation is read back with its title and messages. *)
Lemma selectChat_upsert now c rows :
  NoDup (map row_id rows) ->
  exists row,
    selectChat (conv_id c) (upsertChat now c rows) = Some row /\
    row_id row = conv_id c /\
    row_title row = conv_title c /\
    row_messages row = Some (conv_messages c).
Proof.
  unfold selectChat. induction rows as [|r rows IH]; intros H; simpl.
  - rewrite js_eqb_refl. eexists. split; [reflexivity|]. auto.
  - inversion H as [|? ? Hn Hd]; subst.
    destruct (Js.eqb (row_id r) (conv_id c)) eqn:E; simpl.
    + rewrite E. apply js_eqb_eq in E. rewrite E in Hn.
      rewrite (filter_absent _ _ Hn).
      eexists. split; [reflexivity|]. auto.
    + rewrite E. apply IH. exact Hd.
Qed.

Lemma filter_unique cid (l : list Conversation) c :
  NoDup (map conv_id l) ->
  findConversation cid l = Some c ->
  filter (fun x => Js.eqb (conv_id x) cid) l = [c].
Proof.
  unfold findConversation.
  induction l as [|x l IH]; simpl; [discriminate|]. intros Hnd.
  inversion Hnd as [|? ? Hn Hd]; subst.
  destruct (Js.eqb (conv_id x) cid) eqn:E.
  - intros [= ->]. f_equal. apply js_eqb_eq in E. rewrite E in Hn.
    clear - Hn. induction l as [|y l IH]; simpl; [reflexivity|].
    assert (Js.eqb (conv_id y) cid = false) as ->
        by (apply js_eqb_neq; simpl in Hn; tauto).
    apply IH. simpl in Hn. tauto.
  - intros Hf. apply IH; assumption.
Qed.

Lemma find_id cid (l : list Conversation) c :
  findConversation cid l = Some c -> conv_id c = cid.
Proof.
  unfold findConversation. intros H. apply find_some in H as [_ H].
  apply js_eqb_eq. exact H.
Qed.

Lemma updateConversation_ids u id f st :
  (forall c, conv_id (f c) = conv_id c) ->
  map conv_id (conversations (updateConversation u id f st))
  = map conv_id (conversations st).
Proof.
  intros Hid. rewrite updateConversation_conversations, map_map.
  apply map_ext. intros c. destruct (Js.eqb (conv_id c) id); auto.
Qed.

Lemma updateConversation_saved now u cid f st c :
  (forall x, conv_id (f x) = conv_id x) ->
  NoDup (map conv_id (conversations st)) ->
  findConversation cid (conversations st) = Some c ->
  Saved now cid (updateConversation (Some u) cid f st) (f c).
Proof.
  intros Hid Hnd Hf rows0 H0.
  rewrite updateConversation_effects, (filter_unique _ _ _ Hnd Hf).
  cbn [map]. rewrite replay_app. cbn [replay fold_left].
  pose proof (find_id _ _ _ Hf) as Hc.
  destruct (selectChat_upsert now (f c) (replay now (effects st) rows0)
              (replay_ids now _ _ H0))
    as (row & S1 & S2 & S3 & S4).
  rewrite Hid, Hc in S1, S2. exists row. auto.
Qed.

Lemma consumeStream_saved now u cid aiId chunks : forall acc st c,
  NoDup (map conv_id (conversations st)) ->
  findConversation cid (conversations st) = Some c ->
  Saved now cid st c ->
  exists c',
    findConversation cid
      (conversations (snd (consumeStream u cid aiId chunks acc st)))
    = Some c' /\
    Saved now cid (snd (consumeStream u cid aiId chunks acc st)) c'.
Proof.
  induction chunks as [|chunk rest IH]; intros acc st c Hnd Hf Hs.
  - exists c. auto.
  - cbn [consumeStream].
    apply (IH _ _ (setMessageText aiId (acc ++ chunk) c)).
    + rewrite updateConversation_ids; auto.
    + rewrite updateConversation_conversations.
      apply findConversation_map; auto.
    + apply updateConversation_saved; auto.
Qed.

Lemma find_map_replace cid g (l : list Conversation) c :
  findConversation cid l = Some c ->
  conv_id (g c) = cid ->
  findConversation cid
    (map (fun x => if Js.eqb (conv_id x) cid then g x else x) l)
  = Some (g c).
Proof.
  unfold findConversation. intros Hf Hg.
  induction l as [|x l IH]; simpl in *; [discriminate|].
  destruct (Js.eqb (conv_id x) cid) eqn:E.
  - injection Hf as ->. rewrite Hg, js_eqb_refl. reflexivity.
  - rewrite E. auto.
Qed.

Lemma sendMessage_new_state (env : Env) (u : User)
        (text : jsstring) (file : option File) (img : option jsstring)
        (st : ChatState) :
  let userMessage := userMessageOf env text img in
  let stream :=
    generateResponseStream
      (api env) (streamParams env u text file userMessage None (uuid env)) in
  let full := Js.concat (yielded stream) in
  readImage file = Some img ->
  Forall (fun c => conv_id c <> uuid env) (conversations st) ->
  exists sF,
    sendMessage env (Some u) text file (startNewChat st)
    = {| state :=
           setIsLoading false
             (refreshConversationFromDB (Some u) (fetched env) (uuid env) sF);
         caught := false;
         settled := Returned |} /\
    activeConversationId sF = Some (uuid env) /\
    conversations sF
    = {| conv_id := uuid env;
         conv_title :=
           if Js.truthy full
           then generateTitle (api env) (text ++ [10%N; 10%N] ++ full)
           else Js.lit "New Conversation";
         conv_messages :=
           [userMessage; withText full (aiMessagePlaceholder env)];
         conv_createdAt := now_conv env |}
        :: conversations st /\
    (NoDup (map conv_id (conversations st)) ->
     forall serverNow,
       Saved serverNow (uuid env) sF
             {| conv_id := uuid env;
                conv_title :=
                  if Js.truthy full
                  then generateTitle (api env)
                                     (text ++ [10%N; 10%N] ++ full)
                  else Js.lit "New Conversation";
                conv_messages :=
                  [userMessage; withText full (aiMessagePlaceholder env)];
                conv_createdAt := now_conv env |}).
Proof.
  intros userMessage stream full Himg Hfresh.
  assert (Hun : Forall (fun c => Js.eqb (conv_id c) (uuid env) = false)
                       (conversations st)).
  { eapply Forall_impl; [|exact Hfresh]. intros c. apply js_eqb_neq. }
  unfold sendMessage. rewrite Himg.
  unfold placeUserMessage.
  cbn [activeConversationId setIsLoading startNewChat
       setActiveConversationId isActive].
  fold userMessage. fold stream.
  set (sA := emit (saveConversationToDB (Some u)
                                        (newConversationOf env userMessage))
                  _).
  set (s2 := placePlaceholder env u (uuid env) sA).
  rewrite tryBlock_eq. cbv zeta.
  unfold stream at 1. rewrite generateResponseStream_returns.
  set (s2' := emit [StreamRequest (calls stream)] s2).
  destruct (consumeStream_conversations u (uuid env) (aiMessageId env)
              (yielded stream) [] s2') as (E1 & E2 & _ & E4).
  cbn [app] in E1, E4. fold full in E1, E4.
  set (cs := consumeStream u (uuid env) (aiMessageId env) (yielded stream)
                           [] s2') in *.
  assert (H2 : conversations s2'
               = {| conv_id := uuid env;
                    conv_title := Js.lit "New Conversation";
                    conv_messages := [userMessage; aiMessagePlaceholder env];
                    conv_createdAt := now_conv env |}
                   :: conversations st).
  { unfold s2', s2, placePlaceholder. cbn [conversations emit].
    rewrite updateConversation_conversations.
    unfold sA. cbn [conversations emit setActiveConversationId
                    setConversations setIsLoading map newConversationOf
                    conv_id].
    rewrite js_eqb_refl, map_untouched by exact Hun. reflexivity. }
  assert (H3 : conversations (snd cs)
               = {| conv_id := uuid env;
                    conv_title := Js.lit "New Conversation";
                    conv_messages :=
                      [userMessage;
                       withText full (aiMessagePlaceholder env)];
                    conv_createdAt := now_conv env |}
                   :: conversations st).
  { rewrite E4, H2. unfold full.
    destruct (yielded stream) as [|c0 rest]; [reflexivity|].
    cbn [map conv_id]. rewrite js_eqb_refl, map_untouched by exact Hun.
    f_equal. unfold setMessageText. cbn [conv_id conv_title conv_messages
                                         conv_createdAt map msg_id
                                         aiMessagePlaceholder].
    rewrite js_eqb_refl.
    assert (Js.eqb (msg_id userMessage) (aiMessageId env) = false) as ->
        by (apply js_eqb_neq, userMessage_id_fresh).
    reflexivity. }
  assert (Hf3 : findConversation (uuid env) (conversations (snd cs))
                = Some {| conv_id := uuid env;
                          conv_title := Js.lit "New Conversation";
                          conv_messages :=
                            [userMessage;
                             withText full (aiMessagePlaceholder env)];
                          conv_createdAt := now_conv env |}).
  { rewrite H3. unfold findConversation. cbn [find conv_id].
    rewrite js_eqb_refl. reflexivity. }
  assert (Hnew : NoDup (map conv_id (conversations st)) ->
                 NoDup (uuid env :: map conv_id (conversations st))).
  { intros Hnd. constructor; [|exact Hnd].
    intros Hin. apply in_map_iff in Hin as (c & Hc & Hin).
    rewrite Forall_forall in Hfresh. exact (Hfresh c Hin Hc). }
  unfold finishTry. rewrite E1. cbn [andb app].
  destruct (Js.truthy full) eqn:Ht.
  - eexists. split; [reflexivity|]. split; [exact E2|]. split.
    + rewrite updateConversation_conversations. cbn [conversations emit].
      rewrite H3. cbn [map conv_id]. rewrite js_eqb_refl,
        map_untouched by exact Hun.
      reflexivity.
    + intros Hnd serverNow.
      assert (HN : NoDup (map conv_id
                            (conversations
                               (emit [TitleRequest
                                        (text ++ [10%N; 10%N] ++ full)]
                                     (snd cs))))).
      { cbn [conversations emit]. rewrite H3. exact (Hnew Hnd). }
      exact (updateConversation_saved serverNow u (uuid env)
               (setTitle (generateTitle (api env)
                                        (text ++ [10%N; 10%N] ++ full)))
               (emit [TitleRequest (text ++ [10%N; 10%N] ++ full)] (snd cs))
               _ (fun _ => eq_refl) HN Hf3).
  - eexists. split; [reflexivity|]. split; [exact E2|].
    split; [exact H3|].
    intros Hnd serverNow.
    assert (Hf2 : findConversation (uuid env) (conversations s2')
                  = Some {| conv_id := uuid env;
                            conv_title := Js.lit "New Conversation";
                            conv_messages :=
                              [userMessage; aiMessagePlaceholder env];
                            conv_createdAt := now_conv env |}).
    { rewrite H2. unfold findConversation. cbn [find conv_id].
      rewrite js_eqb_refl. reflexivity. }
    assert (Hn2 : NoDup (map conv_id (conversations s2'))).
    { rewrite H2. exact (Hnew Hnd). }
    assert (HfA : findConversation (uuid env) (conversations sA)
                  = Some (newConversationOf env userMessage)).
    { unfold sA. cbn [conversations emit setActiveConversationId
                      setConversations setIsLoading].
      unfold findConversation. cbn [find newConversationOf conv_id].
      rewrite js_eqb_refl. reflexivity. }
    assert (HnA : NoDup (map conv_id (conversations sA))).
    { unfold sA. cbn [conversations emit setActiveConversationId
                      setConversations setIsLoading map newConversationOf
                      conv_id].
      exact (Hnew Hnd). }
    assert (Hs2 : Saved serverNow (uuid env) s2'
                        {| conv_id := uuid env;
                           conv_title := Js.lit "New Conversation";
                           conv_messages :=
                             [userMessage; aiMessagePlaceholder env];
                           conv_createdAt := now_conv env |}).
    { intros rows H. unfold s2'. cbn [effects emit]. rewrite replay_app.
      cbn [replay fold_left].
      apply (updateConversation_saved serverNow u (uuid env)
               (appendMessage (aiMessagePlaceholder env)) sA
               (newConversationOf env userMessage) (fun _ => eq_refl)
               HnA HfA rows H). }
    destruct (consumeStream_saved serverNow u (uuid env) (aiMessageId env)
                (yielded stream) [] s2' _ Hn2 Hf2 Hs2)
      as (c' & Hc' & Hs3).
    fold cs in Hc', Hs3. rewrite Hf3 in Hc'. injection Hc' as <-.
    exact Hs3.
Qed.


(** X4. Sending after [startNewChat].  The call returns with loading
    off and the new conversation, under the random id, as the active one,
    in front of the others, which stay as they are.  What it shows
    depends on the closing select: if it gives no row, the conversation
    holds the user message, with the prompt and the attachment, and one
    assistant message with the concatenated chunks, under the generated
    title when the response is not empty and the default one otherwise;
    if it gives a row, the conversation is that row.  With unique ids,
    the row that the save requests of the call leave, once served in
    order, carries this very title and these messages, so the
    conversation shows them too when the select gives that row.  The
    random id is assumed new among the conversation ids. *)
Theorem sendMessage_new_conversation (env : Env) (u : User)
        (text : jsstring) (file : option File) (img : option jsstring)
        (st : ChatState) :
  let userMessage := userMessageOf env text img in
  let stream :=
    generateResponseStream
      (api env) (streamParams env u text file userMessage None (uuid env)) in
  let full := List.concat (yielded stream) in
  let title :=
    if Js.truthy full
    then generateTitle (api env) (text ++ [10%N; 10%N] ++ full)
    else Js.lit "New Conversation" in
  readImage file = Some img ->
  Forall (fun c => conv_id c <> uuid env) (conversations st) ->
  let r := sendMessage env (Some u) text file (startNewChat st) in
  settled r = Returned /\
  caught r = false /\
  isLoading (state r) = false /\
  activeConversationId (state r) = Some (uuid env) /\
  exists shown um am,
    conversations (state r) = shown :: conversations st /\
    msg_sender um = USER /\ msg_text um = text /\ msg_image um = img /\
    msg_sender am = AI /\ msg_text am = full /\
    msg_id am = aiMessageId env /\
    (fetched env = None ->
     conv_id shown = uuid env /\
     conv_title shown = title /\
     conv_messages shown = [um; am] /\
     conv_createdAt shown = now_conv env) /\
    (forall data, fetched env = Some data -> shown = ofRow data) /\
    (forall serverNow rows0,
        NoDup (map conv_id (conversations st)) ->
        NoDup (map row_id rows0) ->
        exists row,
          selectChat (uuid env)
                     (replay serverNow (effects (state r)) rows0)
          = Some row /\
          row_id row = uuid env /\
          row_title row = title /\
          row_messages row = Some [um; am] /\
          (fetched env = Some row ->
           conv_title shown = title /\ conv_messages shown = [um; am])).
Proof.
  intros userMessage stream full title Himg Hfresh r.
  assert (Hun : Forall (fun c => Js.eqb (conv_id c) (uuid env) = false)
                       (conversations st)).
  { eapply Forall_impl; [|exact Hfresh]. intros c. apply js_eqb_neq. }
  destruct (sendMessage_new_state env u text file img st Himg Hfresh)
    as (sF & E & Ha & Hc & Hsaved).
  fold userMessage in Hc, Hsaved. fold stream in Hc, Hsaved.
  change (Js.concat (yielded stream)) with full in Hc, Hsaved.
  fold title in Hc, Hsaved. fold r in E.
  assert (Hst : conversations (state r)
                = match fetched env with
                  | Some data => ofRow data
                  | None => {| conv_id := uuid env;
                               conv_title := title;
                               conv_messages :=
                                 [userMessage;
                                  withText full (aiMessagePlaceholder env)];
                               conv_createdAt := now_conv env |}
                  end :: conversations st).
  { rewrite E. unfold refreshConversationFromDB.
    destruct (fetched env) as [data|];
      cbn [state conversations setIsLoading setConversations emit];
      rewrite Hc; [|reflexivity].
    cbn [map conv_id]. rewrite js_eqb_refl, map_untouched by exact Hun.
    reflexivity. }
  assert (Heff : effects (state r)
                 = effects sF ++ [SelectChat (uuid env)]).
  { rewrite E. unfold refreshConversationFromDB.
    destruct (fetched env); reflexivity. }
  split; [rewrite E; reflexivity|]. split; [rewrite E; reflexivity|].
  split; [rewrite E; reflexivity|].
  split.
  { rewrite E. unfold refreshConversationFromDB.
    destruct (fetched env); exact Ha. }
  eexists. exists userMessage, (withText full (aiMessagePlaceholder env)).
  split; [exact Hst|].
  repeat (split; [reflexivity|]).
  split; [intros ->; repeat split; reflexivity|].
  split; [intros data ->; reflexivity|].
  intros serverNow rows0 Hnd Hrows.
  destruct (Hsaved Hnd serverNow rows0 Hrows) as (row & S1 & S2 & S3 & S4).
  exists row. rewrite Heff, replay_app. cbn [replay fold_left].
  split; [exact S1|]. split; [exact S2|]. split; [exact S3|].
  split; [exact S4|].
  intros ->. cbn [ofRow conv_title conv_messages].
  rewrite S3, S4. split; reflexivity.
Qed.

(** X5. A message sent on an existing conversation is saved in full: once
    the save requests of the call have been served in order, the row of
    the conversation holds its title and the previous messages followed by
    the user message and the complete assistant message; and when the
    closing select answers with that row, or not at all, the conversation
    shown holds these same messages.  Conversation ids and row ids are
    unique; the placeholder id is new in the conversation. *)
Theorem sendMessage_saves_what_it_shows
        (env : Env) (u : User) (text : jsstring) (file : option File)
        (img : option jsstring) (st : ChatState) (cid : jsstring)
        (conv : Conversation) (serverNow : Z) (rows0 : list ChatRow) :
  readImage file = Some img ->
  activeConversationId st = Some cid ->
  Js.truthy cid = true ->
  findConversation cid (conversations st) = Some conv ->
  Forall (fun m => msg_id m <> aiMessageId env) (conv_messages conv) ->
  NoDup (map conv_id (conversations st)) ->
  NoDup (map row_id rows0) ->
  let userMessage := userMessageOf env text img in
  let stream :=
    generateResponseStream
      (api env)
      (streamParams env u text file userMessage (Some cid) cid) in
  let final :=
    conv_messages conv
    ++ [userMessage;
        withText (Js.concat (yielded stream)) (aiMessagePlaceholder env)] in
  let r := sendMessage env (Some u) text file st in
  exists row,
    selectChat cid (replay serverNow (effects (state r)) rows0) = Some row /\
    row_title row = conv_title conv /\
    row_messages row = Some final /\
    (fetched env = Some row \/ fetched env = None ->
     option_map conv_messages (activeConversation (state r)) = Some final).
Proof.
  intros Himg Ha Ht Hf Hfresh Hnd H0 userMessage stream final r.
  set (s1 := updateConversation (Some u) cid (appendMessage userMessage)
                                (setIsLoading true st)).
  set (s2 := placePlaceholder env u cid s1).
  set (s2' := emit [StreamRequest (calls stream)] s2).
  set (cs := consumeStream u cid (aiMessageId env) (yielded stream) [] s2').
  assert (Er : r = {| state :=
                        setIsLoading false
                          (refreshConversationFromDB (Some u) (fetched env)
                                                     cid (snd cs));
                      caught := false;
                      settled := Returned |}).
  { unfold r, sendMessage. rewrite Himg. unfold placeUserMessage.
    cbn [activeConversationId setIsLoading]. unfold isActive.
    rewrite Ha, Ht. fold userMessage. fold s1. fold s2. fold stream.
    rewrite tryBlock_eq. cbv zeta. fold s2'. fold cs.
    unfold stream at 1. rewrite generateResponseStream_returns.
    unfold finishTry. cbn [andb]. reflexivity. }
  assert (Hf1 : findConversation cid (conversations s1)
                = Some (appendMessage userMessage conv)).
  { unfold s1. rewrite updateConversation_conversations.
    apply findConversation_map; auto. }
  assert (Hn1 : NoDup (map conv_id (conversations s1))).
  { unfold s1. rewrite updateConversation_ids; auto. }
  assert (Hf2 : findConversation cid (conversations s2')
                = Some (appendMessage (aiMessagePlaceholder env)
                                      (appendMessage userMessage conv))).
  { unfold s2', s2, placePlaceholder. cbn [conversations emit].
    rewrite updateConversation_conversations.
    apply findConversation_map; auto. }
  assert (Hn2 : NoDup (map conv_id (conversations s2'))).
  { unfold s2', s2, placePlaceholder. cbn [conversations emit].
    rewrite updateConversation_ids; auto. }
  assert (Hs2 : Saved serverNow cid s2'
                      (appendMessage (aiMessagePlaceholder env)
                                     (appendMessage userMessage conv))).
  { intros rows H. unfold s2'. cbn [effects emit]. rewrite replay_app.
    cbn [replay fold_left].
    apply (updateConversation_saved serverNow u cid
             (appendMessage (aiMessagePlaceholder env)) s1 _);
      auto. }
  destruct (consumeStream_saved serverNow u cid (aiMessageId env)
              (yielded stream) [] s2' _ Hn2 Hf2 Hs2)
    as (c' & Hf3 & Hs3).
  fold cs in Hf3, Hs3.
  assert (Hprev : Forall (fun m => msg_id m <> aiMessageId env)
                         (conv_messages conv ++ [userMessage])).
  { apply Forall_app; split; [assumption|].
    constructor; [apply userMessage_id_fresh | constructor]. }
  destruct (consumeStream_spec u cid (aiMessageId env) (yielded stream)
              [] s2' _ (conv_messages conv ++ [userMessage])
              (aiMessagePlaceholder env) Ha Hf2
              ltac:(cbn; rewrite <- app_assoc; reflexivity) Hprev eq_refl)
    as (_ & Ha3 & c'' & F1 & _ & F3 & _ & F5).
  fold cs in Ha3, F1. rewrite Hf3 in F1. injection F1 as <-.
  assert (Hfinal : conv_messages c' = final).
  { rewrite F5. unfold final. rewrite <- app_assoc. cbn [app].
    destruct (yielded stream); reflexivity. }
  destruct (Hs3 rows0 H0) as (row & S1 & S2 & S3 & S4).
  exists row. rewrite Er. cbn [state].
  assert (Heff : effects (setIsLoading false
                            (refreshConversationFromDB
                               (Some u) (fetched env) cid (snd cs)))
                 = effects (snd cs) ++ [SelectChat cid]).
  { unfold refreshConversationFromDB. destruct (fetched env); reflexivity. }
  rewrite Heff, replay_app. cbn [replay fold_left].
  split; [exact S1|]. split; [rewrite S3; exact F3|].
  split; [rewrite S4, Hfinal; reflexivity|].
  intros [Hfe | Hfe]; rewrite Hfe; unfold refreshConversationFromDB,
    activeConversation;
    cbn [activeConversationId conversations setIsLoading setConversations
         emit]; rewrite Ha3.
  - rewrite (find_map_replace cid _ _ c' Hf3) by exact S2.
    cbn [option_map conv_messages]. rewrite S4, Hfinal. reflexivity.
  - rewrite Hf3. cbn [option_map]. rewrite Hfinal. reflexivity.
Qed.

End ChatOpsFacts.

Section ChatOpsWitnesses.
Import Gemini Chat ChatOps Examples.

Ltac lit_neq := apply js_eqb_neq; reflexivity.

Lemma renameConversation_frame_witness :
  activeConversationId
    (renameConversation (Some ada) (Js.lit "c1") (Js.lit "Plans") st1)
  = Some (Js.lit "c1") /\
  effects (renameConversation (Some ada) (Js.lit "c1") (Js.lit "Plans") st1)
  = [Upsert {| conv_id := Js.lit "c1";
               conv_title := Js.lit "Plans";
               conv_messages := [oldMessage];
               conv_createdAt := 1 |}].
Proof.
  destruct (renameConversation_frame ada (Js.lit "c1") (Js.lit "Plans") st1)
    as (H1 & _ & H3).
  split; [exact H1 | exact H3].
Defined.

Lemma handleSave_trimmed_witness :
  Js.trim (Js.lit "  Plans ") <> [] /\
  Js.trim (Js.lit "  Plans ") <> conv_title conv1 /\
  handleSave (Some ada) conv1 (Js.lit "  Plans ") st1
  = renameConversation (Some ada) (Js.lit "c1") (Js.lit "Plans") st1 /\
  handleSave (Some ada) conv1 (Js.lit " Greetings ") st1 = st1.
Proof.
  assert (H1 : Js.trim (Js.lit "  Plans ") <> []) by lit_neq.
  assert (H2 : Js.trim (Js.lit "  Plans ") <> conv_title conv1) by lit_neq.
  split; [exact H1|]. split; [exact H2|]. split.
  - destruct (handleSave_trimmed ada conv1 (Js.lit "  Plans ") st1)
      as (_ & H).
    destruct (H H1 H2) as (E & _). exact E.
  - destruct (handleSave_trimmed ada conv1 (Js.lit " Greetings ") st1)
      as (H & _).
    apply H. right. reflexivity.
Defined.

Lemma deleteConversation_removes_witness :
  Spec.Purged (fun c => conv_id c = Js.lit "c1") [conv2; conv1] [conv2] /\
  activeConversationId (deleteConversation (Some ada) Ok (Js.lit "c1") st1)
  = None /\
  deleteConversation (Some ada) Throws (Js.lit "c1") st1 = st1.
Proof.
  destruct (deleteConversation_removes ada Ok (Js.lit "c1") st1) as (_ & H).
  destruct (H eq_refl) as (P & _ & A & _).
  split; [exact P|]. split; [exact (A eq_refl)|].
  destruct (deleteConversation_removes ada Throws (Js.lit "c1") st1)
    as (K & _).
  apply K. discriminate.
Defined.

Lemma sendMessage_new_conversation_witness :
  readImage None = Some None /\
  Forall (fun c => conv_id c <> uuid (envOf helloApi)) (conversations st1) /\
  fetched (envOf helloApi) = None /\
  exists shown um am,
    conversations
      (state (sendMessage (envOf helloApi) (Some ada) (Js.lit "Hi") None
                          (startNewChat st1)))
    = shown :: conversations st1 /\
    conv_id shown = Js.lit "c9" /\
    conv_title shown = Js.lit "Greeting" /\
    conv_messages shown = [um; am] /\
    msg_text um = Js.lit "Hi" /\
    msg_text am = Js.lit "Hello".
Proof.
  assert (Hf : Forall (fun c => conv_id c <> uuid (envOf helloApi))
                      (conversations st1)).
  { repeat constructor; lit_neq. }
  split; [reflexivity|]. split; [exact Hf|]. split; [reflexivity|].
  destruct (sendMessage_new_conversation
              (envOf helloApi) ada (Js.lit "Hi") None None st1 eq_refl Hf)
    as (_ & _ & _ & _ & shown & um & am & C & _ & U2 & _ & _ & A2 & _
        & N & _).
  destruct (N eq_refl) as (I & T & M & _).
  exists shown, um, am.
  split; [exact C|]. split; [exact I|]. split; [exact T|].
  split; [exact M|]. split; [exact U2 | exact A2].
Defined.

Lemma sendMessage_saves_what_it_shows_witness :
  readImage None = Some None /\
  activeConversationId st1 = Some (Js.lit "c1") /\
  Js.truthy (Js.lit "c1") = true /\
  findConversation (Js.lit "c1") (conversations st1) = Some conv1 /\
  Forall (fun m => msg_id m <> aiMessageId (envOf helloApi))
         (conv_messages conv1) /\
  NoDup (map conv_id (conversations st1)) /\
  NoDup (map row_id (@nil ChatRow)) /\
  exists row,
    selectChat (Js.lit "c1")
      (replay 5
         (effects (state (sendMessage (envOf helloApi) (Some ada)
                                      (Js.lit "Hi") None st1))) [])
    = Some row /\
    row_title row = Js.lit "Greetings" /\
    row_messages row
    = Some [oldMessage;
            userMessageOf (envOf helloApi) (Js.lit "Hi") None;
            withText (Js.lit "Hello")
                     (aiMessagePlaceholder (envOf helloApi))].
Proof.
  assert (Hfresh : Forall (fun m => msg_id m <> aiMessageId (envOf helloApi))
                          (conv_messages conv1)).
  { repeat constructor. lit_neq. }
  assert (Hnd : NoDup (map conv_id (conversations st1))).
  { repeat constructor; simpl; [|tauto].
    intros [H|[]]. revert H. lit_neq. }
  assert (Hrows : NoDup (map row_id (@nil ChatRow))) by constructor.
  repeat (split; [first [reflexivity | exact Hfresh | exact Hnd
                        | exact Hrows]|]).
  destruct (sendMessage_saves_what_it_shows
              (envOf helloApi) ada (Js.lit "Hi") None None st1
              (Js.lit "c1") conv1 5 [] eq_refl eq_refl eq_refl eq_refl
              Hfresh Hnd Hrows)
    as (row & S & T & M & _).
  exists row. split; [exact S|]. split; [exact T | exact M].
Defined.

End ChatOpsWitnesses.

(** ** services/geminiService.ts: calls made, and what a title looks like *)

Section GeminiMore.
Import Gemini Spec ChatOps.

(** X6. The generator never calls more than it needs: a primary stream that
    runs to its end is the whole output and the backup is not called;
    otherwise the backup is called once, after the primary, and the output
    is what the primary got out, then what the backup got out, then the
    apology if the backup failed too. *)
Theorem generateResponseStream_calls (api : Api) (p : GenerateContentParams) :
  let contents := buildContents p in
  let r := generateResponseStream api p in
  (forall chunks,
      generateContentStream api PRIMARY_MODEL contents = Streamed chunks true ->
      calls r = [PRIMARY_MODEL] /\ yielded r = chunks) /\
  (forall chunks,
      generateContentStream api PRIMARY_MODEL contents = CallRejected
      /\ chunks = []
      \/ generateContentStream api PRIMARY_MODEL contents
         = Streamed chunks false ->
      calls r = [PRIMARY_MODEL; BACKUP_MODEL] /\
      (forall chunks',
          generateContentStream api BACKUP_MODEL contents
          = Streamed chunks' true ->
          yielded r = chunks ++ chunks') /\
      (forall chunks',
          generateContentStream api BACKUP_MODEL contents = CallRejected
          /\ chunks' = []
          \/ generateContentStream api BACKUP_MODEL contents
             = Streamed chunks' false ->
          yielded r = chunks ++ chunks' ++ [APOLOGY])).
Proof.
  intros contents r.
  pose proof (generateResponseStream_yielded api p) as Hy. cbv zeta in Hy.
  fold contents in Hy. fold r in Hy.
  assert (Hc : calls r
               = if snd (tryModel api PRIMARY_MODEL contents)
                 then [PRIMARY_MODEL] else [PRIMARY_MODEL; BACKUP_MODEL]).
  { unfold r, generateResponseStream. fold contents. cbn [streamModels].
    destruct (tryModel api PRIMARY_MODEL contents) as [c1 [|]];
      [reflexivity|].
    cbn [calls snd].
    destruct (tryModel api BACKUP_MODEL contents) as [c2 [|]]; reflexivity. }
  unfold tryModel in Hy, Hc. split.
  - intros chunks H. rewrite H in Hy, Hc. auto.
  - intros chunks H.
    assert (H1 : match generateContentStream api PRIMARY_MODEL contents with
                 | CallRejected => ([], false)
                 | Streamed c d => (c, d)
                 end = (chunks, false)).
    { destruct H as [[-> ->] | ->]; reflexivity. }
    rewrite H1 in Hy, Hc. split; [exact Hc|]. split.
    + intros chunks' H2. rewrite H2 in Hy. exact Hy.
    + intros chunks' H2. rewrite Hy. f_equal.
      destruct H2 as [[-> ->] | ->]; reflexivity.
Qed.

Lemma Trimmed_Forall (P : N -> Prop) s t :
  Trimmed s t -> Forall P s -> Forall P t.
Proof.
  intros ((l & r & -> & _) & _) H.
  apply Forall_app in H as [_ H]. apply Forall_app in H as [H _]. exact H.
Qed.

Lemma stripMarkup_clean text :
  Forall (fun c => c <> 34%N /\ c <> 42%N /\ c <> 35%N) (stripMarkup text).
Proof.
  unfold stripMarkup. apply Forall_forall. intros c Hc.
  apply filter_In in Hc as [_ Hc].
  rewrite negb_true_iff, !orb_false_iff, !N.eqb_neq in Hc. tauto.
Qed.

(** X7. Whatever the models answer, a generated title holds no double quote,
    asterisk or hash and has no whitespace around it. *)
Theorem generateTitle_clean (api : Api) (conversationSnippet : jsstring) :
  let t := generateTitle api conversationSnippet in
  Forall (fun c => c <> 34%N /\ c <> 42%N /\ c <> 35%N) t /\
  Js.trim t = t.
Proof.
  intros t. subst t. unfold generateTitle. cbn [titleModels].
  rewrite primary_is_not_backup, js_eqb_refl.
  assert (Hd : Forall (fun c => c <> 34%N /\ c <> 42%N /\ c <> 35%N)
                      DEFAULT_TITLE /\ Js.trim DEFAULT_TITLE = DEFAULT_TITLE).
  { split; [|reflexivity].
    apply Forall_forall. intros c Hc. vm_compute in Hc.
    repeat (destruct Hc as [<- | Hc]; [repeat split; discriminate|]).
    destruct Hc. }
  assert (Hs : forall text,
             Forall (fun c => c <> 34%N /\ c <> 42%N /\ c <> 35%N)
                    (Js.trim (stripMarkup text))
             /\ Js.trim (Js.trim (stripMarkup text))
                = Js.trim (stripMarkup text)).
  { intros text. split; [|apply trim_idempotent].
    apply (Trimmed_Forall _ (stripMarkup text));
      [apply trim_Trimmed | apply stripMarkup_clean]. }
  destruct (generateContent api PRIMARY_MODEL _) as [[text|]|]; auto;
    destruct (generateContent api BACKUP_MODEL _) as [[text|]|]; auto.
Qed.

Lemma trim_all_blank s : Forall blank s -> Js.trim s = [].
Proof.
  intros H. unfold Js.trim, Js.trimEnd.
  rewrite (trimStart_all_blank s H). reflexivity.
Qed.

(** X8. A title can come out empty: when the text of the answering model is
    made of markup characters and whitespace only, the title is the empty
    string. *)
Theorem generateTitle_empty (api : Api) (conversationSnippet text : jsstring) :
  generateContent api PRIMARY_MODEL (titlePrompt conversationSnippet)
  = Some (Some text) ->
  Forall (fun c => c = 34%N \/ c = 42%N \/ c = 35%N \/ blank c) text ->
  generateTitle api conversationSnippet = [].
Proof.
  intros H Hall. unfold generateTitle. cbn [titleModels]. rewrite H.
  apply trim_all_blank. unfold stripMarkup.
  apply Forall_forall. intros c Hc. apply filter_In in Hc as [Hin Hc].
  rewrite negb_true_iff, !orb_false_iff, !N.eqb_neq in Hc.
  rewrite Forall_forall in Hall. specialize (Hall c Hin). tauto.
Qed.

(** X9. The name saved with a chat is the name and the surname of the
    user, each without the whitespace around it, joined by a space; the
    one of the two that is not blank when the other is; and [User] when
    both are blank.  So it is never empty and carries no whitespace
    around it. *)
Theorem fullName_present (u : User) :
  fullName u <> [] /\
  Js.trim (fullName u) = fullName u /\
  exists name surname,
    Trimmed (user_name u) name /\
    Trimmed (user_surname u) surname /\
    (name <> [] -> surname <> [] ->
     fullName u = name ++ [32%N] ++ surname) /\
    (name <> [] -> surname = [] -> fullName u = name) /\
    (name = [] -> surname <> [] -> fullName u = surname) /\
    (name = [] -> surname = [] -> fullName u = Js.lit "User").
Proof.
  assert (Hwhat :
            (Js.trim (user_name u) <> [] -> Js.trim (user_surname u) <> [] ->
             fullName u
             = Js.trim (user_name u) ++ [32%N] ++ Js.trim (user_surname u)) /\
            (Js.trim (user_name u) <> [] -> Js.trim (user_surname u) = [] ->
             fullName u = Js.trim (user_name u)) /\
            (Js.trim (user_name u) = [] -> Js.trim (user_surname u) <> [] ->
             fullName u = Js.trim (user_surname u)) /\
            (Js.trim (user_name u) = [] -> Js.trim (user_surname u) = [] ->
             fullName u = Js.lit "User")).
  { unfold fullName.
    destruct (Js.trim (user_name u)) as [|a n];
      destruct (Js.trim (user_surname u)) as [|b s];
      cbn [Js.truthy andb]; repeat split; intros; congruence. }
  split; [|split].
  - unfold fullName.
    destruct (Js.trim (user_name u)) as [|a n];
      destruct (Js.trim (user_surname u)) as [|b s];
      cbn [Js.truthy andb]; discriminate.
  - unfold fullName.
    destruct (Js.trim (user_name u)) as [|a n] eqn:En;
      destruct (Js.trim (user_surname u)) as [|b s] eqn:Es;
      cbn [Js.truthy andb].
    + reflexivity.
    + rewrite <- Es. apply trim_idempotent.
    + rewrite <- En. apply trim_idempotent.
    + symmetry. apply Trimmed_trim.
      split; [|split].
      * exists [], []. rewrite app_nil_r. repeat split; constructor.
      * intros c t' [= <- _]. unfold blank.
        rewrite (trim_head _ _ _ En). discriminate.
      * intros c t' E. unfold blank.
        destruct (exists_last (l := b :: s) ltac:(discriminate))
          as (s' & z & Ez).
        rewrite Ez in E, Es.
        replace ((a :: n) ++ [32%N] ++ s' ++ [z])
          with (((a :: n) ++ [32%N] ++ s') ++ [z]) in E
          by (rewrite <- !app_assoc; reflexivity).
        apply app_inj_tail in E as [_ <-].
        rewrite (trim_last _ _ _ Es). discriminate.
  - exists (Js.trim (user_name u)), (Js.trim (user_surname u)).
    split; [apply trim_Trimmed|]. split; [apply trim_Trimmed|].
    exact Hwhat.
Qed.

End GeminiMore.

Section GeminiWitnesses.
Import Gemini Spec ChatOps Examples MoreExamples.

Lemma generateResponseStream_calls_witness :
  calls (generateResponseStream helloApi params0) = [PRIMARY_MODEL] /\
  yielded (generateResponseStream helloApi params0)
  = [Js.lit "Hel"; Js.lit "lo"] /\
  calls (generateResponseStream backupApi params0)
  = [PRIMARY_MODEL; BACKUP_MODEL] /\
  yielded (generateResponseStream backupApi params0) = [Js.lit "Hi"] /\
  yielded (generateResponseStream downApi params0) = [APOLOGY].
Proof.
  destruct (generateResponseStream_calls helloApi params0) as (H & _).
  destruct (H _ eq_refl) as (H1 & H2).
  destruct (generateResponseStream_calls backupApi params0) as (_ & B).
  destruct (B [] (or_introl (conj eq_refl eq_refl))) as (B1 & B2 & _).
  destruct (generateResponseStream_calls downApi params0) as (_ & D).
  destruct (D [] (or_introl (conj eq_refl eq_refl))) as (_ & _ & D3).
  split; [exact H1|]. split; [exact H2|]. split; [exact B1|].
  split; [exact (B2 _ eq_refl)|].
  exact (D3 [] (or_introl (conj eq_refl eq_refl))).
Defined.

Lemma fullName_present_witness :
  fullName ada = Js.lit "Ada Lovelace" /\
  fullName {| user_id := Js.lit "u3"; user_name := [32; 9]%N;
              user_surname := Js.lit " Hopper "; user_email := [] |}
  = Js.lit "Hopper" /\
  fullName {| user_id := Js.lit "u4"; user_name := [];
              user_surname := [32]%N; user_email := [] |}
  = Js.lit "User".
Proof.
  split; [|split].
  - destruct (fullName_present ada)
      as (_ & _ & name & surname & T1 & T2 & H & _).
    apply Trimmed_trim in T1, T2. subst name surname.
    apply H; apply js_eqb_neq; reflexivity.
  - destruct (fullName_present
                {| user_id := Js.lit "u3"; user_name := [32; 9]%N;
                   user_surname := Js.lit " Hopper "; user_email := [] |})
      as (_ & _ & name & surname & T1 & T2 & _ & _ & H & _).
    apply Trimmed_trim in T1, T2. subst name surname.
    apply H; [reflexivity | apply js_eqb_neq; reflexivity].
  - destruct (fullName_present
                {| user_id := Js.lit "u4"; user_name := [];
                   user_surname := [32]%N; user_email := [] |})
      as (_ & _ & name & surname & T1 & T2 & _ & _ & _ & H).
    apply Trimmed_trim in T1, T2. subst name surname.
    apply H; reflexivity.
Defined.

Lemma generateTitle_empty_witness :
  generateContent markupApi PRIMARY_MODEL (titlePrompt (Js.lit "Hi"))
  = Some (Some [32; 34; 42; 35; 34; 10]%N) /\
  Forall (fun c => c = 34%N \/ c = 42%N \/ c = 35%N \/ blank c)
         [32; 34; 42; 35; 34; 10]%N /\
  generateTitle markupApi (Js.lit "Hi") = [].
Proof.
  assert (Hm : Forall (fun c => c = 34%N \/ c = 42%N \/ c = 35%N \/ blank c)
                      [32; 34; 42; 35; 34; 10]%N).
  { repeat constructor; unfold blank;
      first [ left; reflexivity | right; left; reflexivity
            | right; right; left; reflexivity
            | right; right; right; reflexivity ]. }
  split; [reflexivity|]. split; [exact Hm|].
  exact (generateTitle_empty markupApi (Js.lit "Hi") _ eq_refl Hm).
Defined.

End GeminiWitnesses.


(** ** hooks/useProjects: what a call leaves in the list *)

Section ProjectsMore.
Import Projects ProjectsView.

Lemma withCompleted_same (t : ProjectTask) :
  withCompleted (task_completed t) t = t.
Proof. destruct t; reflexivity. Qed.

Lemma find_task_In id (l : list ProjectTask) cur :
  find (fun t => Js.eqb (task_id t) id) l = Some cur ->
  In cur l /\ task_id cur = id.
Proof.
  intros H. apply find_some in H as [Hin H]. split; [exact Hin|].
  apply js_eqb_eq. exact H.
Qed.

Lemma toggled_find id b (l : list ProjectTask) cur :
  find (fun t => Js.eqb (task_id t) id) l = Some cur ->
  find (fun t => Js.eqb (task_id t) id)
       (map (fun task => if Js.eqb (task_id task) id
                         then withCompleted b task else task) l)
  = Some (withCompleted b cur).
Proof.
  induction l as [|t l IH]; simpl; [discriminate|].
  destruct (Js.eqb (task_id t) id) eqn:E; cbn [task_id withCompleted].
  - rewrite E. intros [= ->]. reflexivity.
  - rewrite E. exact IH.
Qed.

(** Setting the flag found in the list back on the toggled list restores
    the list, when ids are unique. *)
Lemma toggled_back id b (l : list ProjectTask) cur :
  NoDup (map task_id l) ->
  find (fun t => Js.eqb (task_id t) id) l = Some cur ->
  map (fun task => if Js.eqb (task_id task) id
                   then withCompleted (task_completed cur) task else task)
      (map (fun task => if Js.eqb (task_id task) id
                        then withCompleted b task else task) l)
  = l.
Proof.
  intros Hnd Hf. destruct (find_task_In _ _ _ Hf) as [Hin Hid].
  rewrite map_map. rewrite <- (map_id l) at 2. apply map_ext_in.
  intros t Ht. destruct (Js.eqb (task_id t) id) eqn:E;
    cbn [task_id withCompleted]; rewrite E; [|reflexivity].
  apply js_eqb_eq in E.
  assert (t = cur) as ->
      by (apply (NoDup_map_eq task_id l t cur Hnd Ht Hin); congruence).
  destruct cur; reflexivity.
Qed.

Lemma toggled_exact id (l : list ProjectTask) cur :
  NoDup (map task_id l) ->
  find (fun t => Js.eqb (task_id t) id) l = Some cur ->
  Forall2 (fun t t' =>
             (task_id t = id ->
              t' = withCompleted (negb (task_completed t)) t)
             /\ (task_id t <> id -> t' = t))
          l
          (map (fun task =>
                  if Js.eqb (task_id task) id
                  then withCompleted (negb (task_completed cur)) task
                  else task) l).
Proof.
  intros Hnd Hf. destruct (find_task_In _ _ _ Hf) as [Hin Hid].
  assert (Hu : forall t, In t l -> task_id t = id -> t = cur).
  { intros t Ht E. apply (NoDup_map_eq task_id l t cur Hnd Ht Hin).
    congruence. }
  clear Hnd Hf Hin. induction l as [|t l IH]; simpl; constructor.
  - destruct (Js.eqb (task_id t) id) eqn:E.
    + apply js_eqb_eq in E. split; [|congruence]. intros _.
      rewrite (Hu t (or_introl eq_refl) E). reflexivity.
    + apply js_eqb_neq in E. split; [congruence | reflexivity].
  - apply IH. intros x Hx. apply Hu. right. exact Hx.
Qed.

(** X10. [addTask]: a blank text changes nothing; otherwise a failed insert
    takes the temporary task out again and leaves the list as it was, and
    a successful one leaves the saved task in front of the list.  The
    temporary id is assumed not to be in the list already. *)
Theorem addTask_outcomes (u : User) (nowId nowCreated : Z)
        (saved : option SavedTask) (text : jsstring)
        (tasks0 : list ProjectTask) :
  let r := addTask (Some u) nowId nowCreated saved text (fresh tasks0) in
  (Js.trim text = [] -> r = fresh tasks0) /\
  (Js.trim text <> [] ->
   Forall (fun t => task_id t <> Js.lit "temp-" ++ Js.numberToString nowId)
          tasks0 ->
   (saved = None -> tasks r = tasks0) /\
   (forall s, saved = Some s -> tasks r = ofSaved s :: tasks0)).
Proof.
  intros r. subst r. unfold addTask.
  set (tempId := Js.lit "temp-" ++ Js.numberToString nowId). split.
  - intros ->. reflexivity.
  - intros Hne Hfresh.
    assert (Ht : Js.truthy (Js.trim text) = true)
      by (destruct (Js.trim text); [congruence | reflexivity]).
    rewrite Ht. cbn [negb].
    assert (Hun : Forall (fun t => Js.eqb (task_id t) tempId = false) tasks0).
    { eapply Forall_impl; [|exact Hfresh]. intros t. apply js_eqb_neq. }
    split.
    + intros ->. cbn [tasks setIsLoading setTasks await fresh filter task_id].
      rewrite js_eqb_refl. cbn [negb].
      clear - Hun. induction Hun as [|t l Ht _ IH]; simpl; [reflexivity|].
      rewrite Ht. simpl. f_equal. exact IH.
    + intros s ->. cbn [tasks setIsLoading setTasks await fresh map task_id].
      rewrite js_eqb_refl. f_equal.
      clear - Hun. induction Hun as [|t l Ht _ IH]; simpl; [reflexivity|].
      rewrite Ht. f_equal. exact IH.
Qed.

(** X11. [toggleTask]: an id that is not in the list changes nothing and sends
    nothing; for a task in a list with unique ids, an error answer of the
    store puts the list back exactly as it was, while on success, and
    also when the request throws, the list stays with that one task
    flipped. *)
Theorem toggleTask_outcomes (u : User) (outcome : Outcome) (id : jsstring)
        (tasks0 : list ProjectTask) :
  let r := toggleTask (Some u) outcome id (fresh tasks0) in
  (find (fun t => Js.eqb (task_id t) id) tasks0 = None ->
   tasks r = tasks0 /\ events r = [SetIsLoading true; SetIsLoading false]) /\
  (forall cur,
      NoDup (map task_id tasks0) ->
      find (fun t => Js.eqb (task_id t) id) tasks0 = Some cur ->
      (outcome = Error -> tasks r = tasks0) /\
      (outcome <> Error ->
       Forall2 (fun t t' =>
                  (task_id t = id ->
                   t' = withCompleted (negb (task_completed t)) t)
                  /\ (task_id t <> id -> t' = t))
               tasks0 (tasks r))).
Proof.
  intros r. subst r. unfold toggleTask.
  cbn [tasks setIsLoading fresh]. split.
  - intros ->. split; reflexivity.
  - intros cur Hnd Hf. rewrite Hf. split.
    + intros ->. cbn [tasks setIsLoading setTasks await].
      apply toggled_back; assumption.
    + intros Hne.
      destruct outcome; [ | congruence | ];
        cbn [tasks setIsLoading setTasks await fresh];
        apply toggled_exact; assumption.
Qed.

Lemma toggled_ids id b (l : list ProjectTask) :
  map task_id
      (map (fun task => if Js.eqb (task_id task) id
                        then withCompleted b task else task) l)
  = map task_id l.
Proof.
  rewrite map_map. apply map_ext. intros t.
  destruct (Js.eqb (task_id t) id); reflexivity.
Qed.

(** X12. Toggling the same task twice, the store answering without error both
    times, gives the list back as it was, when ids are unique. *)
Theorem toggleTask_twice (u : User) (id : jsstring)
        (tasks0 : list ProjectTask) :
  NoDup (map task_id tasks0) ->
  tasks (toggleTask (Some u) Ok id
           (fresh (tasks (toggleTask (Some u) Ok id (fresh tasks0)))))
  = tasks0.
Proof.
  intros Hnd. unfold toggleTask at 2. cbn [tasks setIsLoading fresh].
  destruct (find (fun t => Js.eqb (task_id t) id) tasks0) as [cur|] eqn:Hf.
  - cbn [tasks setIsLoading setTasks await].
    unfold toggleTask. cbn [tasks setIsLoading fresh].
    rewrite (toggled_find id _ tasks0 cur Hf).
    cbn [tasks setIsLoading setTasks await task_completed withCompleted].
    rewrite negb_involutive. apply toggled_back; assumption.
  - cbn [tasks setIsLoading]. unfold toggleTask.
    cbn [tasks setIsLoading fresh]. rewrite Hf. reflexivity.
Qed.

(** *** The two sections of the task view *)

Lemma insertTask_perm a l : Permutation (a :: l) (insertTask a l).
Proof.
  induction l as [|b r IH]; simpl; [reflexivity|].
  destruct (task_createdAt b - task_createdAt a <=? 0)%Z; [reflexivity|].
  rewrite perm_swap. constructor. exact IH.
Qed.

Lemma sortTasks_perm l : Permutation l (sortTasks l).
Proof.
  induction l as [|a l IH]; simpl; [constructor|].
  rewrite <- insertTask_perm. constructor. exact IH.
Qed.

Lemma insertTask_sorted a l :
  Sorted (fun x y => (task_createdAt y <= task_createdAt x)%Z) l ->
  Sorted (fun x y => (task_createdAt y <= task_createdAt x)%Z)
         (insertTask a l).
Proof.
  induction 1 as [|b r Hs IH Hh]; simpl; [repeat constructor|].
  destruct (task_createdAt b - task_createdAt a <=? 0)%Z eqn:E.
  - apply Z.leb_le in E. repeat constructor; auto. lia.
  - apply Z.leb_gt in E. constructor; [exact IH|].
    destruct r as [|c r]; simpl.
    + constructor. lia.
    + destruct (task_createdAt c - task_createdAt a <=? 0)%Z;
        constructor; [lia|]. inversion Hh; assumption.
Qed.

Lemma sortTasks_sorted l :
  Sorted (fun x y => (task_createdAt y <= task_createdAt x)%Z) (sortTasks l).
Proof.
  induction l as [|a l IH]; simpl; [constructor|].
  apply insertTask_sorted. exact IH.
Qed.

Lemma filter_partition {A} (p : A -> bool) (l : list A) :
  Permutation l (filter (fun x => negb (p x)) l ++ filter p l).
Proof.
  induction l as [|x l IH]; simpl; [constructor|].
  destruct (p x); simpl.
  - apply Permutation_cons_app. exact IH.
  - constructor. exact IH.
Qed.

(** X13. Every task is shown once, in the section its flag says: the pending
    and the completed section together are a rearrangement of the task
    list, their counts add up to its length, pending tasks are all open
    and completed ones all done, and each section runs from the newest to
    the oldest. *)
Theorem projectsView_sections (tasks0 : list ProjectTask) :
  Permutation tasks0 (pendingTasks tasks0 ++ completedTasks tasks0) /\
  length (pendingTasks tasks0) + length (completedTasks tasks0)
  = length tasks0 /\
  Forall (fun t => task_completed t = false) (pendingTasks tasks0) /\
  Forall (fun t => task_completed t = true) (completedTasks tasks0) /\
  Sorted (fun x y => (task_createdAt y <= task_createdAt x)%Z)
         (pendingTasks tasks0) /\
  Sorted (fun x y => (task_createdAt y <= task_createdAt x)%Z)
         (completedTasks tasks0).
Proof.
  unfold pendingTasks, completedTasks.
  assert (HP : Permutation tasks0
                 (sortTasks (filter (fun t => negb (task_completed t)) tasks0)
                  ++ sortTasks (filter (fun t => task_completed t) tasks0))).
  { rewrite <- !sortTasks_perm. apply filter_partition. }
  split; [exact HP|]. split.
  - rewrite <- length_app. symmetry. apply Permutation_length. exact HP.
  - split; [|split; [|split; apply sortTasks_sorted]].
    + eapply Permutation_Forall; [apply sortTasks_perm|].
      apply Forall_forall. intros t Ht. apply filter_In in Ht as [_ Ht].
      apply negb_true_iff. exact Ht.
    + eapply Permutation_Forall; [apply sortTasks_perm|].
      apply Forall_forall. intros t Ht. apply filter_In in Ht as [_ Ht].
      exact Ht.
Qed.

End ProjectsMore.

Section ProjectsWitnesses.
Import Projects ProjectsView Examples MoreExamples.

Lemma addTask_outcomes_witness :
  Js.trim (Js.lit " book the flight") <> [] /\
  Forall (fun t => task_id t <> Js.lit "temp-" ++ Js.numberToString 1000)
         [task1] /\
  tasks (addTask (Some ada) 1000 1000 (Some saved1)
                 (Js.lit " book the flight") (fresh [task1]))
  = [ofSaved saved1; task1] /\
  tasks (addTask (Some ada) 1000 1000 None
                 (Js.lit " book the flight") (fresh [task1]))
  = [task1] /\
  addTask (Some ada) 1000 1000 (Some saved1) [32; 10]%N (fresh [task1])
  = fresh [task1].
Proof.
  assert (H1 : Js.trim (Js.lit " book the flight") <> [])
    by (apply js_eqb_neq; reflexivity).
  assert (H2 : Forall (fun t => task_id t
                                <> Js.lit "temp-" ++ Js.numberToString 1000)
                      [task1])
    by (repeat constructor; apply js_eqb_neq; reflexivity).
  split; [exact H1|]. split; [exact H2|].
  destruct (addTask_outcomes ada 1000 1000 (Some saved1)
              (Js.lit " book the flight") [task1]) as (_ & S).
  destruct (addTask_outcomes ada 1000 1000 None
              (Js.lit " book the flight") [task1]) as (_ & N).
  destruct (addTask_outcomes ada 1000 1000 (Some saved1)
              [32; 10]%N [task1]) as (B & _).
  split; [exact (proj2 (S H1 H2) saved1 eq_refl)|].
  split; [exact (proj1 (N H1 H2) eq_refl) | exact (B eq_refl)].
Defined.

Lemma toggleTask_outcomes_witness :
  NoDup (map task_id [task2; task1]) /\
  find (fun t => Js.eqb (task_id t) (Js.lit "t1")) [task2; task1]
  = Some task1 /\
  tasks (toggleTask (Some ada) Error (Js.lit "t1") (fresh [task2; task1]))
  = [task2; task1] /\
  Forall2 (fun t t' =>
             (task_id t = Js.lit "t1" ->
              t' = withCompleted (negb (task_completed t)) t)
             /\ (task_id t <> Js.lit "t1" -> t' = t))
          [task2; task1]
          [task2; withCompleted true task1] /\
  events (toggleTask (Some ada) Ok (Js.lit "t7") (fresh [task2; task1]))
  = [SetIsLoading true; SetIsLoading false].
Proof.
  assert (Hnd : NoDup (map task_id [task2; task1])).
  { repeat constructor; simpl; [|tauto].
    intros [H|[]]. revert H. apply js_eqb_neq. reflexivity. }
  split; [exact Hnd|]. split; [reflexivity|].
  destruct (toggleTask_outcomes ada Error (Js.lit "t1") [task2; task1])
    as (_ & E).
  destruct (toggleTask_outcomes ada Ok (Js.lit "t1") [task2; task1])
    as (_ & O).
  destruct (toggleTask_outcomes ada Ok (Js.lit "t7") [task2; task1])
    as (M & _).
  split; [exact (proj1 (E task1 Hnd eq_refl) eq_refl)|].
  split; [|exact (proj2 (M eq_refl))].
  apply (proj2 (O task1 Hnd eq_refl)). discriminate.
Defined.

Lemma toggleTask_twice_witness :
  NoDup (map task_id [task2; task1]) /\
  tasks (toggleTask (Some ada) Ok (Js.lit "t1")
           (fresh (tasks (toggleTask (Some ada) Ok (Js.lit "t1")
                                     (fresh [task2; task1])))))
  = [task2; task1].
Proof.
  assert (Hnd : NoDup (map task_id [task2; task1])).
  { repeat constructor; simpl; [|tauto].
    intros [H|[]]. revert H. apply js_eqb_neq. reflexivity. }
  split; [exact Hnd|].
  exact (toggleTask_twice ada (Js.lit "t1") [task2; task1] Hnd).
Defined.

End ProjectsWitnesses.


(** ** public.projects: what an update may change, and the seven days *)

Section SqlMore.
Import Sql Spec.

Lemma update_row_stamped now u OLD :
  update_row now u OLD = OLD \/ p_updated_at (update_row now u OLD) = now.
Proof.
  unfold update_row, update_completed_at, handle_projects_updated_at,
    apply_set, not_null.
  destruct (set_id u) as [[?|]|], (set_user_id u) as [[?|]|],
           (set_text u) as [[?|]|], (set_completed u) as [[[|]|]|],
           (set_created_at u) as [[?|]|],
           (p_completed OLD) as [[|]|]; cbn; auto.
Qed.

(** X14. What the policy, the constraints and the triggers keep under any
    UPDATE of a task row.  Run for a signed-in user, an UPDATE leaves the
    rows of other users as they are and never changes the owner of a row;
    run for a visitor who is not signed in, it changes nothing.  An UPDATE
    that assigns NULL to a column that cannot hold it changes nothing
    either.  Any UPDATE that changes the row leaves [updated_at] at the
    time of the database, whatever it assigns to that column.  The id,
    the text and the creation time, which nothing protects, end as
    assigned, and [completed] as assigned or kept. *)
Theorem update_row_frame (who : Invoker) (now : Z) (u : ProjectUpdate)
        (OLD : ProjectRow) :
  let NEW := update_row_as who now u OLD in
  (~ Own who (p_user_id OLD) -> NEW = OLD) /\
  (who <> Privileged -> p_user_id NEW = p_user_id OLD) /\
  (who = Anon -> NEW = OLD) /\
  (AssignsNull u -> NEW = OLD) /\
  (NEW <> OLD -> p_updated_at NEW = now) /\
  (forall b,
      p_completed OLD = Some b ->
      ~ AssignsNull u ->
      Own who (p_user_id OLD) ->
      Own who (chosen (set_user_id u) (p_user_id OLD)) ->
      p_id NEW = chosen (set_id u) (p_id OLD) /\
      p_user_id NEW = chosen (set_user_id u) (p_user_id OLD) /\
      p_text NEW = chosen (set_text u) (p_text OLD) /\
      p_completed NEW = Some (chosen (set_completed u) b) /\
      p_created_at NEW = chosen (set_created_at u) (p_created_at OLD) /\
      p_updated_at NEW = now).
Proof.
  intros NEW. subst NEW. unfold update_row_as.
  split; [|split; [|split; [|split; [|split]]]].
  - intros Hn. destruct (owns who (p_user_id OLD)) eqn:E; [|reflexivity].
    apply owns_Own in E. contradiction.
  - intros Hw. destruct (owns who (p_user_id OLD)) eqn:E; [|reflexivity].
    destruct (owns who (p_user_id (update_row now u OLD))) eqn:E';
      [|reflexivity].
    destruct who as [|uid|]; [contradiction| |discriminate].
    cbn in E, E'. apply js_eqb_eq in E, E'. congruence.
  - intros ->. reflexivity.
  - intros Hn. rewrite (update_row_null now u OLD Hn).
    destruct (owns who (p_user_id OLD)); reflexivity.
  - destruct (owns who (p_user_id OLD)); [|congruence].
    destruct (owns who (p_user_id (update_row now u OLD)));
      [|congruence].
    destruct (update_row_stamped now u OLD) as [->| ->];
      [congruence | reflexivity].
  - intros b Hb Hn Hold Hnew.
    apply owns_Own in Hold. rewrite Hold.
    rewrite (update_row_accepted now u OLD b Hn Hb).
    cbn [p_user_id]. apply owns_Own in Hnew. rewrite Hnew.
    cbn. repeat split; reflexivity.
Qed.

Lemma remark_completed t (more : list (Z * Z)) : forall r,
  p_completed r = Some true ->
  p_completed_at r = Some t ->
  let r' := row_after r (map (fun na => (fst na,
                                         Projects.updateStatement true (snd na)))
                             more) in
  p_completed r' = Some true /\ p_completed_at r' = Some t.
Proof.
  unfold row_after.
  induction more as [|[n a] more IH]; intros r Hc Ha; simpl; [auto|].
  assert (Hn : ~ AssignsNull (Projects.updateStatement true a)).
  { unfold AssignsNull. cbn. intuition discriminate. }
  rewrite (update_row_accepted n _ r true Hn Hc).
  apply IH; [reflexivity | exact Ha].
Qed.

(** X15. A task inserted open and marked completed at database time [t] keeps
    [t] as its completion time however often it is marked completed
    again, and the cleanup run at [now] deletes it exactly when [t] lies
    more than seven days back. *)
Theorem completed_task_purged_after_seven_days
        (id user_id text : jsstring) (t0 t a now : Z)
        (more : list (Z * Z)) :
  let r :=
    row_after (insert_row id user_id text false t0)
              ((t, Projects.updateStatement true a)
               :: map (fun na => (fst na,
                                  Projects.updateStatement true (snd na)))
                      more) in
  p_completed_at r = Some t /\
  (delete_old_completed_tasks now [r] = []
   <-> (t < now - 7 * 24 * 3600 * 1000000)%Z) /\
  (delete_old_completed_tasks now [r] = [r]
   <-> (now - 7 * 24 * 3600 * 1000000 <= t)%Z).
Proof.
  intros r.
  assert (H : p_completed r = Some true /\ p_completed_at r = Some t).
  { unfold r, row_after. cbn [fold_left fst snd].
    apply remark_completed; reflexivity. }
  destruct H as [Hc Ha]. split; [exact Ha|].
  unfold delete_old_completed_tasks, delete_where. cbn [filter].
  rewrite Hc, Ha. cbn.
  unfold INTERVAL_7_DAYS.
  change (7 * 24 * 60 * 60 * 1000000)%Z with 604800000000%Z.
  change (7 * 24 * 3600 * 1000000)%Z with 604800000000%Z.
  destruct (t <? now - 604800000000)%Z eqn:E; cbn.
  - apply Z.ltb_lt in E. split; split; try reflexivity; try discriminate;
      try lia; auto.
  - apply Z.ltb_ge in E. split; split; try reflexivity; try discriminate;
      try lia; auto.
Qed.

(** *** Expired files, once more *)

Lemma cleanup_In who now d r :
  In r (files (cleanup_expired_files who now d))
  <-> In r (files d)
      /\ ~ (Own who (f_user_id r)
            /\ exists r', In r' (files d) /\ Own who (f_user_id r')
                          /\ Expired now r' /\ f_id r' = f_id r).
Proof.
  unfold cleanup_expired_files.
  destruct (purge_fold who
              (map (fun r => (f_id r, f_file_path r))
                   (filter (fun r => owns who (f_user_id r)
                                     && (f_expires_at r <? now)%Z)
                           (files d)))
              d) as [-> _].
  rewrite filter_In, negb_true_iff, <- not_true_iff_false, andb_true_iff,
    selected_id, owns_Own.
  reflexivity.
Qed.

(** X16. After a cleanup no expired record within reach of the role it ran
    as is left, whether or not ids are unique; the records out of its
    reach and the objects outside its folder all stay, so that run for a
    visitor who is not signed in it changes nothing; and a second cleanup
    by the same role at the same instant changes nothing. *)
Theorem cleanup_expired_files_settles (who : Invoker) (now : Z)
        (d : Database) :
  Forall (fun r => ~ (Own who (f_user_id r) /\ Expired now r))
         (files (cleanup_expired_files who now d)) /\
  (forall r, In r (files d) -> ~ Own who (f_user_id r) ->
             In r (files (cleanup_expired_files who now d))) /\
  (forall o, In o (objects d) -> ~ InOwnFolder who (name o) ->
             In o (objects (cleanup_expired_files who now d))) /\
  cleanup_expired_files Anon now d = d /\
  cleanup_expired_files who now (cleanup_expired_files who now d)
  = cleanup_expired_files who now d.
Proof.
  assert (H : Forall (fun r => ~ (Own who (f_user_id r) /\ Expired now r))
                     (files (cleanup_expired_files who now d))).
  { apply Forall_forall. intros r Hr [Ho He].
    apply cleanup_In in Hr as [Hin Hn]. apply Hn.
    split; [exact Ho|]. exists r. auto. }
  split; [exact H|]. split; [|split; [|split]].
  - intros r Hr Hn. apply cleanup_In. split; [exact Hr|]. tauto.
  - intros o Ho Hn.
    apply (Purged_In (cleanup_objects who now d)). split; [exact Ho|].
    intros (_ & Hf & _). contradiction.
  - unfold cleanup_expired_files. cbn [owns andb].
    assert (E : forall l : list FileRow, filter (fun _ => false) l = [])
      by (induction l; auto).
    rewrite E. reflexivity.
  - set (d' := cleanup_expired_files who now d) in *.
    unfold cleanup_expired_files at 1.
    assert (E : filter (fun r => owns who (f_user_id r)
                                 && (f_expires_at r <? now)%Z) (files d')
                = []).
    { clear - H. induction H as [|r l Hr _ IH]; simpl; [reflexivity|].
      destruct (owns who (f_user_id r)) eqn:Eo; cbn; [|exact IH].
      apply owns_Own in Eo. unfold Expired in Hr.
      destruct (Z.ltb_spec (f_expires_at r) now); [tauto | exact IH]. }
    rewrite E. reflexivity.
Qed.

End SqlMore.

Section SqlWitnesses.
Import Sql Spec Examples MoreExamples.

Lemma update_row_frame_witness :
  ~ Own (Authenticated (Js.lit "u2")) (p_user_id taskOpen) /\
  update_row_as (Authenticated (Js.lit "u2")) 7000
                (Projects.updateStatement true 5) taskOpen
  = taskOpen /\
  update_row_as (Authenticated (Js.lit "u1")) 7000
                {| set_id := None; set_user_id := Some (Some (Js.lit "u2"));
                   set_text := None; set_completed := None;
                   set_created_at := None; set_updated_at := None;
                   set_completed_at := None |} taskOpen
  = taskOpen /\
  update_row_as (Authenticated (Js.lit "u1")) 7000
                {| set_id := None; set_user_id := None;
                   set_text := Some None; set_completed := Some (Some true);
                   set_created_at := None; set_updated_at := None;
                   set_completed_at := None |} taskOpen
  = taskOpen /\
  p_completed taskOpen = Some false /\
  ~ AssignsNull
      {| set_id := Some (Some (Js.lit "t7")); set_user_id := None;
         set_text := Some (Some (Js.lit "call the bank"));
         set_completed := None;
         set_created_at := Some (Some 99%Z);
         set_updated_at := Some (Some 5%Z);
         set_completed_at := None |} /\
  update_row_as (Authenticated (Js.lit "u1")) 7000
                {| set_id := Some (Some (Js.lit "t7")); set_user_id := None;
                   set_text := Some (Some (Js.lit "call the bank"));
                   set_completed := None;
                   set_created_at := Some (Some 99%Z);
                   set_updated_at := Some (Some 5%Z);
                   set_completed_at := None |} taskOpen
  = {| p_id := Js.lit "t7"; p_user_id := Js.lit "u1";
       p_text := Js.lit "call the bank"; p_completed := Some false;
       p_created_at := 99; p_updated_at := 7000;
       p_completed_at := None |}.
Proof.
  assert (Ho : ~ Own (Authenticated (Js.lit "u2")) (p_user_id taskOpen)).
  { intros [H|H]; discriminate H. }
  set (give := {| set_id := None; set_user_id := Some (Some (Js.lit "u2"));
                  set_text := None; set_completed := None;
                  set_created_at := None; set_updated_at := None;
                  set_completed_at := None |}).
  set (blank := {| set_id := None; set_user_id := None;
                   set_text := Some None; set_completed := Some (Some true);
                   set_created_at := None; set_updated_at := None;
                   set_completed_at := None |}).
  set (move := {| set_id := Some (Some (Js.lit "t7")); set_user_id := None;
                  set_text := Some (Some (Js.lit "call the bank"));
                  set_completed := None;
                  set_created_at := Some (Some 99%Z);
                  set_updated_at := Some (Some 5%Z);
                  set_completed_at := None |}).
  assert (Hm : ~ AssignsNull move).
  { unfold AssignsNull. cbn. intuition discriminate. }
  destruct (update_row_frame (Authenticated (Js.lit "u2")) 7000
              (Projects.updateStatement true 5) taskOpen) as (F1 & _).
  destruct (update_row_frame (Authenticated (Js.lit "u1")) 7000 give
              taskOpen) as (_ & F2 & _ & _ & F5 & _).
  destruct (update_row_frame (Authenticated (Js.lit "u1")) 7000 blank
              taskOpen) as (_ & _ & _ & F4 & _).
  destruct (update_row_frame (Authenticated (Js.lit "u1")) 7000 move
              taskOpen) as (_ & _ & _ & _ & _ & F6).
  split; [exact Ho|]. split; [exact (F1 Ho)|].
  split; [reflexivity|].
  split; [apply F4; right; right; left; reflexivity|].
  split; [reflexivity|]. split; [exact Hm|].
  destruct (F6 false eq_refl Hm (or_intror eq_refl) (or_intror eq_refl))
    as (E1 & E2 & E3 & E4 & E5 & E6).
  reflexivity.
Defined.

Lemma cleanup_expired_files_settles_witness :
  In otherRow (files dbShared) /\
  ~ Own (Authenticated (Js.lit "u1")) (f_user_id otherRow) /\
  In otherRow
     (files (cleanup_expired_files (Authenticated (Js.lit "u1")) 100
                                   dbShared)) /\
  ~ InOwnFolder (Authenticated (Js.lit "u1")) (Js.lit "u2/n.txt") /\
  In {| bucket_id := USER_FILES; name := Js.lit "u2/n.txt" |}
     (objects (cleanup_expired_files (Authenticated (Js.lit "u1")) 100
                                     dbShared)) /\
  files (cleanup_expired_files (Authenticated (Js.lit "u1")) 100 dbShared)
  = [otherRow; fileRow "f2" "u1/b.png" 150] /\
  cleanup_expired_files (Authenticated (Js.lit "u1")) 100
    (cleanup_expired_files (Authenticated (Js.lit "u1")) 100 dbShared)
  = cleanup_expired_files (Authenticated (Js.lit "u1")) 100 dbShared.
Proof.
  assert (Hin : In otherRow (files dbShared)) by (left; reflexivity).
  assert (Ho : ~ Own (Authenticated (Js.lit "u1")) (f_user_id otherRow)).
  { intros [H|H]; discriminate H. }
  assert (Hf : ~ InOwnFolder (Authenticated (Js.lit "u1"))
                             (Js.lit "u2/n.txt")).
  { intros [H|(uid & rest & [= <-] & _ & E)]; discriminate. }
  destruct (cleanup_expired_files_settles (Authenticated (Js.lit "u1")) 100
                                          dbShared)
    as (_ & K & O & _ & I).
  split; [exact Hin|]. split; [exact Ho|]. split; [exact (K _ Hin Ho)|].
  split; [exact Hf|].
  split; [apply O; [left; reflexivity | exact Hf]|].
  split; [reflexivity | exact I].
Defined.

Lemma completed_task_purged_after_seven_days_witness :
  delete_old_completed_tasks (9 * day)
    [row_after (insert_row (Js.lit "t3") (Js.lit "u1")
                           (Js.lit "call the clinic") false 0)
               [(day, Projects.updateStatement true 86400000);
                (8 * day, Projects.updateStatement true 691200000)%Z]]
  = [].
Proof.
  destruct (completed_task_purged_after_seven_days
              (Js.lit "t3") (Js.lit "u1") (Js.lit "call the clinic")
              0 day 86400000 (9 * day) [(8 * day, 691200000)%Z])
    as (_ & H & _).
  apply H. reflexivity.
Defined.

End SqlWitnesses.


(** ** hooks/useFiles: listing and deleting *)

Section FilesMore.
Import Sql Files FilesOps Spec.

Lemma insertRow_In a l x : In x (insertRow a l) <-> x = a \/ In x l.
Proof.
  induction l as [|b r IH]; simpl; [intuition|].
  destruct (f_created_at b <=? f_created_at a)%Z; simpl;
    [intuition | rewrite IH; intuition].
Qed.

Lemma orderRows_In l x : In x (orderRows l) <-> In x l.
Proof.
  induction l as [|a l IH]; simpl; [reflexivity|].
  rewrite insertRow_In, IH. intuition.
Qed.

Lemma stillValid_In clock data : forall k row,
  In row (stillValid clock k data)
  <-> exists i, nth_error data i = Some row
                /\ (clock (k + i)%nat < getTime (f_expires_at row))%Z.
Proof.
  induction data as [|f rest IH]; intros k row; simpl.
  - split; [tauto | intros ([|i] & H & _); discriminate].
  - assert (Hrest : In row (stillValid clock (S k) rest)
                    <-> exists i, nth_error (f :: rest) (S i) = Some row
                                  /\ (clock (k + S i)%nat
                                      < getTime (f_expires_at row))%Z).
    { rewrite IH. split; intros (i & H1 & H2); exists i;
        (split; [exact H1|]);
        replace (k + S i) with (S k + i) in * by lia; exact H2. }
    destruct (Z.ltb_spec (clock k) (getTime (f_expires_at f))) as [Hlt|Hge].
    + simpl. rewrite Hrest. split.
      * intros [<- | (i & H)]; [|exists (S i); exact H].
        exists 0. rewrite Nat.add_0_r. auto.
      * intros ([|i] & H1 & H2).
        -- left. injection H1 as ->. reflexivity.
        -- right. exists i. auto.
    + rewrite Hrest. split.
      * intros (i & H). exists (S i). exact H.
      * intros ([|i] & H1 & H2).
        -- injection H1 as ->. rewrite Nat.add_0_r in H2. lia.
        -- exists i. auto.
Qed.

Lemma loadFiles_lists_aux (env : LoadEnv) (u : User) (w : World) :
  selectOk env = true ->
  forall sf,
    In sf (localFiles (loadFiles env (Some u) w))
    <-> exists k row,
        nth_error
          (orderRows
             (filter (fun r => owns (Authenticated (user_id u))
                                    (f_user_id r))
                     (files (if rpcOk env
                             then cleanup_expired_files
                                    (Authenticated (user_id u))
                                    (serverNow env) (db w)
                             else db w))))
          k = Some row /\
        (clientNow env k < getTime (f_expires_at row))%Z /\
        sf = format row.
Proof.
  intros Hsel sf. unfold loadFiles. rewrite Hsel. cbn [negb localFiles].
  rewrite in_map_iff. split.
  - intros (row & <- & Hr). apply stillValid_In in Hr as (k & Hk & Ht).
    exists k, row. auto.
  - intros (k & row & Hk & Ht & ->). exists row.
    split; [reflexivity|]. apply stillValid_In. exists k. auto.
Qed.

Lemma selected_rows (u : User) (d : Database) row :
  In row (orderRows (filter (fun r => owns (Authenticated (user_id u))
                                           (f_user_id r))
                            (files d)))
  <-> In row (files d) /\ f_user_id row = user_id u.
Proof.
  rewrite orderRows_In, filter_In. cbn [owns]. rewrite js_eqb_eq.
  intuition congruence.
Qed.

(** X17. [loadFiles] lists only what is the user's and not yet expired.
    The cleanup it calls runs as the signed-in user, so the records of
    other users all stay in the database.  With the select answered, a
    file is in the list exactly when it is the formatted form of a row of
    the answer that expires after the reading of the browser clock taken
    for that row, the answer being the user's records left in the
    database; no listed file carries content; when the clock does not
    move during the filtering, the files listed are exactly the user's
    records that expire after its reading.  Without an answer the list
    stays as it was. *)
Theorem loadFiles_lists (env : LoadEnv) (u : User) (w : World) :
  let w' := loadFiles env (Some u) w in
  let d := if rpcOk env
           then cleanup_expired_files (Authenticated (user_id u))
                                      (serverNow env) (db w)
           else db w in
  let data :=
    orderRows (filter (fun r => owns (Authenticated (user_id u))
                                     (f_user_id r))
                      (files d)) in
  db w' = d /\
  (forall r, In r (files (db w)) -> f_user_id r <> user_id u ->
             In r (files d)) /\
  (selectOk env = false -> localFiles w' = localFiles w) /\
  (selectOk env = true ->
   (forall row, In row data
                <-> In row (files d) /\ f_user_id row = user_id u) /\
   (forall sf,
       In sf (localFiles w')
       <-> exists k row,
           nth_error data k = Some row /\
           (clientNow env k < getTime (f_expires_at row))%Z /\
           sf = format row) /\
   (forall c,
       (forall k, clientNow env k = c) ->
       forall sf,
         In sf (localFiles w')
         <-> exists row,
             In row (files d) /\
             f_user_id row = user_id u /\
             (c < getTime (f_expires_at row))%Z /\
             sf = format row) /\
   Forall (fun sf => sf_base64 sf = []) (localFiles w')).
Proof.
  intros w' d data. subst w'. split; [|split; [|split]].
  - unfold loadFiles. fold d. destruct (selectOk env); reflexivity.
  - intros r Hr Hn. unfold d. destruct (rpcOk env); [|exact Hr].
    apply cleanup_In. split; [exact Hr|].
    intros [[H|H] _]; [discriminate | congruence].
  - intros Hsel. unfold loadFiles. rewrite Hsel. reflexivity.
  - intros Hsel.
    pose proof (loadFiles_lists_aux env u w Hsel) as H.
    fold d in H. fold data in H.
    split; [intros row; apply selected_rows|].
    split; [exact H|]. split.
    + intros c Hc sf. rewrite H. split.
      * intros (k & row & Hk & Ht & ->). exists row.
        apply nth_error_In, selected_rows in Hk. rewrite Hc in Ht. tauto.
      * intros (row & Hr & Hu & Ht & ->).
        assert (Hin : In row data) by (apply selected_rows; auto).
        apply In_nth_error in Hin as (k & Hk).
        exists k, row. rewrite Hc. auto.
    + apply Forall_forall. intros sf Hsf.
      apply H in Hsf as (k & row & _ & _ & ->). reflexivity.
Qed.

(** X18. A file added by [addFile] is listed by a later [loadFiles] of the same
    user for its 24 hours and no longer.  If it is listed, the database
    clock has not passed its expiry and the browser clock read before it;
    it is listed whenever the database clock has not passed its expiry
    and every reading of the browser clock is before it; so that, the
    browser clock not moving during the filtering, it is in the list
    exactly when the database clock has not passed its expiry and the
    browser clock is before it.  It is listed with the expiry it was
    stored with.  The id given by the insert is new in the table. *)
Theorem uploaded_file_listed_until_expiry
        (fenv : Env) (lenv : LoadEnv) (u : User) (file : Upload)
        (w : World) (id : jsstring) (created_at : Z) :
  uploadOk fenv = true ->
  inserted fenv = Some (id, created_at) ->
  ~ In id (map f_id (files (db w))) ->
  rpcOk lenv = true ->
  selectOk lenv = true ->
  let expiry := (nowExpiry fenv + 24 * 60 * 60 * 1000)%Z in
  let w2 := loadFiles lenv (Some u) (addFile fenv (Some u) file w) in
  (In id (map sf_id (localFiles w2)) ->
   (serverNow lenv <= expiry * 1000)%Z /\
   exists k, (clientNow lenv k < expiry)%Z) /\
  ((serverNow lenv <= expiry * 1000)%Z ->
   (forall k, (clientNow lenv k < expiry)%Z) ->
   In id (map sf_id (localFiles w2))) /\
  (forall c,
      (forall k, clientNow lenv k = c) ->
      (In id (map sf_id (localFiles w2))
       <-> (serverNow lenv <= expiry * 1000)%Z /\ (c < expiry)%Z)) /\
  (forall sf, In sf (localFiles w2) -> sf_id sf = id ->
              sf_expiresAt sf = expiry).
Proof.
  intros Hup Hins Hnew Hrpc Hsel expiry w2.
  set (row := {| f_id := id;
                 f_user_id := user_id u;
                 f_name := up_name file;
                 f_type := up_type file;
                 f_size := up_size file;
                 f_file_path := filePathOf fenv u file;
                 f_expires_at := (expiry * 1000)%Z;
                 f_created_at := created_at |}).
  assert (Hfiles : files (db (addFile fenv (Some u) file w))
                   = row :: files (db w)).
  { unfold addFile. rewrite Hup, Hins. reflexivity. }
  assert (Hg : getTime (f_expires_at row) = expiry).
  { unfold getTime. cbn. apply Z.div_mul. discriminate. }
  assert (Hother : forall r, In r (files (db w)) -> f_id r <> id).
  { intros r Hr E. apply Hnew. rewrite <- E. apply in_map. exact Hr. }
  pose proof (loadFiles_lists_aux lenv u (addFile fenv (Some u) file w) Hsel)
    as Hl.
  fold w2 in Hl. rewrite Hrpc in Hl.
  set (d := cleanup_expired_files (Authenticated (user_id u))
                                  (serverNow lenv)
                                  (db (addFile fenv (Some u) file w))) in *.
  assert (Hthe : forall r, In r (files d) -> f_id r = id -> r = row).
  { intros r Hr Hid. apply cleanup_In in Hr as [Hr _]. rewrite Hfiles in Hr.
    destruct Hr as [<- | Hr]; [reflexivity|].
    exfalso. apply (Hother r Hr). exact Hid. }
  assert (Hkept : In row (files d) <-> (serverNow lenv <= expiry * 1000)%Z).
  { unfold d. rewrite cleanup_In, Hfiles. split.
    - intros [_ Hn].
      destruct (Z.le_gt_cases (serverNow lenv) (expiry * 1000)) as [|Hlt];
        [assumption|].
      exfalso. apply Hn. split; [right; reflexivity|].
      exists row. split; [left; reflexivity|].
      split; [right; reflexivity|]. split; [|reflexivity].
      unfold Expired. cbn. lia.
    - intros Hs. split; [left; reflexivity|].
      intros (_ & r' & [<- | Hr'] & _ & He & E).
      + unfold Expired in He. cbn in He. lia.
      + apply (Hother r' Hr'). exact E. }
  assert (Hrow : forall sf,
             In sf (localFiles w2) -> sf_id sf = id ->
             sf = format row /\ In row (files d)
             /\ exists k, (clientNow lenv k < expiry)%Z).
  { intros sf Hsf Hid. apply Hl in Hsf as (k & r & Hk & Ht & ->).
    apply nth_error_In, selected_rows in Hk as [Hr _].
    pose proof (Hthe r Hr Hid) as ->.
    rewrite Hg in Ht. eauto. }
  assert (Hto : In id (map sf_id (localFiles w2)) ->
                (serverNow lenv <= expiry * 1000)%Z /\
                exists k, (clientNow lenv k < expiry)%Z).
  { rewrite in_map_iff. intros (sf & Hid & Hsf).
    destruct (Hrow sf Hsf Hid) as (_ & Hr & Hk).
    split; [apply Hkept; exact Hr | exact Hk]. }
  assert (Hfrom : (serverNow lenv <= expiry * 1000)%Z ->
                  (forall k, (clientNow lenv k < expiry)%Z) ->
                  In id (map sf_id (localFiles w2))).
  { intros Hs Hc. apply in_map_iff. exists (format row).
    split; [reflexivity|]. apply Hl.
    assert (Hin : In row (orderRows
                            (filter (fun r => owns (Authenticated (user_id u))
                                                   (f_user_id r))
                                    (files d)))).
    { apply selected_rows. split; [apply Hkept; exact Hs | reflexivity]. }
    apply In_nth_error in Hin as (k & Hk).
    exists k, row. rewrite Hg. auto. }
  split; [exact Hto|]. split; [exact Hfrom|]. split.
  - intros c Hc. split.
    + intros H. destruct (Hto H) as (Hs & k & Hk).
      rewrite Hc in Hk. auto.
    + intros [Hs Hlt]. apply Hfrom; [exact Hs|].
      intros k. rewrite Hc. exact Hlt.
  - intros sf Hsf Hid. destruct (Hrow sf Hsf Hid) as (-> & _). exact Hg.
Qed.

(** X19. [deleteFile]: a file that is not in the list, or whose record cannot
    be fetched, is left alone everywhere.  Otherwise the record and the
    list entry go together, exactly when the database delete succeeds,
    and the stored objects of that path go exactly when the storage
    removal succeeds, each whatever the other did: a failed storage
    removal leaves an object without record, a failed database delete
    after a removal leaves a listed record without object. *)
Theorem deleteFile_outcomes (env : DeleteEnv) (u : User) (id : jsstring)
        (w : World) :
  let w' := deleteFile env (Some u) id w in
  (find (fun f => Js.eqb (sf_id f) id) (localFiles w) = None
   \/ fetchOk env = false
   \/ selectPath id (files (db w)) = None ->
   localFiles w' = localFiles w /\ db w' = db w) /\
  (forall sf path,
      find (fun f => Js.eqb (sf_id f) id) (localFiles w) = Some sf ->
      fetchOk env = true ->
      selectPath id (files (db w)) = Some path ->
      (dbOk env = true ->
       Purged (fun f => sf_id f = id) (localFiles w) (localFiles w') /\
       Purged (fun r => f_id r = id) (files (db w)) (files (db w'))) /\
      (dbOk env = false ->
       localFiles w' = localFiles w /\ files (db w') = files (db w)) /\
      (storageOk env = true ->
       Purged (fun o => bucket_id o = USER_FILES /\ name o = path)
              (objects (db w)) (objects (db w'))) /\
      (storageOk env = false -> objects (db w') = objects (db w))).
Proof.
  intros w'. subst w'. unfold deleteFile. split.
  - intros H.
    destruct (find (fun f => Js.eqb (sf_id f) id) (localFiles w));
      destruct (fetchOk env);
      destruct (selectPath id (files (db w)));
      try (split; reflexivity);
      destruct H as [H | [H | H]]; discriminate.
  - intros sf path -> -> ->.
    assert (Hp : forall l : list StorageObject,
               Purged (fun o => bucket_id o = USER_FILES /\ name o = path) l
                      (filter (fun o => negb (Js.eqb (bucket_id o) USER_FILES
                                              && Js.eqb (name o) path)) l)).
    { intros l. apply filter_Purged. intros o _.
      rewrite negb_false_iff, andb_true_iff, !js_eqb_eq. reflexivity. }
    destruct (dbOk env), (storageOk env); cbn [localFiles db files objects];
      repeat split; try discriminate; try (intros _; apply Hp);
      try (apply filter_Purged; intros x _; rewrite negb_false_iff;
           apply js_eqb_eq).
Qed.

End FilesMore.

Section FilesWitnesses.
Import Sql Files FilesOps Spec Examples MoreExamples.

Lemma loadFiles_lists_witness :
  selectOk loadEnv = true /\
  In otherRow (files (db worldShared)) /\
  f_user_id otherRow <> user_id ada /\
  In otherRow (files (db (loadFiles loadEnv (Some ada) worldShared))) /\
  files (db (loadFiles loadEnv (Some ada) worldShared))
  = [otherRow; fileRow "f2" "u1/b.png" 150] /\
  Forall (fun sf => sf_base64 sf = [])
         (localFiles (loadFiles loadEnv (Some ada) worldShared)) /\
  ~ In (format (fileRow "f2" "u1/b.png" 150))
       (localFiles (loadFiles loadEnv (Some ada) worldShared)).
Proof.
  assert (Hin : In otherRow (files (db worldShared)))
    by (left; reflexivity).
  assert (Hne : f_user_id otherRow <> user_id ada)
    by (apply js_eqb_neq; reflexivity).
  destruct (loadFiles_lists loadEnv ada worldShared) as (D & K & _ & H).
  destruct (H eq_refl) as (_ & _ & L & F).
  split; [reflexivity|]. split; [exact Hin|]. split; [exact Hne|].
  split; [rewrite D; exact (K otherRow Hin Hne)|].
  split; [rewrite D; reflexivity|].
  split; [exact F|].
  intros Hl. apply (L 2000%Z (fun _ => eq_refl)) in Hl.
  destruct Hl as (row & _ & _ & Hlt & E).
  apply (f_equal sf_expiresAt) in E. unfold format in E.
  cbn [sf_expiresAt] in E. rewrite <- E in Hlt.
  vm_compute in Hlt. discriminate Hlt.
Defined.

Lemma uploaded_file_listed_until_expiry_witness :
  uploadOk filesEnv = true /\
  inserted filesEnv = Some (Js.lit "f3", 1006000%Z) /\
  ~ In (Js.lit "f3") (map f_id (files (db worldShared))) /\
  rpcOk loadEnv = true /\
  selectOk loadEnv = true /\
  In (Js.lit "f3")
     (map sf_id (localFiles (loadFiles loadEnv (Some ada)
                               (addFile filesEnv (Some ada) upload0
                                        worldShared)))).
Proof.
  assert (Hn : ~ In (Js.lit "f3") (map f_id (files (db worldShared)))).
  { simpl. intros [H|[H|[H|[]]]]; revert H; apply js_eqb_neq; reflexivity. }
  repeat (split; [first [reflexivity | exact Hn]|]).
  destruct (uploaded_file_listed_until_expiry
              filesEnv loadEnv ada upload0 worldShared (Js.lit "f3") 1006000
              eq_refl eq_refl Hn eq_refl eq_refl) as (_ & _ & H & _).
  apply (H 2000%Z (fun _ => eq_refl)). cbn. lia.
Defined.

Lemma deleteFile_outcomes_witness :
  find (fun f => Js.eqb (sf_id f) (Js.lit "f2")) (localFiles world1)
  = Some (format (fileRow "f2" "u1/b.png" 150)) /\
  selectPath (Js.lit "f2") (files (db world1)) = Some (Js.lit "u1/b.png") /\
  Purged (fun f => sf_id f = Js.lit "f2") (localFiles world1) [] /\
  Purged (fun r => f_id r = Js.lit "f2") (files db0)
         [fileRow "f1" "u1/a.png" 50] /\
  Purged (fun o => bucket_id o = USER_FILES /\ name o = Js.lit "u1/b.png")
         (objects db0)
         [ {| bucket_id := USER_FILES; name := Js.lit "u1/a.png" |};
           {| bucket_id := Js.lit "avatars"; name := Js.lit "u1/a.png" |} ] /\
  db (deleteFile deleteEnv (Some ada) (Js.lit "f1") world1) = db0.
Proof.
  split; [reflexivity|]. split; [reflexivity|].
  destruct (deleteFile_outcomes deleteEnv ada (Js.lit "f2") world1)
    as (_ & H).
  destruct (H _ _ eq_refl eq_refl eq_refl) as (D & _ & S & _).
  destruct (D eq_refl) as (D1 & D2).
  split; [exact D1|]. split; [exact D2|]. split; [exact (S eq_refl)|].
  destruct (deleteFile_outcomes deleteEnv ada (Js.lit "f1") world1)
    as (K & _).
  exact (proj2 (K (or_introl eq_refl))).
Defined.

End FilesWitnesses.


(** ** hooks/useAuth.ts: the rest of updateUser, login, signup, logout *)

Section AuthMore.
Import Auth AuthOps.

Lemma sleeps_app a b : sleeps (a ++ b) = sleeps a + sleeps b.
Proof. unfold sleeps. rewrite filter_app, length_app. reflexivity. Qed.

Lemma userSets_app a b : userSets (a ++ b) = userSets a + userSets b.
Proof. unfold userSets. rewrite filter_app, length_app. reflexivity. Qed.

Lemma verifications_app a b :
  verifications (a ++ b) = verifications a + verifications b.
Proof. unfold verifications. rewrite filter_app, length_app. reflexivity. Qed.

Lemma pause_counts n :
  sleeps (pause n) = (if n <? maxAttempts then 1 else 0) /\
  userSets (pause n) = 0 /\ verifications (pause n) = 0.
Proof. unfold pause. destruct (n <? maxAttempts); auto. Qed.

(** One round of verification: a call per round at most, no pause, and the
    user set at most once, and not at all when a call is rejected. *)
Lemma verifyLoop_counts p attempt current ks :
  let v := verifyLoop p attempt current ks in
  sleeps (fst v) = 0 /\
  verifications (fst v) <= length ks /\
  userSets (fst v) <= 1 /\
  (snd v <> None -> userSets (fst v) = 0).
Proof.
  induction ks as [|k ks IH]; cbn [verifyLoop].
  - cbn. repeat split; auto; congruence.
  - cbv zeta in IH. destruct IH as (I1 & I2 & I3 & I4).
    destruct (getUser p attempt k) as [| |metadata|e];
      [ | | destruct (negb (Js.eqb metadata current)) | ];
      try destruct (verifyLoop p attempt current ks) as [evs thrown];
      cbn in *; repeat split; auto; try lia; try congruence.
Qed.

Lemma sleeps_update n l : sleeps (UpdateCall n :: l) = sleeps l.
Proof. reflexivity. Qed.

Lemma userSets_update n l : userSets (UpdateCall n :: l) = userSets l.
Proof. reflexivity. Qed.

Lemma verifications_update n l :
  verifications (UpdateCall n :: l) = verifications l.
Proof. reflexivity. Qed.

Lemma counts_sleep ms l :
  sleeps (Sleep ms :: l) = S (sleeps l) /\
  userSets (Sleep ms :: l) = userSets l /\
  verifications (Sleep ms :: l) = verifications l.
Proof. repeat split. Qed.

Lemma counts_nil : sleeps [] = 0 /\ userSets [] = 0 /\ verifications [] = 0.
Proof. repeat split. Qed.

Ltac count_log :=
  repeat first
    [ rewrite sleeps_app | rewrite userSets_app | rewrite verifications_app
    | rewrite sleeps_update | rewrite userSets_update
    | rewrite verifications_update
    | rewrite (proj1 (counts_sleep _ _))
    | rewrite (proj1 (proj2 (counts_sleep _ _)))
    | rewrite (proj2 (proj2 (counts_sleep _ _)))
    | rewrite (proj1 counts_nil)
    | rewrite (proj1 (proj2 counts_nil))
    | rewrite (proj2 (proj2 counts_nil)) ].

Ltac verify_counts :=
  match goal with
  | H : verifyLoop ?p ?a ?c ?ks = (?evs, ?t) |- _ =>
      let V := fresh "V" in
      pose proof (verifyLoop_counts p a c ks) as V;
      cbv zeta in V; rewrite H in V; cbn [fst snd length] in V;
      destruct V as (V1 & V2 & V3 & V4)
  end.

Lemma retryLoop_counts p current n lastError log :
  sleeps (snd (retryLoop p current n lastError log))
  <= sleeps log + (2 - n) /\
  verifications (snd (retryLoop p current n lastError log))
  <= verifications log + 3 * (3 - n) /\
  userSets (snd (retryLoop p current n lastError log)) <= userSets log + 1 /\
  (success (fst (retryLoop p current n lastError log)) = false ->
   userSets (snd (retryLoop p current n lastError log)) = userSets log).
Proof.
  funelim (retryLoop p current n lastError log); cbn [fst snd];
    try verify_counts;
    try (destruct (pause_counts (S updateAttempts)) as (P1 & P2 & P3));
    unfold maxAttempts in *.
  - repeat split; auto; lia.
  - count_log. repeat split; auto; lia.
  - destruct H as (J1 & J2 & J3 & J4). revert J1 J2 J3 J4. count_log.
    rewrite P1, P2, P3. intros J1 J2 J3 J4.
    destruct (S updateAttempts <? 3) eqn:E;
      [apply Nat.ltb_lt in E | apply Nat.ltb_ge in E];
      repeat split; try lia; intros Hs; rewrite (J4 Hs); lia.
  - destruct H as (J1 & J2 & J3 & J4). revert J1 J2 J3 J4. count_log.
    intros J1 J2 J3 J4.
    repeat split; try lia; intros Hs; rewrite (J4 Hs); lia.
  - count_log. repeat split; auto; lia.
  - destruct H as (J1 & J2 & J3 & J4). revert J1 J2 J3 J4. count_log.
    rewrite P1, P2, P3, V1, (V4 ltac:(discriminate)).
    intros J1 J2 J3 J4.
    destruct (S updateAttempts <? 3) eqn:E;
      [apply Nat.ltb_lt in E | apply Nat.ltb_ge in E];
      repeat split; try lia; intros Hs; rewrite (J4 Hs); lia.
  - count_log. rewrite V1. cbn [success].
    repeat split; try lia; discriminate.
Qed.

(** X20. Whatever the identity provider does, [updateUser] pauses at most twice
    (never after the last attempt), asks for the user at most nine times,
    sets the local user at most once, and never sets it when it reports
    failure. *)
Theorem updateUser_effects_bounded (p : Provider) :
  let r := updateUser p in
  sleeps (snd r) <= 2 /\
  verifications (snd r) <= 9 /\
  userSets (snd r) <= 1 /\
  (success (fst r) = false -> userSets (snd r) = 0).
Proof.
  intros r. subst r. unfold updateUser.
  destruct (getSession p) as [| |current|e];
    try (cbn; repeat split; auto; lia).
  destruct (retryLoop_counts p current 0 None []) as (H1 & H2 & H3 & H4).
  cbn in H1, H2, H3, H4. repeat split; auto; lia.
Qed.

Lemma retryLoop_no_user p current n lastError log :
  n < maxAttempts ->
  authUpdateUser p (S n) = UpdateData false ->
  retryLoop p current n lastError log
  = (afterLoop lastError, log ++ [UpdateCall (S n)]).
Proof.
  intros Hn He.
  funelim (retryLoop p current n lastError log);
    first [contradiction | congruence].
Qed.

Lemma retryLoop_updated p current n lastError log evs :
  n < maxAttempts ->
  authUpdateUser p (S n) = UpdateData true ->
  verifyLoop p (S n) current [1; 2; 3] = (evs, None) ->
  retryLoop p current n lastError log
  = ({| success := true; error := None |}, log ++ UpdateCall (S n) :: evs).
Proof.
  intros Hn He Hv.
  funelim (retryLoop p current n lastError log);
    first [contradiction | congruence].
Qed.

(** X21. Two ends of [updateUser] that involve no error.  An update answered
    with data but no user stops the loop at once: one call, no retry, and
    the failure carries the fixed message.  An update answered with a user
    is reported as a success even when none of the three verifications
    shows a change: the user is then asked for three times and the local
    user is not set. *)
Theorem updateUser_without_error (p : Provider) (current : jsstring) :
  getSession p = Session current ->
  (authUpdateUser p 1 = UpdateData false ->
   updateUser p
   = ({| success := false;
         error := Some (Js.lit "All auth update attempts failed") |},
      [UpdateCall 1])) /\
  (authUpdateUser p 1 = UpdateData true ->
   (forall k, getUser p 1 k = VerifyError
              \/ getUser p 1 k = VerifyNoUser
              \/ getUser p 1 k = VerifyUser current) ->
   updateUser p
   = ({| success := true; error := None |},
      [UpdateCall 1; GetUserCall 1; GetUserCall 2; GetUserCall 3])).
Proof.
  intros Hs. unfold updateUser. rewrite Hs. split.
  - intros H. rewrite (retryLoop_no_user p current 0 None []);
      [reflexivity | unfold maxAttempts; lia | exact H].
  - intros H Hv.
    rewrite (retryLoop_updated p current 0 None []
               [GetUserCall 1; GetUserCall 2; GetUserCall 3]);
      [reflexivity | unfold maxAttempts; lia | exact H |].
    cbn [verifyLoop].
    destruct (Hv 1) as [-> | [-> | ->]], (Hv 2) as [-> | [-> | ->]],
             (Hv 3) as [-> | [-> | ->]];
      rewrite ?js_eqb_refl; reflexivity.
Qed.

(** X22. [login], [signup] and [logout] end with [loading] off and with the
    error they return recorded as [authError], none on success; a failure
    leaves the signed-in user as it was, [signup] never signs anybody in,
    and it fails with the confirmation notice when the new account is not
    confirmed yet. *)
Theorem auth_calls_report (outcome : CallOutcome) (st : AuthState) :
  (forall op, op = login \/ op = signup \/ op = logout ->
      let r := op outcome st in
      loading (fst r) = false /\
      authError (fst r) = error (snd r) /\
      (success (snd r) = true <-> error (snd r) = None) /\
      (success (snd r) = false -> user (fst r) = user st)) /\
  user (fst (signup outcome st)) = user st /\
  (forall s, outcome = CallData (Some s) -> su_confirmed s = false ->
             snd (signup outcome st)
             = {| success := false; error := Some CONFIRM_EMAIL |}) /\
  (success (snd (logout outcome st)) = true ->
   user (fst (logout outcome st)) = None).
Proof.
  split; [|split; [|split]].
  - intros op [-> | [-> | ->]]; cbv zeta;
      destruct outcome as [e|[s|]|reason]; cbn;
      try destruct (su_confirmed s); cbn;
      repeat split; auto; try discriminate.
  - destruct outcome as [e|[s|]|reason]; cbn;
      try destruct (su_confirmed s); reflexivity.
  - intros s -> Hc. cbn. rewrite Hc. reflexivity.
  - destruct outcome as [e|[s|]|reason]; cbn; auto; discriminate.
Qed.

End AuthMore.

Section AuthWitnesses.
Import Auth AuthOps Examples MoreExamples.

Lemma updateUser_effects_bounded_witness :
  success (fst (updateUser failingProvider)) = false /\
  sleeps (snd (updateUser failingProvider)) <= 2 /\
  userSets (snd (updateUser failingProvider)) = 0.
Proof.
  destruct (updateUser_effects_bounded failingProvider) as (S & _ & _ & U).
  split; [reflexivity|]. split; [exact S | exact (U eq_refl)].
Defined.

Lemma updateUser_without_error_witness :
  getSession noUserProvider = Session (Js.lit "{}") /\
  authUpdateUser noUserProvider 1 = UpdateData false /\
  updateUser noUserProvider
  = ({| success := false;
        error := Some (Js.lit "All auth update attempts failed") |},
     [UpdateCall 1]) /\
  authUpdateUser unchangedProvider 1 = UpdateData true /\
  updateUser unchangedProvider
  = ({| success := true; error := None |},
     [UpdateCall 1; GetUserCall 1; GetUserCall 2; GetUserCall 3]).
Proof.
  split; [reflexivity|]. split; [reflexivity|].
  destruct (updateUser_without_error noUserProvider (Js.lit "{}") eq_refl)
    as (N & _).
  destruct (updateUser_without_error unchangedProvider (Js.lit "{}") eq_refl)
    as (_ & U).
  split; [exact (N eq_refl)|]. split; [reflexivity|].
  apply (U eq_refl). intros k. cbn.
  destruct (Nat.eqb k 2); [left | right; right]; reflexivity.
Defined.

Lemma auth_calls_report_witness :
  snd (signup (CallData (Some newAccount)) signedIn)
  = {| success := false; error := Some CONFIRM_EMAIL |} /\
  authError (fst (signup (CallData (Some newAccount)) signedIn))
  = Some CONFIRM_EMAIL /\
  user (fst (signup (CallData (Some newAccount)) signedIn)) = Some ada /\
  user (fst (logout (CallData None) signedIn)) = None /\
  user (fst (login (CallThrows None) signedIn)) = Some ada.
Proof.
  destruct (auth_calls_report (CallData (Some newAccount)) signedIn)
    as (R & U & C & _).
  destruct (R signup (or_intror (or_introl eq_refl))) as (_ & E & _).
  destruct (auth_calls_report (CallData None) signedIn) as (_ & _ & _ & L).
  destruct (auth_calls_report (CallThrows None) signedIn) as (T & _).
  destruct (T login (or_introl eq_refl)) as (_ & _ & _ & K).
  split; [exact (C newAccount eq_refl eq_refl)|].
  split; [exact E|]. split; [exact U|]. split; [exact (L eq_refl)|].
  exact (K eq_refl).
Defined.

End AuthWitnesses.


(** ** components/chat/ChatInput.tsx *)

Section ChatInputFacts.
Import ChatInput.

Lemma isFileSupported_In type :
  isFileSupported type = true <-> In type supportedMimes.
Proof.
  unfold isFileSupported. rewrite existsb_exists. split.
  - intros (x & Hx & E). apply js_eqb_eq in E. subst. exact Hx.
  - intros H. exists type. split; [exact H | apply js_eqb_refl].
Qed.

(** X23. A file passes [validateFile] exactly when its type is one of the
    supported ones and its size is within the limit for its kind; so no
    accepted file is larger than 10 MiB, and an accepted file whose type
    starts with image/ is one of the five image types and at most 5 MiB.
    An oversized file is told about its size whatever its type. *)
Theorem validateFile_accepts (type : jsstring) (size : Z) :
  let image := startsWith (Js.lit "image/") type in
  (validateFile type size = None
   <-> In type supportedMimes
       /\ (size <= if image then 5 * 1024 * 1024 else 10 * 1024 * 1024)%Z) /\
  (validateFile type size = None ->
   (size <= 10 * 1024 * 1024)%Z /\
   (image = true ->
    (size <= 5 * 1024 * 1024)%Z /\
    In type [Js.lit "image/jpeg"; Js.lit "image/png"; Js.lit "image/gif";
             Js.lit "image/webp"; Js.lit "image/svg+xml"])) /\
  ((if image then 5 * 1024 * 1024 else 10 * 1024 * 1024) < size ->
   exists msg,
     validateFile type size
     = Some (Js.lit "File size must be less than " ++ msg))%Z.
Proof.
  intros image.
  assert (H1 : validateFile type size = None
               <-> In type supportedMimes
                   /\ (size <= if image then 5 * 1024 * 1024
                               else 10 * 1024 * 1024)%Z).
  { unfold validateFile. fold image.
    unfold MAX_IMAGE_SIZE, MAX_FILE_SIZE.
    rewrite <- isFileSupported_In.
    destruct (Z.ltb_spec (if image then 5 * 1024 * 1024
                          else 10 * 1024 * 1024) size) as [Hlt | Hle].
    - split; [discriminate | intros [_ H]; lia].
    - destruct (isFileSupported type); cbn [negb];
        split; try discriminate; auto. intros [H _]. discriminate. }
  split; [exact H1|]. split.
  - intros Hv. apply H1 in Hv as [Hin Hsz]. split.
    + destruct image; lia.
    + intros Hi. rewrite Hi in Hsz. split; [exact Hsz|].
      unfold image in Hi. unfold supportedMimes in Hin.
      repeat (destruct Hin as [<- | Hin];
              [first [ discriminate Hi
                     | simpl; tauto ] |]).
      destruct Hin.
  - intros Hlt. unfold validateFile. fold image.
    unfold MAX_IMAGE_SIZE, MAX_FILE_SIZE.
    destruct (Z.ltb_spec (if image then 5 * 1024 * 1024
                          else 10 * 1024 * 1024) size) as [_ | Hle];
      [|lia].
    eexists. reflexivity.
Qed.

End ChatInputFacts.

Section ChatInputWitnesses.
Import ChatInput.

Lemma validateFile_accepts_witness :
  validateFile (Js.lit "image/png") (5 * 1024 * 1024) = None /\
  validateFile (Js.lit "application/pdf") (10 * 1024 * 1024) = None /\
  (exists msg,
      validateFile (Js.lit "image/png") (5 * 1024 * 1024 + 1)
      = Some (Js.lit "File size must be less than " ++ msg)) /\
  validateFile (Js.lit "image/bmp") 10 <> None.
Proof.
  destruct (validateFile_accepts (Js.lit "image/png") (5 * 1024 * 1024))
    as (P & _).
  destruct (validateFile_accepts (Js.lit "application/pdf")
                                 (10 * 1024 * 1024)) as (D & _).
  destruct (validateFile_accepts (Js.lit "image/png")
                                 (5 * 1024 * 1024 + 1)) as (_ & _ & B).
  destruct (validateFile_accepts (Js.lit "image/bmp") 10) as (_ & M & _).
  split; [apply P; split; [simpl; tauto | cbn; lia]|].
  split; [apply D; split; [simpl; tauto | cbn; lia]|].
  split; [apply B; cbn; lia|].
  intros Hv. destruct (M Hv) as (_ & I).
  destruct (I eq_refl) as (_ & Hin).
  simpl in Hin.
  repeat (destruct Hin as [Hin|Hin];
          [revert Hin; apply js_eqb_neq; reflexivity|]).
  exact Hin.
Defined.

End ChatInputWitnesses.


(** ** Reloading: hooks/useChat.ts, hooks/useProjects, hooks/useFiles *)

Section ReloadFacts.
Import Gemini Chat ChatOps.

Lemma selectChat_In id rows row :
  selectChat id rows = Some row -> In row rows /\ row_id row = id.
Proof.
  unfold selectChat. intros H.
  destruct (filter (fun r => Js.eqb (row_id r) id) rows) as [|r [|r' l]] eqn:E;
    try discriminate.
  injection H as ->.
  assert (Hin : In row (filter (fun r => Js.eqb (row_id r) id) rows))
    by (rewrite E; left; reflexivity).
  apply filter_In in Hin. destruct Hin as [Hin Hid].
  split; [exact Hin | apply js_eqb_eq; exact Hid].
Qed.

Lemma find_ofRow (data : list ChatRow) row :
  NoDup (map row_id data) ->
  In row data ->
  findConversation (row_id row) (map ofRow data) = Some (ofRow row).
Proof.
  unfold findConversation.
  induction data as [|r data IH]; intros Hnd Hin; [destruct Hin|].
  inversion Hnd as [|? ? Hr Hnd']; subst. simpl.
  destruct Hin as [->|Hin].
  - rewrite js_eqb_refl. reflexivity.
  - destruct (Js.eqb (row_id r) (row_id row)) eqn:E; [|auto].
    apply js_eqb_eq in E. exfalso. apply Hr. rewrite E.
    apply in_map. exact Hin.
Qed.

(** X24. A rename is still there after the chats have been fetched again.
    Once the save request of [renameConversation] has been served,
    selecting the conversation shows it with the new title and the
    messages it had, and a full reload, in whatever order the rows come
    back, lists it so too. *)
Theorem renamed_title_survives_reload
        (u : User) (id newTitle : jsstring) (st : ChatState)
        (c : Conversation) (serverNow : Z) (rows0 data : list ChatRow) :
  NoDup (map conv_id (conversations st)) ->
  NoDup (map row_id rows0) ->
  findConversation id (conversations st) = Some c ->
  let st1 := renameConversation (Some u) id newTitle st in
  let rows := replay serverNow (effects st1) rows0 in
  Permutation data rows ->
  let st2 := selectConversation (Some u) (selectChat id rows) id st1 in
  let st3 := loadConversations (Some u) (Some data) st1 in
  activeConversationId st2 = Some id /\
  map conv_id (conversations st2) = map conv_id (conversations st) /\
  (exists c2,
      activeConversation st2 = Some c2 /\
      conv_title c2 = newTitle /\ conv_messages c2 = conv_messages c) /\
  (exists c3,
      findConversation id (conversations st3) = Some c3 /\
      conv_title c3 = newTitle /\ conv_messages c3 = conv_messages c).
Proof.
  intros Hnd Hrows Hfind st1 rows Hperm st2 st3.
  assert (Hid : forall x, conv_id (setTitle newTitle x) = conv_id x)
    by reflexivity.
  destruct (updateConversation_saved serverNow u id (setTitle newTitle)
              st c Hid Hnd Hfind rows0 Hrows)
    as (row & Hsel & Hrid & Htitle & Hmsgs).
  fold (renameConversation (Some u) id newTitle st) in Hsel.
  fold st1 in Hsel. fold rows in Hsel.
  assert (Hfind1 : findConversation id (conversations st1)
                   = Some (setTitle newTitle c)).
  { unfold st1, renameConversation.
    rewrite updateConversation_conversations.
    apply findConversation_map; assumption. }
  assert (Hconv2 : conversations st2
                   = map (fun conv => if Js.eqb (conv_id conv) id
                                      then ofRow row else conv)
                         (conversations st1)).
  { unfold st2, selectConversation. rewrite Hsel. reflexivity. }
  split; [unfold st2, selectConversation; rewrite Hsel; reflexivity|].
  split; [|split].
  - rewrite Hconv2, map_map.
    transitivity (map conv_id (conversations st1)).
    + apply map_ext. intros x.
      destruct (Js.eqb (conv_id x) id) eqn:E; [|reflexivity].
      apply js_eqb_eq in E. cbn [ofRow conv_id]. congruence.
    + apply updateConversation_ids. exact Hid.
  - exists (ofRow row). split; [|split].
    + unfold activeConversation.
      replace (activeConversationId st2) with (Some id)
        by (unfold st2, selectConversation; rewrite Hsel; reflexivity).
      rewrite Hconv2.
      apply (find_map_replace id (fun _ => ofRow row) _ _ Hfind1).
      exact Hrid.
    + exact Htitle.
    + cbn [ofRow conv_messages]. rewrite Hmsgs. reflexivity.
  - exists (ofRow row).
    destruct (selectChat_In _ _ _ Hsel) as [Hin _].
    assert (Hnd' : NoDup (map row_id data)).
    { apply (Permutation_NoDup (l := map row_id rows)).
      - apply Permutation_map. symmetry. exact Hperm.
      - apply replay_ids. exact Hrows. }
    split; [|split].
    + rewrite <- Hrid. apply find_ofRow; [exact Hnd'|].
      apply (Permutation_in row (Permutation_sym Hperm)). exact Hin.
    + exact Htitle.
    + cbn [ofRow conv_messages]. rewrite Hmsgs. reflexivity.
Qed.

End ReloadFacts.

Section LoadTasksFacts.
Import Sql Projects ProjectsOps Spec.

Lemma insertProject_In a l x : In x (insertProject a l) <-> x = a \/ In x l.
Proof.
  induction l as [|b r IH]; simpl; [intuition auto|].
  destruct (p_created_at b <=? p_created_at a)%Z; simpl;
    [intuition auto|].
  rewrite IH. intuition auto.
Qed.

Lemma orderProjects_In l x : In x (orderProjects l) <-> In x l.
Proof.
  induction l as [|a l IH]; simpl; [tauto|].
  rewrite insertProject_In, IH. intuition auto.
Qed.

Lemma insertProject_length a l : length (insertProject a l) = S (length l).
Proof.
  induction l as [|b r IH]; simpl; [reflexivity|].
  destruct (p_created_at b <=? p_created_at a)%Z; simpl; auto.
Qed.

Lemma orderProjects_length l : length (orderProjects l) = length l.
Proof.
  induction l as [|a l IH]; simpl; [reflexivity|].
  rewrite insertProject_length, IH. reflexivity.
Qed.

Lemma insertProject_sorted a l :
  Sorted (fun x y => (p_created_at y <= p_created_at x)%Z) l ->
  Sorted (fun x y => (p_created_at y <= p_created_at x)%Z)
         (insertProject a l).
Proof.
  induction 1 as [|b r Hs IH Hh]; simpl; [repeat constructor|].
  destruct (p_created_at b <=? p_created_at a)%Z eqn:E.
  - apply Z.leb_le in E. repeat constructor; auto.
  - apply Z.leb_gt in E. constructor; [exact IH|].
    destruct r as [|c r]; simpl.
    + constructor. lia.
    + destruct (p_created_at c <=? p_created_at a)%Z;
        constructor; [lia|]. inversion Hh; assumption.
Qed.

Lemma orderProjects_sorted l :
  Sorted (fun x y => (p_created_at y <= p_created_at x)%Z) (orderProjects l).
Proof.
  induction l as [|a l IH]; simpl; [constructor|].
  apply insertProject_sorted. exact IH.
Qed.

Lemma Sorted_map {A B} (R : A -> A -> Prop) (R' : B -> B -> Prop)
      (f : A -> B) (l : list A) :
  (forall x y, R x y -> R' (f x) (f y)) ->
  Sorted R l -> Sorted R' (map f l).
Proof.
  intros Hf. induction 1 as [|a l Hs IH Hh]; simpl; constructor; auto.
  destruct Hh; simpl; constructor; auto.
Qed.

(** X25. After a successful [loadTasks] the list holds the tasks of the rows of
    the signed-in user, each once, from the newest to the oldest; a failed
    select leaves the list as it was.  Loaded after the purge of old
    completed tasks has run, the list has lost exactly the tasks completed
    more than seven days before. *)
Theorem loadTasks_lists (u : User) (table : list ProjectRow)
        (tasks0 : list ProjectTask) :
  let shown := loadTasks (Some u) true table tasks0 in
  (forall t,
      In t shown
      <-> exists row,
          In row table /\ p_user_id row = user_id u /\ t = formatTask row) /\
  length shown
  = length (filter (fun r => Js.eqb (p_user_id r) (user_id u)) table) /\
  Sorted (fun x y => (task_createdAt y <= task_createdAt x)%Z) shown /\
  loadTasks (Some u) false table tasks0 = tasks0 /\
  (forall now t,
      In t (loadTasks (Some u) true (delete_old_completed_tasks now table)
                      tasks0)
      <-> exists row,
          In row table /\ ~ OldCompleted now row /\
          p_user_id row = user_id u /\ t = formatTask row).
Proof.
  assert (Hin : forall tbl t,
             In t (loadTasks (Some u) true tbl tasks0)
             <-> exists row,
                 In row tbl /\ p_user_id row = user_id u
                 /\ t = formatTask row).
  { intros tbl t. unfold loadTasks. cbn [negb]. rewrite in_map_iff. split.
    - intros (row & <- & Hrow).
      apply (proj1 (orderProjects_In _ _)) in Hrow.
      apply filter_In in Hrow. destruct Hrow as [Hrow E].
      apply js_eqb_eq in E. exists row. auto.
    - intros (row & Hrow & E & ->). exists row. split; [reflexivity|].
      apply orderProjects_In. apply filter_In. split; [exact Hrow|].
      apply js_eqb_eq. exact E. }
  intros shown. split; [apply Hin|]. split; [|split; [|split]].
  - unfold shown, loadTasks. cbn [negb].
    rewrite length_map. apply orderProjects_length.
  - unfold shown, loadTasks. cbn [negb].
    apply (Sorted_map (fun x y => (p_created_at y <= p_created_at x)%Z)).
    + intros x y Hxy. cbn [formatTask task_createdAt]. unfold Files.getTime.
      apply Z.div_le_mono; [lia | exact Hxy].
    + apply orderProjects_sorted.
  - reflexivity.
  - intros now t. rewrite Hin.
    assert (HP : Purged (OldCompleted now) table
                        (delete_old_completed_tasks now table)).
    { apply filter_Purged. intros r _.
      rewrite negb_false_iff. apply old_completed_where. }
    split.
    + intros (row & Hrow & E & ->). apply (Purged_In HP) in Hrow.
      exists row. tauto.
    + intros (row & Hrow & Hn & E & ->). exists row.
      split; [apply (Purged_In HP); tauto | auto].
Qed.

End LoadTasksFacts.

Section FileBase64Facts.
Import Sql Files FilesOps.

Lemma truthy_nonempty (s : jsstring) : Js.truthy s = true <-> s <> [].
Proof. destruct s; simpl; split; congruence. Qed.

Lemma find_map_first fileId g (l : list StoredFile) file :
  (forall f, sf_id (g f) = sf_id f) ->
  find (fun f => Js.eqb (sf_id f) fileId) l = Some file ->
  find (fun f => Js.eqb (sf_id f) fileId)
       (map (fun f => if Js.eqb (sf_id f) fileId then g f else f) l)
  = Some (g file).
Proof.
  intros Hg. induction l as [|x l IH]; simpl; [discriminate|].
  destruct (Js.eqb (sf_id x) fileId) eqn:E.
  - intros [= ->]. simpl. rewrite Hg, E. reflexivity.
  - intros H. simpl. rewrite E. auto.
Qed.

(** X26. [getFileBase64] touches nothing but the content kept for the file
    asked for: the database and the other files stay, and the file keeps
    its id, name, type, size and expiry.  A content it returns is kept:
    asked again, it gives the same answer from the local list, whatever
    the store would do. *)
Theorem getFileBase64_caches (fetchOk : bool)
        (download : jsstring -> option jsstring) (fileId : jsstring)
        (w : World) :
  let r := getFileBase64 fetchOk download fileId w in
  db (snd r) = db w /\
  isLoading (snd r) = isLoading w /\
  Forall2 (fun f f' =>
             f' = withBase64 (sf_base64 f') f /\
             (sf_id f <> fileId -> f' = f))
          (localFiles w) (localFiles (snd r)) /\
  (fst r <> [] ->
   forall fetchOk' download',
     getFileBase64 fetchOk' download' fileId (snd r) = r).
Proof.
  assert (Hsame : forall l : list StoredFile,
             Forall2 (fun f f' => f' = withBase64 (sf_base64 f') f
                                  /\ (sf_id f <> fileId -> f' = f)) l l).
  { induction l as [|x l IH]; constructor; auto.
    split; [destruct x; reflexivity | auto]. }
  cbv zeta. unfold getFileBase64.
  destruct (find (fun f => Js.eqb (sf_id f) fileId) (localFiles w))
    as [file|] eqn:Hfind; cbn [fst snd];
    [|repeat split; auto; congruence].
  destruct (Js.truthy (sf_base64 file)) eqn:Ht; cbn [fst snd].
  - repeat split; auto. intros _ fetchOk' download'.
    rewrite Hfind, Ht. reflexivity.
  - destruct (if fetchOk then selectPath fileId (files (db w)) else None)
      as [file_path|]; cbn [fst snd db isLoading localFiles];
      [|repeat split; auto; congruence].
    set (base64 := match download file_path with
                   | Some b => b
                   | None => []
                   end).
    split; [reflexivity|]. split; [reflexivity|]. split.
    + clear Hfind. induction (localFiles w) as [|x l IH]; simpl;
        constructor; auto.
      destruct (Js.eqb (sf_id x) fileId) eqn:E.
      * split; [reflexivity|]. intros Hn. apply js_eqb_neq in Hn.
        congruence.
      * split; [destruct x; reflexivity | reflexivity].
    + intros Hne fetchOk' download'.
      rewrite (find_map_first fileId (withBase64 base64) _ file);
        [|reflexivity | exact Hfind].
      cbn [withBase64 sf_base64].
      apply truthy_nonempty in Hne. rewrite Hne. reflexivity.
Qed.

End FileBase64Facts.

Section ReloadWitnesses.
Import Gemini Chat ChatOps Examples MoreExamples.

Lemma renamed_title_survives_reload_witness :
  NoDup (map conv_id (conversations st1)) /\
  NoDup (map row_id (@nil ChatRow)) /\
  findConversation (Js.lit "c1") (conversations st1) = Some conv1 /\
  exists c3,
    findConversation (Js.lit "c1")
      (conversations
         (loadConversations (Some ada)
            (Some (replay 5
                     (effects (renameConversation (Some ada) (Js.lit "c1")
                                                  (Js.lit "Plans") st1))
                     []))
            (renameConversation (Some ada) (Js.lit "c1") (Js.lit "Plans")
                                st1)))
    = Some c3 /\
    conv_title c3 = Js.lit "Plans" /\
    conv_messages c3 = [oldMessage].
Proof.
  assert (Hnd : NoDup (map conv_id (conversations st1))).
  { repeat constructor; simpl; [|tauto].
    intros [H|[]]. revert H. apply js_eqb_neq. reflexivity. }
  assert (Hrows : NoDup (map row_id (@nil ChatRow))) by constructor.
  split; [exact Hnd|]. split; [exact Hrows|]. split; [reflexivity|].
  destruct (renamed_title_survives_reload
              ada (Js.lit "c1") (Js.lit "Plans") st1 conv1 5 [] _
              Hnd Hrows eq_refl (Permutation_refl _))
    as (_ & _ & _ & H).
  exact H.
Defined.

End ReloadWitnesses.

Section LoadTasksWitnesses.
Import Sql Projects ProjectsOps Spec Examples MoreExamples.

Lemma loadTasks_lists_witness :
  length (loadTasks (Some ada) true projects0 []) = 3 /\
  ~ OldCompleted (9 * day) taskOpen /\
  In (formatTask taskOpen)
     (loadTasks (Some ada) true
                (delete_old_completed_tasks (9 * day) projects0) []) /\
  ~ In (formatTask taskOld)
       (loadTasks (Some ada) true
                  (delete_old_completed_tasks (9 * day) projects0) []).
Proof.
  destruct (loadTasks_lists ada projects0 []) as (_ & L & _ & _ & P).
  assert (Hopen : ~ OldCompleted (9 * day) taskOpen).
  { intros [H _]. discriminate H. }
  split; [exact L|]. split; [exact Hopen|]. split.
  - apply P. exists taskOpen.
    split; [simpl; tauto|]. split; [exact Hopen|].
    split; reflexivity.
  - intros Hin. apply P in Hin.
    destruct Hin as (row & Hrow & Hn & _ & E).
    apply (f_equal task_id) in E. cbn [formatTask task_id] in E.
    simpl in Hrow. destruct Hrow as [<-|[<-|[<-|[]]]].
    + apply Hn. split; [reflexivity|].
      exists day. split; [reflexivity|]. reflexivity.
    + revert E. apply js_eqb_neq. reflexivity.
    + revert E. apply js_eqb_neq. reflexivity.
Defined.

End LoadTasksWitnesses.

Section FileBase64Witnesses.
Import Sql Files FilesOps Examples MoreExamples.

Lemma getFileBase64_caches_witness :
  fst (getFileBase64 true (fun _ => Some (Js.lit "QUJD")) (Js.lit "f2")
                     world1)
  = Js.lit "QUJD" /\
  getFileBase64 false (fun _ => None) (Js.lit "f2")
    (snd (getFileBase64 true (fun _ => Some (Js.lit "QUJD")) (Js.lit "f2")
                        world1))
  = getFileBase64 true (fun _ => Some (Js.lit "QUJD")) (Js.lit "f2") world1.
Proof.
  destruct (getFileBase64_caches true (fun _ => Some (Js.lit "QUJD"))
              (Js.lit "f2") world1) as (_ & _ & _ & H).
  split; [reflexivity|].
  apply H. apply js_eqb_neq. reflexivity.
Defined.

End FileBase64Witnesses.
